(** * Layered-graph shortest-path reranking of molecular candidates

    A shallow embedding of [metabolite_identification_cls.py]: the edge
    weight function [_weight_func_max], the dynamic programs
    [shortest_path] and [shortest_path_exclude_candidates], the top-k
    driver [perform_reranking_of_candidates], and the construction of the
    candidate layers ([build_candidate_structure] and
    [_candidate_iokrscores_and_rankingscores]).

    Numbers.  Python floats are modelled by [float]: exact rationals
    extended with the two infinities and NaN.  The special values follow
    IEEE 754 (comparisons with NaN are false, [inf - inf] is NaN, ...);
    rounding of finite values is not modelled.

    Errors.  Python exceptions are modelled by the [result] monad.

    Objects.  The candidate layers are Python dictionaries, i.e. mutable
    objects; the reranking driver is modelled over an explicit heap of
    layer objects so that aliasing between the caller's layers and the
    driver's working copy is visible. *)

From Stdlib Require Import QArith Qabs Qminmax ZArith Lia Lqa Bool String.
From stdpp Require Import base option list.

Local Open Scope nat_scope.

(** ** Exceptions *)

Inductive exn : Type :=
| AssertionError
| KeyError
| IndexError
| TypeError
| ValueError.

Inductive result (A : Type) : Type :=
| Ok (a : A)
| Raise (e : exn).
Arguments Ok {A} a.
Arguments Raise {A} e.

#[global] Instance result_ret : MRet result := fun _ a => Ok a.
#[global] Instance result_bind : MBind result := fun _ _ f m =>
  match m with
  | Ok a => f a
  | Raise e => Raise e
  end.

Definition assert (b : bool) : result unit :=
  if b then Ok tt else Raise AssertionError.

Definition is_ok {A} (r : result A) : Prop := ∃ a, r = Ok a.

(** [for x in xs: st = body x st], stopping at the first exception. *)
Fixpoint for_each {X St : Type} (xs : list X) (body : X → St → result St)
    (st : St) : result St :=
  match xs with
  | [] => Ok st
  | x :: xs' => st' ← body x st; for_each xs' body st'
  end.

(** [range n] *)
Definition range (n : nat) : list nat := seq 0 n.

(** ** Floats: extended rationals *)

Inductive float : Type :=
| NaN
| NInf
| Fin (q : Q)
| PInf.

Definition Qltb (a b : Q) : bool := negb (Qle_bool b a).

Definition fneg (a : float) : float :=
  match a with
  | NaN => NaN
  | NInf => PInf
  | Fin q => Fin (- q)
  | PInf => NInf
  end.

Definition fadd (a b : float) : float :=
  match a, b with
  | NaN, _ | _, NaN => NaN
  | PInf, NInf | NInf, PInf => NaN
  | PInf, _ | _, PInf => PInf
  | NInf, _ | _, NInf => NInf
  | Fin x, Fin y => Fin (x + y)
  end.

Definition fsub (a b : float) : float := fadd a (fneg b).

(** comparison of a float with zero; [None] for NaN *)
Definition fcmp0 (a : float) : option comparison :=
  match a with
  | NaN => None
  | NInf => Some Lt
  | Fin q => Some (q ?= 0)%Q
  | PInf => Some Gt
  end.

Definition fmul (a b : float) : float :=
  match a, b with
  | Fin x, Fin y => Fin (x * y)
  | _, _ =>
      match fcmp0 a, fcmp0 b with
      | Some Eq, _ | _, Some Eq => NaN
      | Some Lt, Some Lt | Some Gt, Some Gt => PInf
      | Some Lt, Some Gt | Some Gt, Some Lt => NInf
      | None, _ | _, None => NaN
      end
  end.

Definition fdiv (a b : float) : float :=
  match a, b with
  | NaN, _ | _, NaN => NaN
  | Fin x, Fin y =>
      match (0 ?= y)%Q with
      | Eq => match (0 ?= x)%Q with Eq => NaN | Lt => PInf | Gt => NInf end
      | _ => Fin (x / y)
      end
  | Fin _, _ => Fin 0
  | _, Fin y =>
      match fcmp0 a, (0 ?= y)%Q with
      | Some Gt, Gt | Some Lt, Lt | Some Lt, Eq => NInf
      | _, _ => PInf
      end
  | _, _ => NaN
  end.

Definition fltb (a b : float) : bool :=
  match a, b with
  | NaN, _ | _, NaN => false
  | _, NInf => false
  | NInf, _ => true
  | PInf, _ => false
  | Fin _, PInf => true
  | Fin x, Fin y => Qltb x y
  end.

Definition fleb (a b : float) : bool :=
  match a, b with
  | NaN, _ | _, NaN => false
  | NInf, _ => true
  | _, PInf => true
  | _, NInf => false
  | PInf, _ => false
  | Fin x, Fin y => Qle_bool x y
  end.

Definition fgtb (a b : float) : bool := fltb b a.
Definition fgeb (a b : float) : bool := fleb b a.

(** [np.abs] *)
Definition np_abs (a : float) : float :=
  match a with
  | NaN => NaN
  | NInf | PInf => PInf
  | Fin q => Fin (Qabs q)
  end.

(** [np.sign] *)
Definition np_sign (a : float) : float :=
  match a with
  | NaN => NaN
  | NInf => Fin (-1)
  | PInf => Fin 1
  | Fin q =>
      match (0 ?= q)%Q with
      | Lt => Fin 1
      | Eq => Fin 0
      | Gt => Fin (-1)
      end
  end.

(** The builtin [max (0, x)]: the first argument is kept unless the
    second is strictly greater. *)
Definition max0 (x : float) : float :=
  if fgtb x (Fin 0) then x else Fin 0.

(** [np.log], over a logarithm [ln] on the positive rationals. *)
Definition np_log (ln : Q → Q) (a : float) : float :=
  match a with
  | NaN | NInf => NaN
  | PInf => PInf
  | Fin q =>
      match (0 ?= q)%Q with
      | Lt => Fin (ln q)
      | Eq => NInf
      | Gt => NaN
      end
  end.

Definition is_fin (a : float) : Prop := ∃ q, a = Fin q.

(** ** Python list indexing *)

(** Indexing by a loop counter (never negative). *)
Definition index {A} (l : list A) (i : nat) : result A :=
  match l !! i with
  | Some x => Ok x
  | None => Raise IndexError
  end.

(** Values used as candidate indices: Python integers, or the float
    [nan] with which the parent table is initialised. *)
Inductive pyidx : Type :=
| Idx (z : Z)
| NanIdx.

Definition pyidx_eqb (a b : pyidx) : bool :=
  match a, b with
  | Idx x, Idx y => (x =? y)%Z
  | _, _ => false
  end.

(** Position addressed by a Python integer index in a sequence of length
    [n]: negative indices count from the end. *)
Definition py_pos (n : nat) (z : Z) : option nat :=
  if (0 <=? z)%Z then
    (if (z <? Z.of_nat n)%Z then Some (Z.to_nat z) else None)
  else
    (if (0 <=? Z.of_nat n + z)%Z then Some (Z.to_nat (Z.of_nat n + z)) else None).

Definition py_get {A} (l : list A) (ix : pyidx) : result A :=
  match ix with
  | NanIdx => Raise TypeError
  | Idx z =>
      match py_pos (length l) z with
      | Some i => index l i
      | None => Raise IndexError
      end
  end.

Definition py_set {A} (l : list A) (ix : pyidx) (x : A) : result (list A) :=
  match ix with
  | NanIdx => Raise TypeError
  | Idx z =>
      match py_pos (length l) z with
      | Some i => Ok (<[i := x]> l)
      | None => Raise IndexError
      end
  end.

Definition nat_idx (i : nat) : pyidx := Idx (Z.of_nat i).

(** [np.argmin]: index of the first minimum; a NaN counts as minimal. *)
Fixpoint argmin_from (best : nat) (vbest : float) (i : nat) (l : list float)
    : nat :=
  match l with
  | [] => best
  | v :: l' =>
      match vbest, v with
      | NaN, _ => best
      | _, NaN => i
      | _, _ =>
          if fltb v vbest then argmin_from i v (S i) l'
          else argmin_from best vbest (S i) l'
      end
  end.

Definition np_argmin (l : list float) : result nat :=
  match l with
  | [] => Raise ValueError
  | v :: l' => Ok (argmin_from 0 v 1 l')
  end.

(** ** Candidate layers *)

(** One dictionary of [cand_data].  Only the keys read by the functions
    below are kept; ["is_blocked"] is absent until the reranking driver
    adds it. *)
Record layer : Type := mkLayer {
  iokrscores : list float;
  wtx : list float;
  rt_cand_list : float;
  is_true_identification : list bool;
  is_blocked : option (list bool)
}.

(** [cut_off_n_cand]: [np.inf] or an integer bound. *)
Inductive cutoff : Type :=
| Unbounded
| AtMost (n : nat).

(** [int (np.minimum (len (...), cut_off_n_cand))] *)
Definition n_cand (l : layer) (cut_off_n_cand : cutoff) : nat :=
  match cut_off_n_cand with
  | Unbounded => length (iokrscores l)
  | AtMost n => Nat.min (length (iokrscores l)) n
  end.

(** Keyword arguments handed to the weight function.  The solver adds
    the table of accumulated order differences under ["dW_path"]. *)
Record kwargs : Type := mkKwargs {
  kw_D : option float;
  kw_use_sign : option bool;
  kw_epsilon_rt : option float;
  kw_use_log : option bool;
  kw_dW_path : option (list (list float))
}.

Definition set_dW_path (kw : kwargs) (dW : list (list float)) : kwargs :=
  {| kw_D := kw_D kw; kw_use_sign := kw_use_sign kw;
     kw_epsilon_rt := kw_epsilon_rt kw; kw_use_log := kw_use_log kw;
     kw_dW_path := Some dW |}.

Definition weight_function : Type :=
  list layer → nat * nat → nat * nat → kwargs → result (float * float).

(** ** The edge weight *)

Definition has_key {A} (o : option A) : result A :=
  match o with
  | Some a => Ok a
  | None => Raise AssertionError
  end.

Definition _weight_func_max (ln : Q → Q) : weight_function :=
  fun cand_data u v kwargs =>
    D ← has_key (kw_D kwargs);
    use_sign ← has_key (kw_use_sign kwargs);
    epsilon_rt ← has_key (kw_epsilon_rt kwargs);
    use_log ← has_key (kw_use_log kwargs);
    let '(t, i) := u in
    let '(tp1, j) := v in
    l_tp1 ← index cand_data tp1;
    s_tp1_j ← index (iokrscores l_tp1) j;
    l_t ← index cand_data t;
    dW_tp1_j ←
      (if fleb (np_abs (fsub (rt_cand_list l_t) (rt_cand_list l_tp1))) epsilon_rt
       then Ok (Fin 0)
       else
         w_t_i ← index (wtx l_t) i;
         w_tp1_j ← index (wtx l_tp1) j;
         Ok (fsub w_t_i w_tp1_j));
    let dW_tp1_j := if use_sign : bool then np_sign dW_tp1_j else dW_tp1_j in
    let penalty := max0 dW_tp1_j in
    let penalty := if use_log : bool then np_log ln (fadd penalty (Fin 1)) else penalty in
    Ok (fadd (fneg s_tp1_j) (fmul D penalty), dW_tp1_j).

(** ** Input validation *)

(** Modelled from the spec: [helper_cls.is_sorted] is imported by the
    module but is not among its sources.  Following "assert per-layer
    scores descending", [is_sorted l false] holds when no element is
    followed by a larger one. *)
Fixpoint is_sorted (l : list float) (ascending : bool) : bool :=
  match l with
  | x :: l' =>
      match l' with
      | y :: _ => (if ascending then fleb x y else fgeb x y) && is_sorted l' ascending
      | [] => true
      end
  | [] => true
  end.

(** One round of the [check_input] loop; the state is the retention time
    of the previous layer. *)
Definition check_layer (cand_data : list layer)
    (exclude_blocked_candidates : bool) (t : nat) (rt : float) : result float :=
  l_t ← index cand_data t;
  assert (is_sorted (iokrscores l_t) false);;
  assert (fgeb (rt_cand_list l_t) rt);;
  (if exclude_blocked_candidates then
     blocked ← has_key (is_blocked l_t);
     assert (length blocked =? length (iokrscores l_t))
   else Ok tt);;
  Ok (rt_cand_list l_t).

Definition check_cand_data (cand_data : list layer) (check_input : bool)
    (exclude_blocked_candidates : bool) : result unit :=
  if check_input then
    for_each (range (length cand_data))
      (check_layer cand_data exclude_blocked_candidates) NInf;;
    Ok tt
  else Ok tt.

(** ** The dynamic program *)

Record tables : Type := mkTables {
  S_path : list (list float);
  dW_path : list (list float);
  parents : list (list pyidx)
}.

(** [l[i] = x] for a loop counter [i] *)
Definition assign {A} (l : list A) (i : nat) (x : A) : result (list A) :=
  if decide (i < length l) then Ok (<[i := x]> l) else Raise IndexError.

(** [tbl[t][j] = x] *)
Definition assign2 {A} (tbl : list (list A)) (t j : nat) (x : A)
    : result (list (list A)) :=
  row ← index tbl t;
  row' ← assign row j x;
  Ok (<[t := row']> tbl).

(** [exclude_blocked_candidates and cand_data[t]["is_blocked"][i]] *)
Definition skip_blocked (exclude_blocked_candidates : bool)
    (cand_data : list layer) (t i : nat) : result bool :=
  if exclude_blocked_candidates then
    l_t ← index cand_data t;
    match is_blocked l_t with
    | Some blocked => index blocked i
    | None => Raise KeyError
    end
  else Ok false.

(** Body of the loop over [j]: relax the edge from [(t, i)] to
    [(t + 1, j)]. *)
Definition relax_edge (cand_data : list layer) (weight_fun : weight_function)
    (exclude_blocked_candidates : bool) (kwds_c : kwargs)
    (t i : nat) (s_t_i dW_t_i : float) (j : nat) (tb : tables) : result tables :=
  let tp1 := t + 1 in
  blocked ← skip_blocked exclude_blocked_candidates cand_data tp1 j;
  if blocked : bool then Ok tb
  else
    '(s_update, dw_tp1_j) ←
      weight_fun cand_data (t, i) (tp1, j) (set_dW_path kwds_c (dW_path tb));
    let s_tp1_j := fadd s_t_i s_update in
    S_tp1 ← index (S_path tb) tp1;
    cur ← index S_tp1 j;
    if fgtb cur s_tp1_j then
      S' ← assign2 (S_path tb) tp1 j s_tp1_j;
      dW' ← assign2 (dW_path tb) tp1 j (fadd dW_t_i dw_tp1_j);
      parents' ← assign2 (parents tb) tp1 j (nat_idx i);
      Ok {| S_path := S'; dW_path := dW'; parents := parents' |}
    else Ok tb.

(** Body of the loop over [i]: relax all edges leaving [(t, i)]. *)
Definition relax_from (cand_data : list layer) (weight_fun : weight_function)
    (exclude_blocked_candidates : bool) (kwds_c : kwargs)
    (t n_cand_tp1 : nat) (i : nat) (tb : tables) : result tables :=
  blocked ← skip_blocked exclude_blocked_candidates cand_data t i;
  if blocked : bool then Ok tb
  else
    S_t ← index (S_path tb) t;
    s_t_i ← index S_t i;
    dW_t ← index (dW_path tb) t;
    dW_t_i ← index dW_t i;
    for_each (range n_cand_tp1)
      (relax_edge cand_data weight_fun exclude_blocked_candidates kwds_c
         t i s_t_i dW_t_i) tb.

(** Body of the loop over [t]: open the rows of layer [t + 1] and relax
    all edges between the layers [t] and [t + 1]. *)
Definition forward_step (cand_data : list layer) (weight_fun : weight_function)
    (cut_off_n_cand : cutoff) (exclude_blocked_candidates : bool)
    (kwds_c : kwargs) (t : nat) (tb : tables) : result tables :=
  let tp1 := t + 1 in
  l_t ← index cand_data t;
  l_tp1 ← index cand_data tp1;
  let n_cand_t := n_cand l_t cut_off_n_cand in
  let n_cand_tp1 := n_cand l_tp1 cut_off_n_cand in
  let tb := {| S_path := S_path tb ++ [replicate n_cand_tp1 PInf];
               dW_path := dW_path tb ++ [replicate n_cand_tp1 NInf];
               parents := parents tb ++ [replicate n_cand_tp1 NanIdx] |} in
  for_each (range n_cand_t)
    (relax_from cand_data weight_fun exclude_blocked_candidates kwds_c
       t n_cand_tp1) tb.

(** The tables before the first round. *)
Definition init_tables (l_0 : layer) : tables :=
  let n_cand_first := length (iokrscores l_0) in
  {| S_path := [map fneg (iokrscores l_0)];
     dW_path := [replicate n_cand_first (Fin 0)];
     parents := [replicate n_cand_first (Idx (-1))] |}.

Definition forward (cand_data : list layer) (weight_fun : weight_function)
    (cut_off_n_cand : cutoff) (exclude_blocked_candidates : bool)
    (kwds_c : kwargs) : result tables :=
  l_0 ← index cand_data 0;
  for_each (range (length cand_data - 1))
    (forward_step cand_data weight_fun cut_off_n_cand
       exclude_blocked_candidates kwds_c)
    (init_tables l_0).

(** The [while True] loop that follows the parent pointers.  Every round
    decrements [t], and [parents[t]] raises once [t < - len (parents)];
    [fuel] bounds the number of rounds and [backtrack_fuel] below shows
    that the bound used by the solver is never reached. *)
Fixpoint backtrack (fuel : nat) (parents : list (list pyidx)) (t : Z)
    (nodes_shortest_path : list pyidx) : result (list pyidx) :=
  match fuel with
  | 0 => Raise IndexError
  | S fuel' =>
      parents_t ← py_get parents (Idx t);
      last ← py_get nodes_shortest_path (Idx (-1));
      par ← py_get parents_t last;
      if pyidx_eqb par (Idx (-1)) then Ok nodes_shortest_path
      else backtrack fuel' parents (t - 1) (nodes_shortest_path ++ [par])
  end.

Definition backtrack_bound (parents : list (list pyidx)) (t : Z) : nat :=
  Z.to_nat (t + Z.of_nat (length parents) + 1).

(** Terminal node, path length and backtracking. *)
Definition extract_path (n_layer : nat) (tb : tables)
    : result (list pyidx * float) :=
  S_last ← py_get (S_path tb) (Idx (-1));
  a ← np_argmin S_last;
  let nodes_shortest_path := [nat_idx a] in
  len_shortest_path ← py_get S_last (nat_idx a);
  let t := (Z.of_nat n_layer - 1)%Z in
  nodes_shortest_path ←
    backtrack (backtrack_bound (parents tb) t) (parents tb) t nodes_shortest_path;
  Ok (rev nodes_shortest_path, len_shortest_path).

Definition shortest_path_exclude_candidates (cand_data : list layer)
    (weight_fun : weight_function) (cut_off_n_cand : cutoff)
    (check_input exclude_blocked_candidates : bool) (kwds : kwargs)
    : result (list pyidx * float) :=
  let kwds_c := kwds in
  let n_layer := length cand_data in
  check_cand_data cand_data check_input exclude_blocked_candidates;;
  tb ← forward cand_data weight_fun cut_off_n_cand
         exclude_blocked_candidates kwds_c;
  extract_path n_layer tb.

(** ** The solver without blocking *)

Definition sp_check_layer (cand_data : list layer) (t : nat) (rt : float)
    : result float :=
  l_t ← index cand_data t;
  assert (is_sorted (iokrscores l_t) false);;
  assert (fgeb (rt_cand_list l_t) rt);;
  Ok (rt_cand_list l_t).

Definition sp_check_cand_data (cand_data : list layer) (check_input : bool)
    : result unit :=
  if check_input then
    for_each (range (length cand_data)) (sp_check_layer cand_data) NInf;;
    Ok tt
  else Ok tt.

Definition sp_relax_edge (cand_data : list layer) (weight_fun : weight_function)
    (kwds_c : kwargs) (t i : nat) (s_t_i dW_t_i : float) (j : nat)
    (tb : tables) : result tables :=
  let tp1 := t + 1 in
  '(s_update, dw_tp1_j) ←
    weight_fun cand_data (t, i) (tp1, j) (set_dW_path kwds_c (dW_path tb));
  let s_tp1_j := fadd s_t_i s_update in
  S_tp1 ← index (S_path tb) tp1;
  cur ← index S_tp1 j;
  if fgtb cur s_tp1_j then
    S' ← assign2 (S_path tb) tp1 j s_tp1_j;
    dW' ← assign2 (dW_path tb) tp1 j (fadd dW_t_i dw_tp1_j);
    parents' ← assign2 (parents tb) tp1 j (nat_idx i);
    Ok {| S_path := S'; dW_path := dW'; parents := parents' |}
  else Ok tb.

Definition sp_relax_from (cand_data : list layer) (weight_fun : weight_function)
    (kwds_c : kwargs) (t n_cand_tp1 : nat) (i : nat) (tb : tables)
    : result tables :=
  S_t ← index (S_path tb) t;
  s_t_i ← index S_t i;
  dW_t ← index (dW_path tb) t;
  dW_t_i ← index dW_t i;
  for_each (range n_cand_tp1)
    (sp_relax_edge cand_data weight_fun kwds_c t i s_t_i dW_t_i) tb.

Definition sp_forward_step (cand_data : list layer)
    (weight_fun : weight_function) (cut_off_n_cand : cutoff)
    (kwds_c : kwargs) (t : nat) (tb : tables) : result tables :=
  let tp1 := t + 1 in
  l_t ← index cand_data t;
  l_tp1 ← index cand_data tp1;
  let n_cand_t := n_cand l_t cut_off_n_cand in
  let n_cand_tp1 := n_cand l_tp1 cut_off_n_cand in
  let tb := {| S_path := S_path tb ++ [replicate n_cand_tp1 PInf];
               dW_path := dW_path tb ++ [replicate n_cand_tp1 NInf];
               parents := parents tb ++ [replicate n_cand_tp1 NanIdx] |} in
  for_each (range n_cand_t)
    (sp_relax_from cand_data weight_fun kwds_c t n_cand_tp1) tb.

Definition sp_forward (cand_data : list layer) (weight_fun : weight_function)
    (cut_off_n_cand : cutoff) (kwds_c : kwargs) : result tables :=
  l_0 ← index cand_data 0;
  for_each (range (length cand_data - 1))
    (sp_forward_step cand_data weight_fun cut_off_n_cand kwds_c)
    (init_tables l_0).

Definition shortest_path (cand_data : list layer)
    (weight_fun : weight_function) (cut_off_n_cand : cutoff)
    (check_input : bool) (kwds : kwargs) : result (list pyidx * float) :=
  let kwds_c := kwds in
  let n_layer := length cand_data in
  sp_check_cand_data cand_data check_input;;
  tb ← sp_forward cand_data weight_fun cut_off_n_cand kwds_c;
  extract_path n_layer tb.

(** ** The heap of layer objects *)

(** A reference to a dictionary is its position in the heap; objects are
    never freed, and a new object is placed at the end. *)
Abbreviation loc := nat (only parsing).
Abbreviation heap := (list layer) (only parsing).

(** Computations that read and write the heap and may raise. *)
Definition M (A : Type) : Type := heap → heap * result A.

Definition ret_M {A} (a : A) : M A := fun h => (h, Ok a).
Definition bind_M {A B} (m : M A) (f : A → M B) : M B := fun h =>
  match m h with
  | (h', Ok a) => f a h'
  | (h', Raise e) => (h', Raise e)
  end.
Definition lift {A} (r : result A) : M A := fun h => (h, r).

#[global] Instance M_ret : MRet M := @ret_M.
#[global] Instance M_bind : MBind M := fun _ _ f m => bind_M m f.

Definition deref (r : loc) : M layer := fun h => (h, index h r).
Definition store (r : loc) (l : layer) : M unit := fun h =>
  if decide (r < length h) then (<[r := l]> h, Ok tt) else (h, Raise IndexError).
Definition alloc (l : layer) : M loc := fun h => (h ++ [l], Ok (length h)).

Fixpoint for_each_M {X St : Type} (xs : list X) (body : X → St → M St)
    (st : St) : M St :=
  match xs with
  | [] => ret_M st
  | x :: xs' => bind_M (body x st) (fun st' => for_each_M xs' body st')
  end.

(** [copy.deepcopy] of a list of dictionaries: every distinct dictionary
    is copied once ([memo] maps originals to copies), so references that
    were equal stay equal. *)
Fixpoint memo_find (memo : list (loc * loc)) (r : loc) : option loc :=
  match memo with
  | [] => None
  | (r0, c) :: memo' => if decide (r0 = r) then Some c else memo_find memo' r
  end.

Fixpoint deepcopy_refs (memo : list (loc * loc)) (refs : list loc)
    : M (list loc) :=
  match refs with
  | [] => ret_M []
  | r :: refs' =>
      match memo_find memo r with
      | Some c =>
          bind_M (deepcopy_refs memo refs') (fun cs => ret_M (c :: cs))
      | None =>
          bind_M (deref r) (fun obj =>
          bind_M (alloc obj) (fun c =>
          bind_M (deepcopy_refs ((r, c) :: memo) refs') (fun cs =>
          ret_M (c :: cs))))
      end
  end.

Definition deepcopy (cand_data : list loc) : M (list loc) :=
  deepcopy_refs [] cand_data.

(** ** Top-k reranking *)

(** [np.arange (0, len (all_cand_blocked))[~all_cand_blocked]] *)
Fixpoint open_layers (t : nat) (all_cand_blocked : list bool) : list nat :=
  match all_cand_blocked with
  | [] => []
  | b :: bs => if b then open_layers (S t) bs else t :: open_layers (S t) bs
  end.

Definition _t_map (t : nat) (all_cand_blocked : list bool) : result nat :=
  index (open_layers 0 all_cand_blocked) t.

Definition with_is_blocked (l : layer) (blocked : list bool) : layer :=
  {| iokrscores := iokrscores l; wtx := wtx l; rt_cand_list := rt_cand_list l;
     is_true_identification := is_true_identification l;
     is_blocked := Some blocked |}.

(** [cand_data_c[t]["is_blocked"] = np.zeros (n_cand_t, dtype = "bool")] *)
Definition init_blocked (cand_data_c : list loc) (t : nat) (_ : unit) : M unit :=
  (r ← lift (index cand_data_c t);
   l ← deref r;
   let n_cand_t := length (iokrscores l) in
   store r (with_is_blocked l (replicate n_cand_t false))).

(** The list comprehension selecting the layers that are not exhausted. *)
Definition select_open (cand_data_c : list loc) (all_cand_blocked : list bool)
    (t : nat) (acc : list layer) : M (list layer) :=
  (b ← lift (index all_cand_blocked t);
   if b : bool then ret_M acc
   else
     r ← lift (index cand_data_c t);
     l ← deref r;
     ret_M (acc ++ [l])).

Record rerank_state : Type := mkState {
  num_correct : list nat;
  paths : list (list pyidx);
  lengths : list float;
  all_cand_blocked : list bool
}.

(** Body of [for t, cand in enumerate (path)]; the state is [num_correct]. *)
Definition block_cand (cand_data_c : list loc) (all_cand_blocked : list bool)
    (k : nat) (tc : nat * pyidx) (num_correct : list nat) : M (list nat) :=
  (let '(t, cand) := tc in
   tm ← lift (_t_map t all_cand_blocked);
   r ← lift (index cand_data_c tm);
   l ← deref r;
   truth ← lift (py_get (is_true_identification l) cand);
   n_k ← lift (index num_correct k);
   num_correct ← lift (assign num_correct k (n_k + (if truth : bool then 1 else 0)));
   tm ← lift (_t_map t all_cand_blocked);
   r ← lift (index cand_data_c tm);
   l ← deref r;
   blocked ← lift (match is_blocked l with
                   | Some blocked => Ok blocked
                   | None => Raise KeyError
                   end);
   blocked ← lift (py_set blocked cand true);
   store r (with_is_blocked l blocked);;
   ret_M num_correct).

(** [all_cand_blocked[t] = all (cand_data_c[t]["is_blocked"])] *)
Definition update_exhausted (cand_data_c : list loc) (t : nat)
    (all_cand_blocked : list bool) : M (list bool) :=
  (r ← lift (index cand_data_c t);
   l ← deref r;
   blocked ← lift (match is_blocked l with
                   | Some blocked => Ok blocked
                   | None => Raise KeyError
                   end);
   lift (assign all_cand_blocked t (forallb id blocked))).

(** One round of the loop over [k], after the exhaustion test. *)
Definition rerank_round (cand_data_c : list loc) (weight_function : weight_function)
    (cut_off_n_cand : cutoff) (kwargs : kwargs) (k : nat) (st : rerank_state)
    : M rerank_state :=
  (open ← for_each_M (range (length cand_data_c))
            (select_open cand_data_c (all_cand_blocked st)) [];
   '(path, length_) ← lift (shortest_path_exclude_candidates open
                              weight_function cut_off_n_cand true true kwargs);
   lift (assert (length path =? length (open_layers 0 (all_cand_blocked st))));;
   let num_correct := num_correct st ++ [0] in
   let paths := paths st ++ [path] in
   let lengths := lengths st ++ [length_] in
   num_correct ← for_each_M (imap pair path)
                   (block_cand cand_data_c (all_cand_blocked st) k) num_correct;
   all_cand_blocked ← for_each_M (range (length cand_data_c))
                        (update_exhausted cand_data_c) (all_cand_blocked st);
   ret_M {| num_correct := num_correct; paths := paths; lengths := lengths;
            all_cand_blocked := all_cand_blocked |}).

(** [for k in range (topk)] with its [break]. *)
Fixpoint rerank_loop (cand_data_c : list loc) (weight_function : weight_function)
    (cut_off_n_cand : cutoff) (kwargs : kwargs) (ks : list nat)
    (st : rerank_state) : M rerank_state :=
  match ks with
  | [] => ret_M st
  | k :: ks' =>
      if forallb id (all_cand_blocked st) then ret_M st
      else
        bind_M (rerank_round cand_data_c weight_function cut_off_n_cand kwargs k st)
          (rerank_loop cand_data_c weight_function cut_off_n_cand kwargs ks')
  end.

Fixpoint cumsum_from (acc : nat) (l : list nat) : list nat :=
  match l with
  | [] => []
  | x :: l' => (acc + x) :: cumsum_from (acc + x) l'
  end.

(** [np.cumsum (l)] *)
Definition np_cumsum (l : list nat) : list nat := cumsum_from 0 l.

Definition float_of_nat (n : nat) : float := Fin (inject_Z (Z.of_nat n)).

Definition perform_reranking_of_candidates (cand_data : list loc) (topk : nat)
    (cut_off_n_cand : cutoff) (weight_function : option weight_function)
    (kwargs : kwargs) : M (list float * list (list pyidx) * list float) :=
  (cand_data_c ← deepcopy cand_data;
   weight_function ← lift (match weight_function with
                           | Some f => Ok f
                           | None => Raise ValueError
                           end);
   for_each_M (range (length cand_data_c)) (init_blocked cand_data_c) tt;;
   let st := {| num_correct := []; paths := []; lengths := [];
                all_cand_blocked := replicate (length cand_data_c) false |} in
   st ← rerank_loop cand_data_c weight_function cut_off_n_cand kwargs
          (range topk) st;
   let topk_accs :=
     map (fun c => fmul (fdiv (float_of_nat c)
                              (float_of_nat (length cand_data_c))) (Fin 100))
         (np_cumsum (num_correct st)) in
   ret_M (topk_accs, paths st, lengths st)).


(** ** Building the candidate layers *)

(** A row of [msms_rts]: the identifier of a spectrum, the structure it
    belongs to, and its retention time. *)
Record msms_row : Type := mkRow {
  inchikey : string;
  inchi : string;
  rt : float
}.

(** [d_inchikey2inchi]: a dictionary from identifiers to structures. *)
Definition dict : Type := string → option string.

Definition dict_empty : dict := fun _ => None.

(** [d[k] = v] *)
Definition dict_set (d : dict) (k v : string) : dict :=
  fun k' => if String.eqb k' k then Some v else d k'.

(** [d[k]] *)
Definition dict_get (d : dict) (k : string) : result string :=
  match d k with
  | Some v => Ok v
  | None => Raise KeyError
  end.

(** The dictionary that [_process_single_candidate_list] returns. *)
Record candidate_list : Type := mkCandidateList {
  cl_iokrscores : list float;
  cl_ranks : list nat;
  cl_is_true_identification : list bool;
  cl_d_squared : list (list float);
  cl_wtx : list float;
  cl_inchis : list string;
  cl_rt_cand_list : float;
  cl_rank_correct_cand : nat;
  cl_inchi_correct_cand : string;
  cl_spec_id : string
}.

(** The keys of that dictionary that the solver and the reranking driver
    read. *)
Definition layer_of (cl : candidate_list) : layer :=
  {| iokrscores := cl_iokrscores cl; wtx := cl_wtx cl;
     rt_cand_list := cl_rt_cand_list cl;
     is_true_identification := cl_is_true_identification cl;
     is_blocked := None |}.

(** What the construction takes from outside this module.  The files of
    [input_dir_candidates] are read by pandas, and the kernel values and
    order scores are computed by scikit-learn and by the fitted
    [KernelRankSVC] model; each of these calls either returns or raises.

    - [read_msms_rts]: the content of [rts_msms.csv];
    - [sort_values_rt]: [DataFrame.sort_values ("rt")];
    - [load_candidate_scorings spec]: the rows [(id1, score)] that
      [_load_candidate_scorings] returns;
    - [load_candidate_fingerprints spec]: [_load_candidate_fingerprints],
      whose table is only handed on to the kernel;
    - [kernel_candcand inchi]: the kernel value of the correct candidate
      with itself;
    - [candidate_features id1 inchi]: for candidate [id1], the row
      [(K_ii + K_candcand - 2 * K_icand)[0]] and the order score
      [map_values (fps_cand_id1)[0]]. *)
Record environment : Type := mkEnvironment {
  read_msms_rts : result (list msms_row);
  sort_values_rt : list msms_row → list msms_row;
  load_candidate_scorings : string → result (list (string * float));
  load_candidate_fingerprints : string → result unit;
  kernel_candcand : string → result unit;
  candidate_features : string → string → result (list float * float)
}.

(** The local variables of the loop over the candidates. *)
Record loop_state : Type := mkLoopState {
  ls_iokrscores : list float;
  ls_ranks : list nat;
  ls_is_true_identification : list bool;
  ls_d_squared : list (list float);
  ls_wtx : list float;
  ls_id1s : list string;
  ls_rank : nat;
  ls_rank_correct_cand : nat;
  ls_last_score : float
}.

Definition loop_start : loop_state :=
  {| ls_iokrscores := []; ls_ranks := []; ls_is_true_identification := [];
     ls_d_squared := []; ls_wtx := []; ls_id1s := [];
     ls_rank := 0; ls_rank_correct_cand := 0; ls_last_score := PInf |}.

(** Body of [for id1, score in scores[["id1", "score"]].values]. *)
Definition process_candidate (env : environment) (inchi_correct_cand : string)
    (row : string * float) (st : loop_state) : result loop_state :=
  let '(id1, score) := row in
  let new_score := fgtb (ls_last_score st) score in
  let last_score := if new_score then score else ls_last_score st in
  let rank := if new_score then ls_rank st + 1 else ls_rank st in
  '(d_squared_i, wtx_i) ← candidate_features env id1 inchi_correct_cand;
  let is_true := String.eqb inchi_correct_cand id1 in
  Ok {| ls_iokrscores := ls_iokrscores st ++ [score];
        ls_ranks := ls_ranks st ++ [rank];
        ls_is_true_identification := ls_is_true_identification st ++ [is_true];
        ls_d_squared := ls_d_squared st ++ [d_squared_i];
        ls_wtx := ls_wtx st ++ [wtx_i];
        ls_id1s := ls_id1s st ++ [id1];
        ls_rank := rank;
        ls_rank_correct_cand :=
          if is_true then rank else ls_rank_correct_cand st;
        ls_last_score := last_score |}.

Definition _process_single_candidate_list (env : environment) (spec : string)
    (scores : list (string * float)) (msms_rts : list msms_row)
    (d_inchikey2inchi : dict) : result candidate_list :=
  let rt_cand_list :=
    map rt (List.filter (fun r => String.eqb (inchikey r) spec) msms_rts) in
  assert (length rt_cand_list =? 1);;
  rt_cand_list ← index rt_cand_list 0;
  inchi_correct_cand ← dict_get d_inchikey2inchi spec;
  assert (length (List.filter
                    (fun row => String.eqb (fst row) inchi_correct_cand)
                    scores) =? 1);;
  kernel_candcand env inchi_correct_cand;;
  st ← for_each scores (process_candidate env inchi_correct_cand) loop_start;
  assert (0 <? ls_rank_correct_cand st);;
  Ok {| cl_iokrscores := ls_iokrscores st;
        cl_ranks := ls_ranks st;
        cl_is_true_identification := ls_is_true_identification st;
        cl_d_squared := ls_d_squared st;
        cl_wtx := ls_wtx st;
        cl_inchis := ls_id1s st;
        cl_rt_cand_list := rt_cand_list;
        cl_rank_correct_cand := ls_rank_correct_cand st;
        cl_inchi_correct_cand := inchi_correct_cand;
        cl_spec_id := spec |}.

Definition _candidate_iokrscores_and_rankingscores (env : environment)
    (spec : string) (msms_rts : list msms_row) (d_inchikey2inchi : dict)
    : result candidate_list :=
  scores ← load_candidate_scorings env spec;
  load_candidate_fingerprints env spec;;
  _process_single_candidate_list env spec scores msms_rts d_inchikey2inchi.

(** [{inchikey: inchi for inchikey, inchi in ...}]: a later row replaces
    an earlier one with the same key. *)
Definition dict_of_rows (rows : list msms_row) : dict :=
  fold_left (fun d r => dict_set d (inchikey r) (inchi r)) rows dict_empty.

Definition build_candidate_structure (env : environment)
    : result (list candidate_list) :=
  msms_rts ← read_msms_rts env;
  let msms_rts := sort_values_rt env msms_rts in
  let d_inchikey2inchi := dict_of_rows msms_rts in
  for_each (map inchikey msms_rts)
    (fun spec_id l_data =>
       cl ← _candidate_iokrscores_and_rankingscores env spec_id msms_rts
              d_inchikey2inchi;
       Ok (l_data ++ [cl]))
    [].
(** * Specification-side definitions *)

(** Equality of floats up to the representation of rationals. *)
Definition feq (a b : float) : Prop :=
  match a, b with
  | Fin x, Fin y => (x == y)%Q
  | NaN, NaN | NInf, NInf | PInf, PInf => True
  | _, _ => False
  end.


(** Sign of a rational, as a rational. *)
Definition Qsign (q : Q) : Q :=
  match (0 ?= q)%Q with
  | Lt => 1
  | Eq => 0
  | Gt => -1
  end%Q.

(** ** Scenarios *)

(** The two-layer scenario of the specification. *)
Definition scenario_kwargs : kwargs :=
  {| kw_D := Some (Fin 1); kw_use_sign := Some false;
     kw_epsilon_rt := Some (Fin (1 # 10)); kw_use_log := Some false;
     kw_dW_path := None |}.

Definition scenario_layer_0 : layer :=
  {| iokrscores := [Fin (9 # 10); Fin (5 # 10)];
     wtx := [Fin 2; Fin 1];
     rt_cand_list := Fin 1;
     is_true_identification := [true; false];
     is_blocked := None |}.

Definition scenario_layer_1 : layer :=
  {| iokrscores := [Fin (8 # 10); Fin (6 # 10)];
     wtx := [Fin (15 # 10); Fin (9 # 10)];
     rt_cand_list := Fin 5;
     is_true_identification := [true; false];
     is_blocked := None |}.

Definition scenario : list layer := [scenario_layer_0; scenario_layer_1].

(** A stand-in for the logarithm where a closed term is needed: the
    tangent of [ln] at [1]. *)
Definition ln_tangent (q : Q) : Q := (q - 1)%Q.

(** Layer 0 of the scenario with its best candidate blocked. *)
Definition top_blocked_layer : layer :=
  with_is_blocked scenario_layer_0 [true; false].

(** Layer 0 of the scenario without a true candidate, and layer 1 with
    two of them. *)
Definition mislabelled : list layer :=
  [ {| iokrscores := iokrscores scenario_layer_0; wtx := wtx scenario_layer_0;
       rt_cand_list := rt_cand_list scenario_layer_0;
       is_true_identification := [false; false];
       is_blocked := Some [false; false] |};
    {| iokrscores := iokrscores scenario_layer_1; wtx := wtx scenario_layer_1;
       rt_cand_list := rt_cand_list scenario_layer_1;
       is_true_identification := [true; true];
       is_blocked := Some [false; false] |} ].

(** Number of true candidates of a layer. *)
Definition count_true (l : layer) : nat :=
  length (filter (λ b, b = true) (is_true_identification l)).

(** ** Validation *)

(** Two layers that differ at most in their truth labels. *)
Definition same_but_truth (l l' : layer) : Prop :=
  iokrscores l = iokrscores l' ∧ wtx l = wtx l'
  ∧ rt_cand_list l = rt_cand_list l' ∧ is_blocked l = is_blocked l'.

Definition erase_truth (l : layer) : layer :=
  {| iokrscores := iokrscores l; wtx := wtx l;
     rt_cand_list := rt_cand_list l; is_true_identification := [];
     is_blocked := is_blocked l |}.

(** What a layer must satisfy for the [check_input] loop. *)
Definition layer_checked (exclude_blocked_candidates : bool) (l : layer) : Prop :=
  is_sorted (iokrscores l) false = true
  ∧ (exclude_blocked_candidates = true →
     ∃ blocked, is_blocked l = Some blocked
                ∧ length blocked = length (iokrscores l)).

(** Retention times that do not decrease, starting above [rt]. *)
Fixpoint rt_non_decreasing (rt : float) (cand_data : list layer) : Prop :=
  match cand_data with
  | [] => True
  | l :: cand_data' =>
      fgeb (rt_cand_list l) rt = true
      ∧ rt_non_decreasing (rt_cand_list l) cand_data'
  end.

Definition passes_validation (cand_data : list layer)
    (exclude_blocked_candidates : bool) : Prop :=
  Forall (layer_checked exclude_blocked_candidates) cand_data
  ∧ rt_non_decreasing NInf cand_data.

(** The same conditions as a boolean. *)
Definition layer_check_b (exclude_blocked_candidates : bool) (rt : float)
    (l : layer) : bool :=
  is_sorted (iokrscores l) false
  && fgeb (rt_cand_list l) rt
  && (if exclude_blocked_candidates then
        match is_blocked l with
        | Some blocked => length blocked =? length (iokrscores l)
        | None => false
        end
      else true).

Fixpoint validation_b (exclude_blocked_candidates : bool) (rt : float)
    (cand_data : list layer) : bool :=
  match cand_data with
  | [] => true
  | l :: cand_data' =>
      layer_check_b exclude_blocked_candidates rt l
      && validation_b exclude_blocked_candidates (rt_cand_list l) cand_data'
  end.

(** ** Reasoning about the heap *)

(** A computation leaves the first [n] objects of the heap as they are. *)
Definition frame {A} (n : nat) (m : M A) : Prop :=
  ∀ h, n ≤ length h → n ≤ length (m h).1 ∧ take n (m h).1 = take n h.

(** Two heaps that differ by a block [junk] of objects placed at
    position [n], and the induced renaming of references. *)
Definition heap_rel (n : nat) (junk : heap) (hA hB : heap) : Prop :=
  n ≤ length hA ∧ hB = take n hA ++ junk ++ drop n hA.

Definition reloc (n : nat) (junk : heap) (r : loc) : loc :=
  if decide (r < n) then r else r + length junk.

Definition result_rel {A} (R : A → A → Prop) (rA rB : result A) : Prop :=
  match rA, rB with
  | Ok a, Ok b => R a b
  | Raise e, Raise e' => e = e'
  | _, _ => False
  end.

(** Two computations that behave alike on related heaps. *)
Definition sim {A} (n : nat) (junk : heap) (R : A → A → Prop)
    (mA mB : M A) : Prop :=
  ∀ hA hB, heap_rel n junk hA hB →
    heap_rel n junk (mA hA).1 (mB hB).1 ∧ result_rel R (mA hA).2 (mB hB).2.

(** ** The dynamic program as a function on rows *)

(** One entry of the three tables: accumulated cost, accumulated order
    difference, and parent. *)
Abbreviation cell := (float * float * pyidx)%type (only parsing).

Definition cS (c : cell) : float := c.1.1.
Definition cD (c : cell) : float := c.1.2.
Definition cP (c : cell) : pyidx := c.2.

(** The three tables whose rows are the given rows of cells. *)
Definition tables_of (rows : list (list cell)) : tables :=
  {| S_path := map (map cS) rows;
     dW_path := map (map cD) rows;
     parents := map (map cP) rows |}.

Definition init_row (l_0 : layer) : list cell :=
  map (λ score, (fneg score, Fin 0, Idx (-1))) (iokrscores l_0).

Definition fresh_row (n_cand_tp1 : nat) : list cell :=
  replicate n_cand_tp1 (PInf, NInf, NanIdx).

(** Relaxing one edge: head [i] with cost [s_t_i] and order difference
    [dW_t_i], edge weight [w] and order difference [dw]. *)
Definition relax_cell (i : nat) (s_t_i dW_t_i w dw : float) (c : cell) : cell :=
  if fgtb (cS c) (fadd s_t_i w) then (fadd s_t_i w, fadd dW_t_i dw, nat_idx i)
  else c.

(** All edges leaving head [i] ([p] is its cell), and all heads in turn.
    [W i j] and [dWv i j] are the weight and order difference of the edge
    from [i] to [j]; [B_t] and [B_tp1] tell which candidates are skipped. *)
Definition relax_row (W dWv : nat → nat → float) (B_tp1 : nat → bool)
    (i : nat) (p : cell) (row : list cell) : list cell :=
  imap (λ j c, if B_tp1 j then c
               else relax_cell i (cS p) (cD p) (W i j) (dWv i j) c) row.

Definition row_step (W dWv : nat → nat → float) (B_t B_tp1 : nat → bool)
    (prev : list cell) (row : list cell) (i : nat) : list cell :=
  if B_t i then row
  else match prev !! i with
       | Some p => relax_row W dWv B_tp1 i p row
       | None => row
       end.

Definition next_row (W dWv : nat → nat → float) (B_t B_tp1 : nat → bool)
    (prev : list cell) (n_cand_t n_cand_tp1 : nat) : list cell :=
  foldl (row_step W dWv B_t B_tp1 prev) (fresh_row n_cand_tp1) (range n_cand_t).

Fixpoint dp_row (W dWv : nat → nat → nat → float) (B : nat → nat → bool)
    (N : nat → nat) (row_0 : list cell) (t : nat) : list cell :=
  match t with
  | 0 => row_0
  | S t' =>
      next_row (W t') (dWv t') (B t') (B t)
        (dp_row W dWv B N row_0 t') (N t') (N t)
  end.

(** Number of retained candidates of layer [t]. *)
Definition n_cand_at (cand_data : list layer) (cut_off_n_cand : cutoff)
    (t : nat) : nat :=
  match cand_data !! t with
  | Some l => n_cand l cut_off_n_cand
  | None => 0
  end.

(** The rows computed for the layers [0 .. t]. *)
Definition dp_rows (W dWv : nat → nat → nat → float) (B : nat → nat → bool)
    (N : nat → nat) (row_0 : list cell) (n_layer : nat) : list (list cell) :=
  map (dp_row W dWv B N row_0) (range n_layer).

(** The effect of the loop over the heads on the single entry [j]. *)
Definition cell_step (W dWv : nat → nat → float) (B_t B_tp1 : nat → bool)
    (prev : list cell) (j : nat) (c : cell) (i : nat) : cell :=
  if B_t i then c
  else match prev !! i with
       | Some p =>
           if B_tp1 j then c
           else relax_cell i (cS p) (cD p) (W i j) (dWv i j) c
       | None => c
       end.

(** The parent of entry [j] of a row, when it is a candidate index. *)
Definition parent_of (row : list cell) (j : nat) : nat :=
  match cP <$> row !! j with
  | Some (Idx z) => Z.to_nat z
  | _ => 0
  end.

(** The path that ends in candidate [j] of layer [t], read off the
    parents. *)
Fixpoint path_to (rows : nat → list cell) (t : nat) (j : nat) : list nat :=
  match t with
  | 0 => [j]
  | S t' => path_to rows t' (parent_of (rows t) j) ++ [j]
  end.

(** A cost is either a rational or [+inf]. *)
Definition good (v : float) : Prop := v = PInf ∨ is_fin v.

(** Cost of reaching an entry through head [i]. *)
Definition cell_val (w : nat → Q) (prev : list cell) (i : nat) : float :=
  match prev !! i with
  | Some p => fadd (cS p) (Fin (w i))
  | None => PInf
  end.

(** What the loop over the heads [0 .. n-1] leaves in an entry: nothing,
    when no head reaches it at a finite cost; otherwise the least cost,
    with the first head that attains it as parent. *)
Definition first_minimum (w : nat → Q) (B_t : nat → bool) (prev : list cell)
    (n : nat) (c : cell) : Prop :=
  (cS c = PInf ∧ cP c = NanIdx
   ∧ ∀ i, i < n → B_t i = false → cell_val w prev i = PInf)
  ∨ (∃ q i_0,
       cS c = Fin q ∧ cP c = nat_idx i_0 ∧ i_0 < n ∧ i_0 < length prev
       ∧ B_t i_0 = false ∧ cell_val w prev i_0 = Fin q
       ∧ (∀ i, i < n → B_t i = false → fleb (Fin q) (cell_val w prev i) = true)
       ∧ (∀ i, i < i_0 → B_t i = false →
               fltb (Fin q) (cell_val w prev i) = true)).

(** Entry [j] of a row holds a finite cost. *)
Definition finite_at (row : list cell) (j : nat) : Prop :=
  ∃ c q, row !! j = Some c ∧ cS c = Fin q.

(** ** The dynamic program with [_weight_func_max] *)

Definition is_finb (v : float) : bool :=
  match v with
  | Fin _ => true
  | _ => false
  end.

Definition qval (v : float) : Q :=
  match v with
  | Fin q => q
  | _ => 0%Q
  end.

(** Weight and order difference of the edge from [(t, i)] to
    [(t + 1, j)], as [_weight_func_max] returns them. *)
Definition edge (ln : Q → Q) (cand_data : list layer) (kw : kwargs)
    (t i j : nat) : float * float :=
  match _weight_func_max ln cand_data (t, i) (t + 1, j) kw with
  | Ok r => r
  | Raise _ => (NaN, NaN)
  end.

Definition edge_weight (ln : Q → Q) (cand_data : list layer) (kw : kwargs)
    (t i j : nat) : Q :=
  qval (edge ln cand_data kw t i j).1.

Definition edge_delta (ln : Q → Q) (cand_data : list layer) (kw : kwargs)
    (t i j : nat) : float :=
  (edge ln cand_data kw t i j).2.

(** Candidate [i] of layer [t] is skipped by the loops. *)
Definition skipped (exclude_blocked_candidates : bool)
    (cand_data : list layer) (t i : nat) : bool :=
  match skip_blocked exclude_blocked_candidates cand_data t i with
  | Ok b => b
  | Raise _ => false
  end.

(** Layers as the loader builds them: at least one candidate, finite
    scores, order values and retention time, one order value per
    candidate, and one blocked flag per candidate when blocked candidates
    are excluded. *)
Definition layer_wf (exclude_blocked_candidates : bool) (l : layer) : bool :=
  (0 <? length (iokrscores l))
  && forallb is_finb (iokrscores l)
  && forallb is_finb (wtx l)
  && (length (wtx l) =? length (iokrscores l))
  && is_finb (rt_cand_list l)
  && (if exclude_blocked_candidates then
        match is_blocked l with
        | Some blocked => length blocked =? length (iokrscores l)
        | None => false
        end
      else true).

Definition kwargs_wf (kw : kwargs) : bool :=
  match kw_D kw, kw_use_sign kw, kw_epsilon_rt kw, kw_use_log kw with
  | Some (Fin _), Some _, Some _, Some _ => true
  | _, _, _, _ => false
  end.

Definition cutoff_wf (cut_off_n_cand : cutoff) : bool :=
  match cut_off_n_cand with
  | Unbounded => true
  | AtMost n => 0 <? n
  end.

Definition well_formed (cand_data : list layer) (cut_off_n_cand : cutoff)
    (exclude_blocked_candidates : bool) (kw : kwargs) : bool :=
  (0 <? length cand_data)
  && forallb (layer_wf exclude_blocked_candidates) cand_data
  && cutoff_wf cut_off_n_cand
  && kwargs_wf kw.

(** The rows of the dynamic program for [_weight_func_max]. *)
Definition wfm_rows (ln : Q → Q) (cand_data : list layer)
    (cut_off_n_cand : cutoff) (exclude_blocked_candidates : bool)
    (kw : kwargs) (t : nat) : list cell :=
  dp_row (λ t i j, Fin (edge_weight ln cand_data kw t i j))
    (edge_delta ln cand_data kw)
    (skipped exclude_blocked_candidates cand_data)
    (n_cand_at cand_data cut_off_n_cand)
    (match cand_data with
     | l_0 :: _ => init_row l_0
     | [] => []
     end) t.

(** [v] is the least element of [l] and [a] is the first position that
    holds it. *)
Definition first_min (l : list float) (a : nat) (v : float) : Prop :=
  l !! a = Some v
  ∧ (∀ k v', l !! k = Some v' → fleb v v' = true)
  ∧ (∀ k v', k < a → l !! k = Some v' → fltb v v' = true).

(** ** The greedy path *)

(** [np.argmax]: index of the first maximum; a NaN counts as maximal. *)
Fixpoint argmax_from (best : nat) (vbest : float) (i : nat) (l : list float)
    : nat :=
  match l with
  | [] => best
  | v :: l' =>
      match vbest, v with
      | NaN, _ => best
      | _, NaN => i
      | _, _ =>
          if fltb vbest v then argmax_from i v (S i) l'
          else argmax_from best vbest (S i) l'
      end
  end.

Definition argmax (l : list float) : nat :=
  match l with
  | [] => 0
  | v :: l' => argmax_from 0 v 1 l'
  end.

(** The candidate of best score in every layer, each layer on its own. *)
Definition greedy_path (cand_data : list layer) : list pyidx :=
  map (λ l, nat_idx (argmax (iokrscores l))) cand_data.

(** ** Paths through the layers and their costs *)

(** Cost of extending a path that ends in candidate [i] of layer [t] at
    cost [acc] by the candidates [p] of the next layers, for the edge
    weights [W]. *)
Fixpoint walk (W : nat → nat → nat → float) (t i : nat) (acc : float)
    (p : list nat) : float :=
  match p with
  | [] => acc
  | j :: p' => walk W (S t) j (fadd acc (W t i j)) p'
  end.

(** Cost of a path that starts in layer 0, where candidate [i] costs
    [start i]. *)
Definition walk_path (W : nat → nat → nat → float) (start : nat → float)
    (p : list nat) : float :=
  match p with
  | [] => NaN
  | i :: p' => walk W 0 i (start i) p'
  end.

(** Cost of the first node of a path: minus the score of the candidate. *)
Definition start_cost (cand_data : list layer) (i : nat) : float :=
  match cand_data !! 0 ≫= (λ l_0, iokrscores l_0 !! i) with
  | Some s => fneg s
  | None => NaN
  end.

(** Cost of a path under [_weight_func_max]: minus the score of its first
    candidate plus the weights of its edges. *)
Definition path_cost (ln : Q → Q) (cand_data : list layer) (kw : kwargs)
    (p : list nat) : float :=
  walk_path (λ t i j, (edge ln cand_data kw t i j).1) (start_cost cand_data) p.

(** A path that the loops can take: one candidate per layer, each among
    the retained candidates of its layer and not skipped. *)
Definition eligible (cand_data : list layer) (cut_off_n_cand : cutoff)
    (exclude_blocked_candidates : bool) (p : list nat) : Prop :=
  length p = length cand_data
  ∧ ∀ t i, p !! t = Some i →
      i < n_cand_at cand_data cut_off_n_cand t
      ∧ skipped exclude_blocked_candidates cand_data t i = false.

(** The retention times of all consecutive layers are within
    [epsilon_rt] of each other. *)
Fixpoint gaps_within (epsilon_rt : float) (cand_data : list layer) : bool :=
  match cand_data with
  | l :: cand_data' =>
      match cand_data' with
      | l' :: _ =>
          fleb (np_abs (fsub (rt_cand_list l) (rt_cand_list l'))) epsilon_rt
          && gaps_within epsilon_rt cand_data'
      | [] => true
      end
  | [] => true
  end.

(** The scores of every layer are in descending order. *)
Definition scores_sorted (cand_data : list layer) : bool :=
  forallb (λ l, is_sorted (iokrscores l) false) cand_data.

(** The weight of every edge is minus the score of its tail, up to a
    constant per pair of layers: the order values play no role. *)
Definition flat_weights (ln : Q → Q) (cand_data : list layer)
    (cut_off_n_cand : cutoff) (kw : kwargs) : Prop :=
  ∀ t l_tp1, cand_data !! (t + 1) = Some l_tp1 →
    ∃ κ, ∀ i j σ, i < n_cand_at cand_data cut_off_n_cand t →
      iokrscores l_tp1 !! j = Some (Fin σ) →
      (edge_weight ln cand_data kw t i j == - σ + κ)%Q.

(** ** Further scenarios *)

(** The scenario with every candidate of its second layer blocked. *)
Definition last_layer_blocked : list layer :=
  [with_is_blocked scenario_layer_0 [false; false];
   with_is_blocked scenario_layer_1 [true; true]].

(** The configuration of the scenario without order information. *)
Definition no_order_kwargs : kwargs :=
  {| kw_D := Some (Fin 1); kw_use_sign := Some false;
     kw_epsilon_rt := Some PInf; kw_use_log := Some true;
     kw_dW_path := None |}.

(** The configuration of the scenario without a penalty. *)
Definition no_penalty_kwargs : kwargs :=
  {| kw_D := Some (Fin 0); kw_use_sign := Some true;
     kw_epsilon_rt := Some (Fin (1 # 10)); kw_use_log := Some false;
     kw_dW_path := None |}.

(** ** Breaking ties *)

(** Lexicographic order on lists of candidates. *)
Fixpoint lex_le (p p' : list nat) : Prop :=
  match p, p' with
  | [], _ => True
  | _ :: _, [] => False
  | x :: r, y :: r' => x < y ∨ (x = y ∧ lex_le r r')
  end.

(** The order in which the solver breaks ties: the candidates of the
    last layer are compared first, then those of the layer before, and
    so on. *)
Definition revlex_le (p p' : list nat) : Prop := lex_le (rev p) (rev p').

(** Two layers in which both candidates have the same score. *)
Definition tied_scenario : list layer :=
  [ {| iokrscores := [Fin (9 # 10); Fin (9 # 10)]; wtx := [Fin 2; Fin 1];
       rt_cand_list := Fin 1; is_true_identification := [true; false];
       is_blocked := None |};
    {| iokrscores := [Fin (8 # 10); Fin (8 # 10)]; wtx := [Fin 2; Fin 1];
       rt_cand_list := Fin 5; is_true_identification := [true; false];
       is_blocked := None |} ].

(** ** Ranks of the candidates of a layer *)

(** Dense ranks of a descending list of scores: an element has the rank
    of its predecessor, plus one when its score is strictly smaller;
    [prev] and [rank] are the score and the rank of the predecessor. *)
Fixpoint dense_ranks (prev : float) (rank : nat) (l : list float) : list nat :=
  match l with
  | [] => []
  | s :: l' =>
      let r := if fltb s prev then S rank else rank in
      r :: dense_ranks s r l'
  end.

(** ** A small candidate structure *)

Definition demo_rows : list msms_row :=
  [ {| inchikey := "KEY-A"; inchi := "InChI=A"; rt := Fin 1 |};
    {| inchikey := "KEY-B"; inchi := "InChI=B"; rt := Fin 5 |} ].

Definition demo_scores_A : list (string * float) :=
  [ ("InChI=A"%string, Fin (9 # 10)); ("InChI=X"%string, Fin (5 # 10)) ].

Definition demo_scores_B : list (string * float) :=
  [ ("InChI=Y"%string, Fin (8 # 10)); ("InChI=Z"%string, Fin (8 # 10));
    ("InChI=B"%string, Fin (6 # 10)) ].

Definition demo_env : environment :=
  {| read_msms_rts := Ok demo_rows;
     sort_values_rt := fun rows => rows;
     load_candidate_scorings := fun spec =>
       if String.eqb spec "KEY-A" then Ok demo_scores_A
       else if String.eqb spec "KEY-B" then Ok demo_scores_B
       else Raise AssertionError;
     load_candidate_fingerprints := fun _ => Ok tt;
     kernel_candcand := fun _ => Ok tt;
     candidate_features := fun id1 _ =>
       Ok ([Fin 0], Fin (inject_Z (Z.of_nat (String.length id1)))) |}.

(** The structure with the spectrum [KEY-A] listed twice. *)
Definition duplicate_env : environment :=
  {| read_msms_rts := Ok (demo_rows ++ demo_rows);
     sort_values_rt := sort_values_rt demo_env;
     load_candidate_scorings := load_candidate_scorings demo_env;
     load_candidate_fingerprints := load_candidate_fingerprints demo_env;
     kernel_candcand := kernel_candcand demo_env;
     candidate_features := candidate_features demo_env |}.

(** The retention times of the rows do not decrease, starting above
    [prev]. *)
Fixpoint rts_sorted (prev : float) (rows : list msms_row) : bool :=
  match rows with
  | [] => true
  | r :: rows' => fgeb (rt r) prev && rts_sorted (rt r) rows'
  end.

(** A layer as the reranking driver prepares it: with a blocked vector
    in which no candidate is blocked. *)
Definition unblocked (l : layer) : layer :=
  with_is_blocked l (replicate (length (iokrscores l)) false).

(** The number of layers in which a path goes through the candidate that
    is labelled as the true identification; [t] is the layer of the
    first node of [path]. *)
Fixpoint hits_from (t : nat) (cand_data : list layer) (path : list pyidx)
    : nat :=
  match path with
  | [] => 0
  | cand :: path' =>
      match l ← index cand_data t; py_get (is_true_identification l) cand with
      | Ok true => 1
      | _ => 0
      end + hits_from (S t) cand_data path'
  end.

Definition hits (cand_data : list layer) (path : list pyidx) : nat :=
  hits_from 0 cand_data path.

(** The accuracy, in percent, of [c] correct layers out of [n]. *)
Definition accuracy (c n : nat) : float :=
  fmul (fdiv (float_of_nat c) (float_of_nat n)) (Fin 100).
(** * Properties *)

(** ** Floats *)

Lemma Qltb_lt (a b : Q) : Qltb a b = true ↔ (a < b)%Q.
Proof.
  unfold Qltb. rewrite negb_true_iff, <- not_true_iff_false, Qle_bool_iff.
  split; [apply Qnot_le_lt | apply Qlt_not_le].
Qed.

Lemma Qltb_ge (a b : Q) : Qltb a b = false ↔ (b <= a)%Q.
Proof.
  unfold Qltb. rewrite negb_false_iff. apply Qle_bool_iff.
Qed.

Lemma fltb_Fin (a b : Q) : fltb (Fin a) (Fin b) = true ↔ (a < b)%Q.
Proof. apply Qltb_lt. Qed.

Lemma fleb_Fin (a b : Q) : fleb (Fin a) (Fin b) = true ↔ (a <= b)%Q.
Proof. apply Qle_bool_iff. Qed.

Lemma fgtb_PInf_Fin (q : Q) : fgtb PInf (Fin q) = true.
Proof. reflexivity. Qed.

(** ** Loops *)

Lemma for_each_ext {X St} (xs : list X) (f g : X → St → result St) st :
  (∀ x st, x ∈ xs → f x st = g x st) →
  for_each xs f st = for_each xs g st.
Proof.
  revert st. induction xs as [|x xs IH]; intros st Hfg; [done|].
  simpl. rewrite Hfg by left.
  destruct (g x st) as [st'|e]; simpl; [|done].
  apply IH. intros y st'' Hy. apply Hfg. by right.
Qed.

Lemma for_each_app {X St} (xs ys : list X) (f : X → St → result St) st :
  for_each (xs ++ ys) f st = st' ← for_each xs f st; for_each ys f st'.
Proof.
  revert st. induction xs as [|x xs IH]; intros st; [done|].
  simpl. destruct (f x st) as [st'|e]; simpl; [apply IH|done].
Qed.

Lemma range_S (n : nat) : range (S n) = range n ++ [n].
Proof. unfold range. by rewrite seq_S. Qed.

Lemma elem_of_range (n i : nat) : i ∈ range n ↔ i < n.
Proof. unfold range. rewrite elem_of_seq. lia. Qed.

Lemma index_Ok {A} (l : list A) i x : index l i = Ok x ↔ l !! i = Some x.
Proof. unfold index. destruct (l !! i); naive_solver. Qed.

Lemma index_fmap {A B} (f : A → B) (l : list A) i :
  index (f <$> l) i = match index l i with Ok x => Ok (f x) | Raise e => Raise e end.
Proof. unfold index. rewrite list_lookup_fmap. by destruct (l !! i). Qed.

Lemma fleb_trans (a b c : float) :
  fleb a b = true → fleb b c = true → fleb a c = true.
Proof.
  destruct a, b, c; simpl; try done.
  rewrite !Qle_bool_iff. apply Qle_trans.
Qed.

Lemma fleb_not_fltb (a b : float) : fleb a b = true → fltb b a = false.
Proof.
  destruct a, b; simpl; try done.
  rewrite Qle_bool_iff, Qltb_ge. done.
Qed.

Lemma fltb_fneg (a b : float) : fltb (fneg a) (fneg b) = fltb b a.
Proof.
  destruct a, b; simpl; try done.
  destruct (Qltb q0 q) eqn:E.
  - apply Qltb_lt. apply Qltb_lt in E. lra.
  - apply Qltb_ge. apply Qltb_ge in E. lra.
Qed.

Lemma fleb_not_NaN (a b : float) : fleb a b = true → a ≠ NaN ∧ b ≠ NaN.
Proof. destruct a, b; simpl; done. Qed.

Lemma fneg_NaN (a : float) : fneg a = NaN → a = NaN.
Proof. by destruct a. Qed.

(** ** [np.argmin] *)

Lemma argmin_from_keep best vbest i l :
  (∀ v, v ∈ l → v ≠ NaN ∧ fltb v vbest = false) →
  argmin_from best vbest i l = best.
Proof.
  revert i. induction l as [|v l IH]; intros i Hl; [done|].
  simpl. destruct (Hl v) as [Hnan Hlt]; [by left|].
  rewrite Hlt.
  destruct vbest; try done; destruct v; try done;
    apply IH; intros w Hw; apply Hl; by right.
Qed.

(** In a descending list every element is at most the first. *)
Lemma is_sorted_desc_head x l :
  is_sorted (x :: l) false = true → ∀ v, v ∈ l → fleb v x = true.
Proof.
  revert x. induction l as [|y l IH]; intros x Hs v Hv.
  - by apply elem_of_nil in Hv.
  - simpl in Hs. apply andb_true_iff in Hs as [Hxy Hs].
    apply elem_of_cons in Hv as [->|Hv]; [done|].
    eapply fleb_trans; [|exact Hxy]. by apply IH.
Qed.

Lemma np_argmin_neg_sorted x l :
  is_sorted (x :: l) false = true →
  np_argmin (map fneg (x :: l)) = Ok 0.
Proof.
  intros Hs. simpl. f_equal. apply argmin_from_keep.
  intros v Hv. apply list_elem_of_fmap in Hv as (w & -> & Hw).
  pose proof (is_sorted_desc_head _ _ Hs w Hw) as Hle.
  split.
  - intros Hn. apply fneg_NaN in Hn. by apply fleb_not_NaN in Hle as [? _].
  - rewrite fltb_fneg. by apply fleb_not_fltb.
Qed.

(** Two computations that start with the same step. *)
Ltac bind_both :=
  lazymatch goal with
  | |- mbind _ ?m = mbind _ ?m =>
      destruct m; [cbn [mbind result_bind] | reflexivity]
  | |- (if ?b then _ else _) = (if ?b then _ else _) =>
      destruct b
  end.

(** ** Costs: rationals and [+inf] *)

Lemma good_Fin (q : Q) : good (Fin q).
Proof. right. by exists q. Qed.

Lemma good_PInf : good PInf.
Proof. by left. Qed.

Lemma good_cases (v : float) : good v → v = PInf ∨ ∃ q, v = Fin q.
Proof. done. Qed.

Lemma good_fadd_Fin (v : float) (q : Q) : good v → good (fadd v (Fin q)).
Proof. intros [->|[q' ->]]; simpl; [apply good_PInf|apply good_Fin]. Qed.

Lemma fleb_refl_good (v : float) : good v → fleb v v = true.
Proof.
  intros [->|[q ->]]; simpl; [done|]. apply Qle_bool_iff, Qle_refl.
Qed.

Lemma fltb_fleb (a b : float) : fltb a b = true → fleb a b = true.
Proof.
  destruct a, b; simpl; try done.
  rewrite Qltb_lt, Qle_bool_iff. apply Qlt_le_weak.
Qed.

Lemma fltb_fleb_trans (a b c : float) :
  fltb a b = true → fleb b c = true → fltb a c = true.
Proof.
  destruct a, b, c; simpl; try done.
  rewrite !Qltb_lt, Qle_bool_iff. apply Qlt_le_trans.
Qed.

Lemma not_fltb_fleb (a b : float) :
  good a → good b → fltb a b = false → fleb b a = true.
Proof.
  intros [->|[x ->]] [->|[y ->]]; simpl; try done.
  rewrite Qltb_ge, Qle_bool_iff. done.
Qed.

Lemma fltb_Fin_PInf (v : float) : good v → fltb v PInf = true ↔ is_fin v.
Proof.
  intros [->|[x ->]]; simpl.
  - split; [done|]. by intros [q ?].
  - split; [|done]. intros _. by exists x.
Qed.

(** [np.argmin] returns the first position of the least cost. *)
Lemma argmin_from_spec (l : list float) (best : nat) (vbest : float) (i : nat) :
  good vbest → Forall good l →
  (argmin_from best vbest i l = best
   ∧ ∀ k v, l !! k = Some v → fleb vbest v = true)
  ∨ (∃ k vr,
       argmin_from best vbest i l = i + k ∧ l !! k = Some vr
       ∧ fltb vr vbest = true
       ∧ (∀ k' v, l !! k' = Some v → fleb vr v = true)
       ∧ (∀ k' v, k' < k → l !! k' = Some v → fltb vr v = true)).
Proof.
  intros Hvbest Hl. revert best vbest i Hvbest.
  induction Hl as [|v l Hv Hl IH]; intros best vbest i Hvbest.
  { left. split; [done|]. intros k v. by rewrite lookup_nil. }
  assert (argmin_from best vbest i (v :: l)
          = if fltb v vbest then argmin_from i v (S i) l
            else argmin_from best vbest (S i) l) as ->.
  { destruct Hvbest as [->|[x ->]], Hv as [->|[y ->]]; reflexivity. }
  destruct (fltb v vbest) eqn:Hcmp.
  - right. destruct (IH i v (S i) Hv) as [[Hr Hall]|(k & vr & Hr & Hk & Hlt & Hall & Hbefore)].
    + exists 0, v. rewrite Hr. split_and!; [lia|done|done| |].
      * intros [|k'] v'; cbn [lookup list_lookup].
        -- intros [= <-]. by apply fleb_refl_good.
        -- apply Hall.
      * intros k' v' Hk'. lia.
    + exists (S k), vr. rewrite Hr. split_and!; [lia|done| | |].
      * eapply fltb_fleb_trans; [exact Hlt|]. by apply fltb_fleb.
      * intros [|k'] v'; cbn [lookup list_lookup].
        -- intros [= <-]. by apply fltb_fleb.
        -- apply Hall.
      * intros [|k'] v' Hk'; cbn [lookup list_lookup].
        -- by intros [= <-].
        -- apply Hbefore. lia.
  - destruct (IH best vbest (S i) Hvbest) as [[Hr Hall]|(k & vr & Hr & Hk & Hlt & Hall & Hbefore)].
    + left. split; [done|].
      intros [|k'] v'; cbn [lookup list_lookup].
      * intros [= <-]. by apply not_fltb_fleb.
      * apply Hall.
    + right. exists (S k), vr. rewrite Hr.
      assert (fltb vr v = true) as Hvr.
      { eapply fltb_fleb_trans; [exact Hlt|]. by apply not_fltb_fleb. }
      split_and!; [lia|done|done| |].
      * intros [|k'] v'; cbn [lookup list_lookup].
        -- intros [= <-]. by apply fltb_fleb.
        -- apply Hall.
      * intros [|k'] v' Hk'; cbn [lookup list_lookup].
        -- by intros [= <-].
        -- apply Hbefore. lia.
Qed.

Lemma np_argmin_spec (l : list float) :
  Forall good l → l ≠ [] →
  ∃ a va,
    np_argmin l = Ok a ∧ l !! a = Some va
    ∧ (∀ k v, l !! k = Some v → fleb va v = true)
    ∧ (∀ k v, k < a → l !! k = Some v → fltb va v = true).
Proof.
  intros Hl Hne. destruct l as [|v l]; [done|]. clear Hne.
  apply Forall_cons_1 in Hl as [Hv Hl]. cbn [np_argmin].
  destruct (argmin_from_spec l 0 v 1 Hv Hl)
    as [[Hr Hall]|(k & vr & Hr & Hk & Hlt & Hall & Hbefore)].
  - exists 0, v. rewrite Hr. split_and!; [done|done| |].
    + intros [|k'] v'; cbn [lookup list_lookup].
      * intros [= <-]. by apply fleb_refl_good.
      * apply Hall.
    + intros k' v' Hk'. lia.
  - exists (S k), vr. rewrite Hr. split_and!; [done|done| |].
    + intros [|k'] v'; cbn [lookup list_lookup].
      * intros [= <-]. by apply fltb_fleb.
      * apply Hall.
    + intros [|k'] v' Hk'; cbn [lookup list_lookup].
      * by intros [= <-].
      * apply Hbefore. lia.
Qed.

(** ** The scenario of the specification *)

(** C1, as stated, does not hold: on the two-layer scenario the solver
    does not return the path [0, 0], whatever the cost, the logarithm and
    the validation flag. *)
Lemma scenario_path_is_not_0_0 :
  ¬ ∃ ln check_input cost,
      shortest_path scenario (_weight_func_max ln) Unbounded check_input
        scenario_kwargs = Ok ([Idx 0; Idx 0], cost).
Proof.
  intros (ln & check_input & cost & H).
  destruct check_input; vm_compute in H; discriminate H.
Qed.

(** C1, amended: on the two-layer scenario [shortest_path] with
    [_weight_func_max] returns the path [1, 0] with cost -1.3.  The edge
    from candidate 1 of layer 0 to candidate 0 of layer 1 carries no
    penalty (1.0 - 1.5 < 0), so this path costs -0.5 - 0.8 = -1.3, less
    than the -1.2 of the path [0, 0]. *)
Theorem scenario_shortest_path (ln : Q → Q) (check_input : bool) :
  ∃ cost,
    shortest_path scenario (_weight_func_max ln) Unbounded check_input
      scenario_kwargs = Ok ([Idx 1; Idx 0], cost)
    ∧ feq cost (Fin (-13 # 10)).
Proof.
  exists (Fin (-130 # 100)).
  split; [destruct check_input; vm_compute; reflexivity | reflexivity].
Qed.

(** ** The edge weight *)

Lemma max0_Fin (d : Q) : max0 (Fin d) = Fin (Qmax 0 d).
Proof.
  unfold max0, fgtb. simpl.
  unfold Qmax, GenericMinMax.gmax.
  destruct (Qltb 0 d) eqn:E.
  - apply Qltb_lt in E. rewrite Qlt_alt in E. by rewrite E.
  - apply Qltb_ge in E. rewrite Qle_alt in E.
    destruct (0 ?= d)%Q eqn:E'; try done.
    exfalso. apply E. apply Qgt_alt. apply Qlt_alt. exact E'.
Qed.

Lemma fsub_Fin (a b : Q) : fsub (Fin a) (Fin b) = Fin (a - b).
Proof. reflexivity. Qed.

Lemma np_sign_Fin (d : Q) : np_sign (Fin d) = Fin (Qsign d).
Proof. unfold np_sign, Qsign. by destruct (0 ?= d)%Q. Qed.

Lemma np_log_pos ln (p : Q) : (0 <= p)%Q → np_log ln (fadd (Fin p) (Fin 1)) = Fin (ln (p + 1)%Q).
Proof.
  intros Hp. unfold fadd, np_log.
  assert (0 < p + 1)%Q as H by lra.
  rewrite Qlt_alt in H. by rewrite H.
Qed.



(** ** A single layer *)

Lemma extract_path_single (l : layer) (s_0 : float) (rest : list float) :
  iokrscores l = s_0 :: rest →
  is_sorted (iokrscores l) false = true →
  extract_path 1 (init_tables l) = Ok ([Idx 0], fneg s_0).
Proof.
  intros Hs Hsorted. unfold extract_path, init_tables.
  rewrite Hs in *.
  cbn [S_path parents].
  change (py_get [map fneg (s_0 :: rest)] (Idx (-1)))
    with (Ok (A := list float) (map fneg (s_0 :: rest))).
  cbn [mbind result_bind].
  rewrite (np_argmin_neg_sorted _ _ Hsorted).
  reflexivity.
Qed.

(** C10: with exactly one layer, whose scores are descending, the solver
    returns the path [0] and the cost [- scores[0][0]] for every cutoff
    and every blocking state, also when candidate 0 is blocked or lies
    beyond the cutoff: the relaxation loop does not run, and the tables
    of layer 0 hold all candidates. *)
Theorem single_layer_ignores_blocking_and_cutoff (l : layer)
    (weight_fun : weight_function) (cut_off_n_cand : cutoff)
    (check_input exclude_blocked_candidates : bool) (kwds : kwargs)
    (s_0 : float) (rest : list float) :
  iokrscores l = s_0 :: rest →
  is_sorted (iokrscores l) false = true →
  check_cand_data [l] check_input exclude_blocked_candidates = Ok tt →
  shortest_path_exclude_candidates [l] weight_fun cut_off_n_cand check_input
    exclude_blocked_candidates kwds
  = Ok ([Idx 0], fneg s_0).
Proof.
  intros Hs Hsorted Hcheck.
  unfold shortest_path_exclude_candidates. rewrite Hcheck.
  cbn [mbind result_bind forward index lookup list_lookup length Nat.sub
       range seq for_each].
  by eapply extract_path_single.
Qed.

(** Witness for C10: the best candidate is blocked and the cutoff keeps
    no candidate at all; the solver still returns it. *)
Lemma single_layer_ignores_blocking_and_cutoff_witness :
  shortest_path_exclude_candidates [top_blocked_layer]
    (_weight_func_max ln_tangent) (AtMost 0) true true scenario_kwargs
  = Ok ([Idx 0], fneg (Fin (9 # 10))).
Proof.
  exact (single_layer_ignores_blocking_and_cutoff top_blocked_layer
           (_weight_func_max ln_tangent) (AtMost 0) true true scenario_kwargs
           (Fin (9 # 10)) [Fin (5 # 10)] eq_refl eq_refl eq_refl).
Defined.

(** ** Blocked candidates in a single layer *)

(** C2 fails on a single layer: candidate 0 of [top_blocked_layer] is
    blocked, candidate 1 is not, and the solver, asked to exclude blocked
    candidates, returns candidate 0. *)
Theorem single_layer_returns_blocked_candidate :
  is_blocked top_blocked_layer = Some [true; false]
  ∧ shortest_path_exclude_candidates [top_blocked_layer]
      (_weight_func_max ln_tangent) Unbounded true true scenario_kwargs
    = Ok ([Idx 0], Fin (- (9 # 10))).
Proof. split; vm_compute; reflexivity. Qed.

(** C5 fails on a single layer: with one layer of two candidates and
    [topk = 3] the driver returns three entries, each time the path [0]. *)
Theorem single_layer_rerank_never_exhausts :
  ∃ topk_accs lengths,
    (perform_reranking_of_candidates [0] 3 Unbounded
       (Some (_weight_func_max ln_tangent)) scenario_kwargs
       [scenario_layer_0]).2
    = Ok (topk_accs, [[Idx 0]; [Idx 0]; [Idx 0]], lengths)
    ∧ length topk_accs = 3 ∧ length lengths = 3.
Proof.
  eexists _, _. split; [vm_compute; reflexivity|]. split; reflexivity.
Qed.

(** ** Validation and the truth labels *)

Section EraseTruth.
Variable ln : Q → Q.
Variable cand_data : list layer.
Variable exclude_blocked_candidates : bool.
Variable cut_off_n_cand : cutoff.
Variable kwds_c : kwargs.

Let erased : list layer := erase_truth <$> cand_data.

Lemma weight_func_max_erase u v kw :
  _weight_func_max ln erased u v kw = _weight_func_max ln cand_data u v kw.
Proof.
  unfold _weight_func_max, erased.
  destruct (kw_D kw), (kw_use_sign kw), (kw_epsilon_rt kw), (kw_use_log kw);
    try reflexivity.
  cbn [has_key mbind result_bind]. destruct u as [t i], v as [tp1 j].
  rewrite !index_fmap.
  destruct (index cand_data tp1) as [l_tp1|]; [|reflexivity].
  cbn [mbind result_bind erase_truth iokrscores].
  destruct (index (iokrscores l_tp1) j); [|reflexivity].
  cbn [mbind result_bind].
  destruct (index cand_data t) as [l_t|]; reflexivity.
Qed.

Lemma skip_blocked_erase t i :
  skip_blocked exclude_blocked_candidates erased t i
  = skip_blocked exclude_blocked_candidates cand_data t i.
Proof.
  unfold skip_blocked, erased. destruct exclude_blocked_candidates; [|done].
  rewrite index_fmap. by destruct (index cand_data t).
Qed.

Lemma relax_edge_erase t i s_t_i dW_t_i j tb :
  relax_edge erased (_weight_func_max ln) exclude_blocked_candidates kwds_c
    t i s_t_i dW_t_i j tb
  = relax_edge cand_data (_weight_func_max ln) exclude_blocked_candidates
      kwds_c t i s_t_i dW_t_i j tb.
Proof.
  unfold relax_edge. by rewrite weight_func_max_erase, skip_blocked_erase.
Qed.

Lemma relax_from_erase t n_cand_tp1 i tb :
  relax_from erased (_weight_func_max ln) exclude_blocked_candidates kwds_c
    t n_cand_tp1 i tb
  = relax_from cand_data (_weight_func_max ln) exclude_blocked_candidates
      kwds_c t n_cand_tp1 i tb.
Proof.
  unfold relax_from. rewrite skip_blocked_erase.
  repeat bind_both; try reflexivity.
  apply for_each_ext. intros j tb' _. apply relax_edge_erase.
Qed.

Lemma forward_step_erase t tb :
  forward_step erased (_weight_func_max ln) cut_off_n_cand
    exclude_blocked_candidates kwds_c t tb
  = forward_step cand_data (_weight_func_max ln) cut_off_n_cand
      exclude_blocked_candidates kwds_c t tb.
Proof.
  unfold forward_step. unfold erased. rewrite !index_fmap.
  destruct (index cand_data t) as [l_t|]; [|reflexivity].
  cbn [mbind result_bind].
  destruct (index cand_data (t + 1)) as [l_tp1|]; [|reflexivity].
  cbn [mbind result_bind].
  change (n_cand (erase_truth l_t) cut_off_n_cand)
    with (n_cand l_t cut_off_n_cand).
  change (n_cand (erase_truth l_tp1) cut_off_n_cand)
    with (n_cand l_tp1 cut_off_n_cand).
  apply for_each_ext. intros i tb' _. apply relax_from_erase.
Qed.

Lemma forward_erase :
  forward erased (_weight_func_max ln) cut_off_n_cand
    exclude_blocked_candidates kwds_c
  = forward cand_data (_weight_func_max ln) cut_off_n_cand
      exclude_blocked_candidates kwds_c.
Proof.
  unfold forward. unfold erased. rewrite index_fmap, length_fmap.
  destruct (index cand_data 0) as [l_0|]; [|reflexivity].
  cbn [mbind result_bind].
  change (init_tables (erase_truth l_0)) with (init_tables l_0).
  apply for_each_ext. intros t tb _. apply forward_step_erase.
Qed.

Lemma check_layer_erase t rt :
  check_layer erased exclude_blocked_candidates t rt
  = check_layer cand_data exclude_blocked_candidates t rt.
Proof.
  unfold check_layer, erased. rewrite index_fmap.
  destruct (index cand_data t); reflexivity.
Qed.

Lemma check_cand_data_erase check_input :
  check_cand_data erased check_input exclude_blocked_candidates
  = check_cand_data cand_data check_input exclude_blocked_candidates.
Proof.
  unfold check_cand_data. destruct check_input; [|reflexivity].
  unfold erased. rewrite length_fmap.
  by rewrite (for_each_ext _ _ _ _ (λ t rt _, check_layer_erase t rt)).
Qed.

Lemma solver_erase check_input :
  shortest_path_exclude_candidates erased (_weight_func_max ln)
    cut_off_n_cand check_input exclude_blocked_candidates kwds_c
  = shortest_path_exclude_candidates cand_data (_weight_func_max ln)
      cut_off_n_cand check_input exclude_blocked_candidates kwds_c.
Proof.
  unfold shortest_path_exclude_candidates.
  rewrite check_cand_data_erase, forward_erase.
  unfold erased. by rewrite length_fmap.
Qed.
End EraseTruth.

Lemma erase_same_but_truth (cand_data cand_data' : list layer) :
  Forall2 same_but_truth cand_data cand_data' →
  erase_truth <$> cand_data = erase_truth <$> cand_data'.
Proof.
  induction 1 as [|l l' cd cd' (Hs & Hw & Hrt & Hb) _ IH]; [done|].
  rewrite !fmap_cons. f_equal; [|exact IH].
  unfold erase_truth. by rewrite Hs, Hw, Hrt, Hb.
Qed.

Lemma check_layer_eq (cand_data : list layer)
    (exclude_blocked_candidates : bool) (t : nat) (rt : float) (l : layer) :
  cand_data !! t = Some l →
  check_layer cand_data exclude_blocked_candidates t rt
  = if layer_check_b exclude_blocked_candidates rt l
    then Ok (rt_cand_list l) else Raise AssertionError.
Proof.
  intros Hl. apply index_Ok in Hl.
  unfold check_layer, layer_check_b. rewrite Hl. cbn [mbind result_bind].
  destruct (is_sorted (iokrscores l) false); [|reflexivity].
  destruct (fgeb (rt_cand_list l) rt); [|reflexivity].
  destruct exclude_blocked_candidates; [|reflexivity].
  destruct (is_blocked l) as [blocked|]; [|reflexivity].
  cbn [assert has_key mbind result_bind andb].
  by destruct (length blocked =? length (iokrscores l)).
Qed.

(** The [check_input] loop over a suffix of the layers. *)
Lemma check_loop_eq (exclude_blocked_candidates : bool)
    (pre rest : list layer) (rt : float) :
  (for_each (seq (length pre) (length rest))
     (check_layer (pre ++ rest) exclude_blocked_candidates) rt;;
   Ok tt)
  = if validation_b exclude_blocked_candidates rt rest
    then Ok tt else Raise AssertionError.
Proof.
  revert pre rt. induction rest as [|l rest IH]; intros pre rt; [done|].
  cbn [length seq for_each validation_b].
  rewrite (check_layer_eq _ _ _ _ l) by by rewrite list_lookup_middle.
  destruct (layer_check_b exclude_blocked_candidates rt l);
    cbn [mbind result_bind andb]; [|done].
  specialize (IH (pre ++ [l]) (rt_cand_list l)).
  rewrite length_app, <- app_assoc in IH. cbn [length app] in IH.
  replace (length pre + 1) with (S (length pre)) in IH by lia.
  exact IH.
Qed.

Lemma validation_b_spec (exclude_blocked_candidates : bool) (rt : float)
    (cand_data : list layer) :
  validation_b exclude_blocked_candidates rt cand_data = true
  ↔ Forall (layer_checked exclude_blocked_candidates) cand_data
    ∧ rt_non_decreasing rt cand_data.
Proof.
  revert rt. induction cand_data as [|l cd IH]; intros rt.
  { simpl. split; [by split|done]. }
  cbn [validation_b rt_non_decreasing].
  rewrite andb_true_iff, IH, Forall_cons.
  unfold layer_check_b, layer_checked. rewrite !andb_true_iff.
  assert ((if exclude_blocked_candidates then
             match is_blocked l with
             | Some blocked => length blocked =? length (iokrscores l)
             | None => false
             end
           else true) = true
          ↔ (exclude_blocked_candidates = true →
             ∃ blocked, is_blocked l = Some blocked
                        ∧ length blocked = length (iokrscores l))) as ->.
  { destruct exclude_blocked_candidates; [|by split].
    destruct (is_blocked l) as [blocked|].
    - rewrite Nat.eqb_eq. split; [eauto|].
      intros (b & [= <-] & Hlen); done.
    - split; [done|]. intros (b & Hb & _); done. }
  tauto.
Qed.

Lemma check_cand_data_spec (cand_data : list layer)
    (exclude_blocked_candidates : bool) :
  (passes_validation cand_data exclude_blocked_candidates
   ∧ check_cand_data cand_data true exclude_blocked_candidates = Ok tt)
  ∨ (¬ passes_validation cand_data exclude_blocked_candidates
     ∧ check_cand_data cand_data true exclude_blocked_candidates
       = Raise AssertionError).
Proof.
  unfold check_cand_data, passes_validation, range.
  pose proof (check_loop_eq exclude_blocked_candidates [] cand_data NInf) as H.
  cbn [length app] in H. rewrite H.
  rewrite <- validation_b_spec.
  destruct (validation_b _ _ _); [left|right]; done.
Qed.

(** C8, as stated, does not hold: in [mislabelled] no layer has exactly
    one true candidate (layer 0 has none, layer 1 has two), validation is
    enabled, and the solver returns a path instead of raising. *)
Lemma mislabelled_layers_are_accepted :
  Forall (λ l, count_true l ≠ 1) mislabelled
  ∧ shortest_path_exclude_candidates mislabelled
      (_weight_func_max ln_tangent) Unbounded true true scenario_kwargs
    = Ok ([Idx 1; Idx 0], Fin (-130 # 100)).
Proof.
  split; [|vm_compute; reflexivity].
  repeat constructor; vm_compute; discriminate.
Qed.

(** C8, amended: the truth labels play no role in the solver.  Layer
    sequences that differ only in their [is_true_identification] vectors
    give the same outcome, with or without validation; and with
    validation enabled the call raises (an assertion fails, nothing is
    returned) whenever the scores of a layer are not descending, the
    retention times decrease, or, when blocked candidates are excluded, a
    blocked vector is missing or of the wrong length. *)
Theorem validation_ignores_truth_labels (ln : Q → Q)
    (cand_data cand_data' : list layer) (cut_off_n_cand : cutoff)
    (check_input exclude_blocked_candidates : bool) (kwds : kwargs) :
  Forall2 same_but_truth cand_data cand_data' →
  shortest_path_exclude_candidates cand_data (_weight_func_max ln)
    cut_off_n_cand check_input exclude_blocked_candidates kwds
  = shortest_path_exclude_candidates cand_data' (_weight_func_max ln)
      cut_off_n_cand check_input exclude_blocked_candidates kwds
  ∧ (¬ passes_validation cand_data exclude_blocked_candidates →
     shortest_path_exclude_candidates cand_data' (_weight_func_max ln)
       cut_off_n_cand true exclude_blocked_candidates kwds
     = Raise AssertionError).
Proof.
  intros Hsame.
  assert (∀ chk,
    shortest_path_exclude_candidates cand_data (_weight_func_max ln)
      cut_off_n_cand chk exclude_blocked_candidates kwds
    = shortest_path_exclude_candidates cand_data' (_weight_func_max ln)
        cut_off_n_cand chk exclude_blocked_candidates kwds) as Heq.
  { intros chk.
    rewrite <- (solver_erase ln cand_data), <- (solver_erase ln cand_data').
    by rewrite (erase_same_but_truth _ _ Hsame). }
  split; [apply Heq|].
  intros Hbad. rewrite <- Heq.
  destruct (check_cand_data_spec cand_data exclude_blocked_candidates)
    as [[Hok _]|[_ Hraise]]; [done|].
  unfold shortest_path_exclude_candidates. by rewrite Hraise.
Qed.

(** Witness for C8: the scenario with blocked vectors against its
    mislabelled variant. *)
Lemma validation_ignores_truth_labels_witness :
  shortest_path_exclude_candidates
    [with_is_blocked scenario_layer_0 [false; false];
     with_is_blocked scenario_layer_1 [false; false]]
    (_weight_func_max ln_tangent) Unbounded true true scenario_kwargs
  = shortest_path_exclude_candidates mislabelled
      (_weight_func_max ln_tangent) Unbounded true true scenario_kwargs
  ∧ (¬ passes_validation
         [with_is_blocked scenario_layer_0 [false; false];
          with_is_blocked scenario_layer_1 [false; false]] true →
     shortest_path_exclude_candidates mislabelled
       (_weight_func_max ln_tangent) Unbounded true true scenario_kwargs
     = Raise AssertionError).
Proof.
  apply (validation_ignores_truth_labels ln_tangent
           [with_is_blocked scenario_layer_0 [false; false];
            with_is_blocked scenario_layer_1 [false; false]]
           mislabelled Unbounded true true scenario_kwargs).
  repeat constructor.
Defined.

(** ** The heap monad *)

Lemma bind_M_inv {A B} (m : M A) (f : A → M B) (h h' : heap) (b : B) :
  (m ≫= f) h = (h', Ok b) →
  ∃ a h1, m h = (h1, Ok a) ∧ f a h1 = (h', Ok b).
Proof.
  unfold mbind, M_bind, bind_M.
  destruct (m h) as [h1 [a|e]]; [eauto|discriminate].
Qed.

Lemma ret_M_inv {A} (a b : A) (h h' : heap) :
  ret_M a h = (h', Ok b) → h' = h ∧ b = a.
Proof. unfold ret_M. by intros [= -> ->]. Qed.

Lemma lift_inv {A} (r : result A) (a : A) (h h' : heap) :
  lift r h = (h', Ok a) → h' = h ∧ r = Ok a.
Proof. unfold lift. by intros [= -> ->]. Qed.

(** ** Cumulative accuracy *)

Lemma cumsum_from_lookup (acc : nat) (l : list nat) (m : nat) :
  cumsum_from acc l !! m
  = if decide (m < length l) then Some (acc + sum_list (take (S m) l)) else None.
Proof.
  revert acc m. induction l as [|x l IH]; intros acc m; [done|].
  assert (∀ k, sum_list (take (S k) (x :: l)) = x + sum_list (take k l))
    as Hsum by done.
  destruct m as [|m]; cbn [cumsum_from lookup list_lookup length].
  - rewrite decide_True by lia. f_equal. rewrite Hsum, take_0. simpl. lia.
  - rewrite IH, Hsum.
    repeat case_decide; try lia; [|done].
    f_equal. lia.
Qed.

Lemma length_cumsum_from (acc : nat) (l : list nat) :
  length (cumsum_from acc l) = length l.
Proof.
  revert acc. induction l as [|x l IH]; intros acc; simpl; [done|].
  by rewrite IH.
Qed.

Lemma np_cumsum_monotone (l : list nat) (m a b : nat) :
  np_cumsum l !! m = Some a → np_cumsum l !! S m = Some b → a ≤ b.
Proof.
  unfold np_cumsum. rewrite !cumsum_from_lookup.
  repeat case_decide; try done. intros [= <-] [= <-].
  rewrite (take_S_r l (S m) (l !!! S m)).
  - rewrite sum_list_with_app. lia.
  - apply list_lookup_lookup_total_lt. lia.
Qed.

(** The accuracy after [c] correct identifications among [n] layers. *)
Lemma accuracy_finite (c n : nat) :
  0 < n →
  fmul (fdiv (float_of_nat c) (float_of_nat n)) (Fin 100)
  = Fin (inject_Z (Z.of_nat c) / inject_Z (Z.of_nat n) * 100).
Proof.
  intros Hn. unfold float_of_nat, fdiv.
  assert (0 < inject_Z (Z.of_nat n))%Q as Hpos.
  { change 0%Q with (inject_Z 0). rewrite <- Zlt_Qlt. lia. }
  rewrite Qlt_alt in Hpos. by rewrite Hpos.
Qed.

Lemma accuracy_monotone (c1 c2 n : nat) :
  0 < n → c1 ≤ c2 →
  fleb (fmul (fdiv (float_of_nat c1) (float_of_nat n)) (Fin 100))
       (fmul (fdiv (float_of_nat c2) (float_of_nat n)) (Fin 100)) = true.
Proof.
  intros Hn Hc. rewrite !accuracy_finite by done. apply fleb_Fin.
  assert (0 < inject_Z (Z.of_nat n))%Q as Hpos.
  { change 0%Q with (inject_Z 0). rewrite <- Zlt_Qlt. lia. }
  assert (inject_Z (Z.of_nat c1) <= inject_Z (Z.of_nat c2))%Q as Hle.
  { rewrite <- Zle_Qle. lia. }
  apply Qmult_le_compat_r; [|done].
  apply Qmult_le_compat_r; [done|].
  apply Qlt_le_weak, Qinv_lt_0_compat, Hpos.
Qed.

(** Without layers the loop stops at once. *)
Lemma rerank_loop_no_layers weight_function cut_off_n_cand kwargs ks st h :
  all_cand_blocked st = [] →
  rerank_loop [] weight_function cut_off_n_cand kwargs ks st h = (h, Ok st).
Proof. intros Hacb. destruct ks; simpl; [done|]. by rewrite Hacb. Qed.

Lemma deepcopy_refs_length (refs : list loc) (memo : list (loc * loc))
    (h h' : heap) (cs : list loc) :
  deepcopy_refs memo refs h = (h', Ok cs) → length cs = length refs.
Proof.
  revert memo h h' cs. induction refs as [|r refs IH]; intros memo h h' cs.
  { simpl. by intros [-> ->]%ret_M_inv. }
  simpl. destruct (memo_find memo r) as [c|].
  - intros (cs' & h1 & Hrec & [-> ->]%ret_M_inv)%bind_M_inv.
    simpl. f_equal. eauto.
  - intros (obj & h1 & _ & H)%bind_M_inv.
    apply bind_M_inv in H as (c & h2 & _ & H).
    apply bind_M_inv in H as (cs' & h3 & Hrec & [-> ->]%ret_M_inv).
    simpl. f_equal. eauto.
Qed.



(** ** The caller's layers are left alone *)

Section Frame.
Variable n : nat.

Lemma frame_ret {A} (a : A) : frame n (ret_M a).
Proof. by intros h Hn. Qed.

Lemma frame_lift {A} (r : result A) : frame n (lift r).
Proof. by intros h Hn. Qed.

Lemma frame_bind {A B} (m : M A) (f : A → M B) :
  frame n m → (∀ a, frame n (f a)) → frame n (m ≫= f).
Proof.
  intros Hm Hf h Hn. unfold mbind, M_bind, bind_M.
  specialize (Hm h Hn). destruct (m h) as [h1 [a|e]]; simpl in *; [|done].
  destruct Hm as [Hn1 Heq]. destruct (Hf a h1 Hn1) as [Hn2 Heq2].
  split; [done|congruence].
Qed.

Lemma frame_bind_post {A B} (P : A → Prop) (m : M A) (f : A → M B) :
  frame n m →
  (∀ h h' a, n ≤ length h → m h = (h', Ok a) → P a) →
  (∀ a, P a → frame n (f a)) →
  frame n (m ≫= f).
Proof.
  intros Hm HP Hf h Hn. unfold mbind, M_bind, bind_M.
  specialize (Hm h Hn). specialize (HP h).
  destruct (m h) as [h1 [a|e]]; simpl in *; [|done].
  destruct Hm as [Hn1 Heq].
  destruct (Hf a (HP _ _ Hn eq_refl) h1 Hn1) as [Hn2 Heq2].
  split; [done|congruence].
Qed.

Lemma frame_bind_lift {A B} (r : result A) (f : A → M B) :
  (∀ a, r = Ok a → frame n (f a)) → frame n (lift r ≫= f).
Proof.
  intros Hf. apply (frame_bind_post (λ a, r = Ok a)); [apply frame_lift| |done].
  intros h h' a _ [_ ->]%lift_inv. done.
Qed.

Lemma frame_deref (r : loc) : frame n (deref r).
Proof. by intros h Hn. Qed.

Lemma frame_alloc (l : layer) : frame n (alloc l).
Proof.
  intros h Hn. unfold alloc. simpl. rewrite length_app. split; [lia|].
  by rewrite take_app_le.
Qed.

Lemma frame_store (r : loc) (l : layer) : n ≤ r → frame n (store r l).
Proof.
  intros Hr h Hn. unfold store. case_decide; cbn [fst]; [|done].
  rewrite length_insert. split; [done|]. by apply take_insert_ge.
Qed.

Lemma frame_for_each {X St} (xs : list X) (body : X → St → M St) (st : St) :
  (∀ x st, frame n (body x st)) → frame n (for_each_M xs body st).
Proof.
  intros Hbody. revert st. induction xs as [|x xs IH]; intros st; simpl.
  - apply frame_ret.
  - apply frame_bind; [apply Hbody|apply IH].
Qed.

(** The copies made by [copy.deepcopy] are new objects. *)
Lemma frame_deepcopy_refs (memo : list (loc * loc)) (refs : list loc) :
  frame n (deepcopy_refs memo refs).
Proof.
  revert memo. induction refs as [|r refs IH]; intros memo; simpl.
  { apply frame_ret. }
  destruct (memo_find memo r).
  - apply frame_bind; [apply IH|]. intros cs. apply frame_ret.
  - apply frame_bind; [apply frame_deref|]. intros obj.
    apply frame_bind; [apply frame_alloc|]. intros c.
    apply frame_bind; [apply IH|]. intros cs. apply frame_ret.
Qed.

Lemma memo_find_Some (memo : list (loc * loc)) (r c : loc) :
  memo_find memo r = Some c → (r, c) ∈ memo.
Proof.
  induction memo as [|[r0 c0] memo IH]; simpl; [done|].
  case_decide as E.
  - intros [= ->]. subst. by left.
  - intros H. right. by apply IH.
Qed.

Lemma deepcopy_refs_fresh (memo : list (loc * loc)) (refs : list loc)
    (h h' : heap) (cs : list loc) :
  n ≤ length h →
  Forall (λ p, n ≤ p.2) memo →
  deepcopy_refs memo refs h = (h', Ok cs) →
  Forall (λ c, n ≤ c) cs.
Proof.
  revert memo h h' cs. induction refs as [|r refs IH]; intros memo h h' cs Hn Hmemo.
  { simpl. intros [_ ->]%ret_M_inv. constructor. }
  simpl. destruct (memo_find memo r) as [c|] eqn:Hfind.
  - intros (cs' & h1 & Hrec & [-> ->]%ret_M_inv)%bind_M_inv.
    constructor; [|by eapply IH].
    apply memo_find_Some in Hfind.
    by apply (proj1 (Forall_forall _ _) Hmemo (r, c)).
  - intros (obj & h1 & [-> _]%lift_inv & H)%bind_M_inv.
    apply bind_M_inv in H as (c & h2 & Halloc & H).
    apply bind_M_inv in H as (cs' & h3 & Hrec & [-> ->]%ret_M_inv).
    unfold alloc in Halloc. injection Halloc as <- <-.
    constructor; [done|].
    eapply IH; [|  |exact Hrec].
    + rewrite length_app. lia.
    + constructor; [done|exact Hmemo].
Qed.

Section Copy.
Variable cand_data_c : list loc.
Hypothesis fresh : Forall (λ c, n ≤ c) cand_data_c.

Lemma index_fresh (t : nat) (r : loc) : index cand_data_c t = Ok r → n ≤ r.
Proof.
  intros Hr%index_Ok.
  apply (proj1 (Forall_forall _ _) fresh). by eapply list_elem_of_lookup_2.
Qed.

Lemma frame_init_blocked (t : nat) (u : unit) :
  frame n (init_blocked cand_data_c t u).
Proof.
  unfold init_blocked.
  apply frame_bind_lift. intros r Hr%index_fresh.
  apply frame_bind; [apply frame_deref|]. intros l.
  by apply frame_store.
Qed.

Lemma frame_select_open (acb : list bool) (t : nat) (acc : list layer) :
  frame n (select_open cand_data_c acb t acc).
Proof.
  unfold select_open.
  apply frame_bind; [apply frame_lift|]. intros [|]; [apply frame_ret|].
  apply frame_bind; [apply frame_lift|]. intros r.
  apply frame_bind; [apply frame_deref|]. intros l. apply frame_ret.
Qed.

Lemma frame_block_cand (acb : list bool) (k : nat) (tc : nat * pyidx)
    (nc : list nat) :
  frame n (block_cand cand_data_c acb k tc nc).
Proof.
  unfold block_cand. destruct tc as [t cand].
  apply frame_bind; [apply frame_lift|]. intros tm.
  apply frame_bind; [apply frame_lift|]. intros r.
  apply frame_bind; [apply frame_deref|]. intros l.
  apply frame_bind; [apply frame_lift|]. intros truth.
  apply frame_bind; [apply frame_lift|]. intros n_k.
  apply frame_bind; [apply frame_lift|]. intros nc'.
  apply frame_bind; [apply frame_lift|]. intros tm'.
  apply frame_bind_lift. intros r' Hr'%index_fresh.
  apply frame_bind; [apply frame_deref|]. intros l'.
  apply frame_bind; [apply frame_lift|]. intros blocked.
  apply frame_bind; [apply frame_lift|]. intros blocked'.
  apply frame_bind; [by apply frame_store|]. intros _. apply frame_ret.
Qed.

Lemma frame_update_exhausted (t : nat) (acb : list bool) :
  frame n (update_exhausted cand_data_c t acb).
Proof.
  unfold update_exhausted.
  apply frame_bind; [apply frame_lift|]. intros r.
  apply frame_bind; [apply frame_deref|]. intros l.
  apply frame_bind; [apply frame_lift|]. intros blocked. apply frame_lift.
Qed.

Lemma frame_rerank_round wf cut_off_n_cand kwargs (k : nat) (st : rerank_state) :
  frame n (rerank_round cand_data_c wf cut_off_n_cand kwargs k st).
Proof.
  unfold rerank_round.
  apply frame_bind; [apply frame_for_each, frame_select_open|]. intros open.
  apply frame_bind; [apply frame_lift|]. intros [path length_].
  apply frame_bind; [apply frame_lift|]. intros _.
  apply frame_bind; [apply frame_for_each, frame_block_cand|]. intros nc.
  apply frame_bind; [apply frame_for_each, frame_update_exhausted|].
  intros acb. apply frame_ret.
Qed.

Lemma frame_rerank_loop wf cut_off_n_cand kwargs (ks : list nat)
    (st : rerank_state) :
  frame n (rerank_loop cand_data_c wf cut_off_n_cand kwargs ks st).
Proof.
  revert st. induction ks as [|k ks IH]; intros st; simpl.
  { apply frame_ret. }
  destruct (forallb id (all_cand_blocked st)); [apply frame_ret|].
  change (frame n (rerank_round cand_data_c wf cut_off_n_cand kwargs k st
                   ≫= rerank_loop cand_data_c wf cut_off_n_cand kwargs ks)).
  apply frame_bind; [apply frame_rerank_round|]. apply IH.
Qed.
End Copy.

Lemma frame_perform_reranking (cand_data : list loc) (topk : nat)
    (cut_off_n_cand : cutoff) (weight_function : option weight_function)
    (kwargs : kwargs) :
  frame n (perform_reranking_of_candidates cand_data topk cut_off_n_cand
             weight_function kwargs).
Proof.
  unfold perform_reranking_of_candidates.
  apply (frame_bind_post (Forall (λ c, n ≤ c))).
  - apply frame_deepcopy_refs.
  - intros h h' cdc Hn Hcopy. eapply deepcopy_refs_fresh; [exact Hn| |exact Hcopy].
    constructor.
  - intros cdc Hfresh.
    apply frame_bind; [apply frame_lift|]. intros wf.
    apply frame_bind; [apply frame_for_each; intros; by apply frame_init_blocked|].
    intros _.
    apply frame_bind; [by apply frame_rerank_loop|]. intros st. apply frame_ret.
Qed.
End Frame.

(** ** Objects elsewhere in the heap do not matter *)

Lemma result_rel_eq {A} (rA rB : result A) : result_rel eq rA rB → rA = rB.
Proof. destruct rA, rB; simpl; intros H; by subst. Qed.

Lemma result_rel_refl {A} (r : result A) : result_rel eq r r.
Proof. by destruct r. Qed.

Section Sim.
Variable n : nat.
Variable junk : list layer.

Local Abbreviation rl := (reloc n junk).
Notation "mA ~ mB @ R" := (sim n junk R mA mB) (at level 70, mB at next level).

Lemma heap_rel_lookup (hA hB : heap) (r : loc) :
  heap_rel n junk hA hB → hB !! rl r = hA !! r.
Proof.
  intros [Hn ->]. unfold reloc. case_decide.
  - rewrite lookup_app_l by (rewrite length_take; lia).
    by apply lookup_take_lt.
  - rewrite lookup_app_r by (rewrite length_take; lia).
    rewrite lookup_app_r by (rewrite length_take; lia).
    rewrite lookup_drop, length_take. f_equal. lia.
Qed.

Lemma heap_rel_length (hA hB : heap) :
  heap_rel n junk hA hB → length hB = length hA + length junk.
Proof.
  intros [Hn ->]. rewrite !length_app, length_take, length_drop. lia.
Qed.

Lemma heap_rel_insert (hA hB : heap) (r : loc) (l : layer) :
  heap_rel n junk hA hB → r < length hA →
  heap_rel n junk (<[r := l]> hA) (<[rl r := l]> hB).
Proof.
  intros [Hn ->] Hr. split; [by rewrite length_insert|].
  unfold reloc. case_decide.
  - rewrite insert_app_l by (rewrite length_take; lia).
    by rewrite take_insert_lt, drop_insert_lt.
  - rewrite take_insert_ge, drop_insert_ge by lia.
    replace (r + length junk) with (length (take n hA) + (length junk + (r - n)))
      by (rewrite length_take; lia).
    by rewrite insert_app_r, insert_app_r.
Qed.

Lemma heap_rel_snoc (hA hB : heap) (l : layer) :
  heap_rel n junk hA hB → heap_rel n junk (hA ++ [l]) (hB ++ [l]).
Proof.
  intros [Hn ->]. split; [rewrite length_app; lia|].
  rewrite take_app_le, drop_app_le by done. by rewrite <- !app_assoc.
Qed.

Lemma rl_lt (r : loc) (hA hB : heap) :
  heap_rel n junk hA hB → rl r < length hB ↔ r < length hA.
Proof.
  intros Hrel. rewrite (heap_rel_length _ _ Hrel). destruct Hrel as [Hn _].
  unfold reloc. case_decide; lia.
Qed.

Lemma sim_ret {A} (R : A → A → Prop) (a b : A) :
  R a b → ret_M a ~ ret_M b @ R.
Proof. by intros HR hA hB Hrel. Qed.

Lemma sim_lift {A} (R : A → A → Prop) (rA rB : result A) :
  result_rel R rA rB → lift rA ~ lift rB @ R.
Proof. by intros HR hA hB Hrel. Qed.

Lemma sim_lift_eq {A} (r : result A) : lift r ~ lift r @ eq.
Proof. apply sim_lift, result_rel_refl. Qed.

Lemma sim_bind {A B} (RA : A → A → Prop) (RB : B → B → Prop)
    (mA mB : M A) (fA fB : A → M B) :
  mA ~ mB @ RA →
  (∀ a b, RA a b → fA a ~ fB b @ RB) →
  (mA ≫= fA) ~ (mB ≫= fB) @ RB.
Proof.
  intros Hm Hf hA hB Hrel. unfold mbind, M_bind, bind_M.
  specialize (Hm hA hB Hrel).
  destruct (mA hA) as [hA' [a|e]], (mB hB) as [hB' [b|e']];
    simpl in Hm; destruct Hm as [Hrel' HR]; try done.
  by apply Hf.
Qed.

Lemma sim_deref (r : loc) : deref r ~ deref (rl r) @ eq.
Proof.
  intros hA hB Hrel. split; [done|]. unfold deref, index. cbn [snd].
  rewrite (heap_rel_lookup _ _ _ Hrel). apply result_rel_refl.
Qed.

Lemma sim_store (r : loc) (l : layer) : store r l ~ store (rl r) l @ eq.
Proof.
  intros hA hB Hrel. unfold store.
  pose proof (rl_lt r _ _ Hrel) as Hlt.
  repeat case_decide; try tauto; cbn [fst snd]; [|done].
  split; [by apply heap_rel_insert|done].
Qed.

Lemma sim_alloc (l : layer) : alloc l ~ alloc l @ (λ a b, b = rl a).
Proof.
  intros hA hB Hrel. unfold alloc. cbn [fst snd]. split.
  - by apply heap_rel_snoc.
  - simpl. rewrite (heap_rel_length _ _ Hrel). destruct Hrel as [Hn _].
    unfold reloc. case_decide; lia.
Qed.

Lemma sim_for_each {X St} (R : St → St → Prop) (xs : list X)
    (bodyA bodyB : X → St → M St) (stA stB : St) :
  (∀ x stA stB, R stA stB → bodyA x stA ~ bodyB x stB @ R) →
  R stA stB →
  for_each_M xs bodyA stA ~ for_each_M xs bodyB stB @ R.
Proof.
  intros Hbody. revert stA stB. induction xs as [|x xs IH]; intros stA stB HR.
  - by apply sim_ret.
  - simpl. eapply sim_bind; [by apply Hbody|]. apply IH.
Qed.

Lemma sim_index_reloc (cdc : list loc) (t : nat) :
  result_rel (λ a b, b = rl a) (index cdc t) (index (rl <$> cdc) t).
Proof. rewrite index_fmap. by destruct (index cdc t). Qed.

Lemma memo_find_reloc (memo : list (loc * loc)) (r : loc) :
  memo_find (prod_map id rl <$> memo) r = rl <$> memo_find memo r.
Proof.
  induction memo as [|[r0 c0] memo IH]; [done|].
  cbn [fmap list_fmap prod_map memo_find fst snd id].
  case_decide; [done|]. apply IH.
Qed.

Lemma sim_deepcopy_refs (memo : list (loc * loc)) (refs : list loc) :
  Forall (λ r, r < n) refs →
  deepcopy_refs memo refs
  ~ deepcopy_refs (prod_map id rl <$> memo) refs
  @ (λ csA csB, csB = rl <$> csA).
Proof.
  intros Hrefs. revert memo.
  induction Hrefs as [|r refs Hr _ IH]; intros memo; simpl.
  { by apply sim_ret. }
  rewrite memo_find_reloc. destruct (memo_find memo r) as [c|]; simpl.
  - eapply sim_bind; [apply IH|]. intros csA csB ->. by apply sim_ret.
  - eapply sim_bind.
    { replace r with (rl r) at 2 by (unfold reloc; by rewrite decide_True).
      apply sim_deref. }
    intros obj ? <-.
    eapply sim_bind; [apply sim_alloc|]. intros cA cB ->.
    eapply sim_bind; [apply (IH ((r, cA) :: memo))|].
    intros csA csB ->. by apply sim_ret.
Qed.

Section Copy.
Variable cdc : list loc.

Lemma sim_init_blocked (t : nat) (u : unit) :
  init_blocked cdc t u ~ init_blocked (rl <$> cdc) t u @ eq.
Proof.
  unfold init_blocked.
  eapply sim_bind; [apply sim_lift, sim_index_reloc|]. intros r ? ->.
  eapply sim_bind; [apply sim_deref|]. intros l ? <-.
  apply sim_store.
Qed.

Lemma sim_select_open (acb : list bool) (t : nat) (acc : list layer) :
  select_open cdc acb t acc ~ select_open (rl <$> cdc) acb t acc @ eq.
Proof.
  unfold select_open.
  eapply sim_bind; [apply sim_lift_eq|]. intros b ? <-.
  destruct b; [by apply sim_ret|].
  eapply sim_bind; [apply sim_lift, sim_index_reloc|]. intros r ? ->.
  eapply sim_bind; [apply sim_deref|]. intros l ? <-.
  by apply sim_ret.
Qed.

Lemma sim_block_cand (acb : list bool) (k : nat) (tc : nat * pyidx)
    (nc : list nat) :
  block_cand cdc acb k tc nc ~ block_cand (rl <$> cdc) acb k tc nc @ eq.
Proof.
  unfold block_cand. destruct tc as [t cand].
  eapply sim_bind; [apply sim_lift_eq|]. intros tm ? <-.
  eapply sim_bind; [apply sim_lift, sim_index_reloc|]. intros r ? ->.
  eapply sim_bind; [apply sim_deref|]. intros l ? <-.
  eapply sim_bind; [apply sim_lift_eq|]. intros truth ? <-.
  eapply sim_bind; [apply sim_lift_eq|]. intros n_k ? <-.
  eapply sim_bind; [apply sim_lift_eq|]. intros nc' ? <-.
  eapply sim_bind; [apply sim_lift_eq|]. intros tm' ? <-.
  eapply sim_bind; [apply sim_lift, sim_index_reloc|]. intros r' ? ->.
  eapply sim_bind; [apply sim_deref|]. intros l' ? <-.
  eapply sim_bind; [apply sim_lift_eq|]. intros blocked ? <-.
  eapply sim_bind; [apply sim_lift_eq|]. intros blocked' ? <-.
  eapply sim_bind; [apply sim_store|]. intros _ _ _.
  by apply sim_ret.
Qed.

Lemma sim_update_exhausted (t : nat) (acb : list bool) :
  update_exhausted cdc t acb ~ update_exhausted (rl <$> cdc) t acb @ eq.
Proof.
  unfold update_exhausted.
  eapply sim_bind; [apply sim_lift, sim_index_reloc|]. intros r ? ->.
  eapply sim_bind; [apply sim_deref|]. intros l ? <-.
  eapply sim_bind; [apply sim_lift_eq|]. intros blocked ? <-.
  apply sim_lift_eq.
Qed.

Lemma sim_rerank_round wf cut_off_n_cand kwargs (k : nat) (st : rerank_state) :
  rerank_round cdc wf cut_off_n_cand kwargs k st
  ~ rerank_round (rl <$> cdc) wf cut_off_n_cand kwargs k st @ eq.
Proof.
  unfold rerank_round. rewrite length_fmap.
  eapply (sim_bind eq).
  { apply sim_for_each; [|done]. intros t acc ? <-. apply sim_select_open. }
  intros open ? <-.
  eapply sim_bind; [apply sim_lift_eq|]. intros [path length_] ? <-.
  eapply sim_bind; [apply sim_lift_eq|]. intros _ _ _.
  eapply (sim_bind eq).
  { apply sim_for_each; [|done]. intros tc nc ? <-. apply sim_block_cand. }
  intros nc ? <-.
  eapply (sim_bind eq).
  { apply sim_for_each; [|done]. intros t acb ? <-. apply sim_update_exhausted. }
  intros acb ? <-. by apply sim_ret.
Qed.

Lemma sim_rerank_loop wf cut_off_n_cand kwargs (ks : list nat)
    (st : rerank_state) :
  rerank_loop cdc wf cut_off_n_cand kwargs ks st
  ~ rerank_loop (rl <$> cdc) wf cut_off_n_cand kwargs ks st @ eq.
Proof.
  revert st. induction ks as [|k ks IH]; intros st; simpl.
  { by apply sim_ret. }
  destruct (forallb id (all_cand_blocked st)); [by apply sim_ret|].
  change (bind_M ?m ?f) with (m ≫= f).
  eapply sim_bind; [apply sim_rerank_round|]. intros st' ? <-. apply IH.
Qed.
End Copy.

Lemma sim_perform_reranking (cand_data : list loc) (topk : nat)
    (cut_off_n_cand : cutoff) (weight_function : option weight_function)
    (kwargs : kwargs) :
  Forall (λ r, r < n) cand_data →
  perform_reranking_of_candidates cand_data topk cut_off_n_cand
    weight_function kwargs
  ~ perform_reranking_of_candidates cand_data topk cut_off_n_cand
      weight_function kwargs
  @ eq.
Proof.
  intros Hrefs. unfold perform_reranking_of_candidates.
  eapply sim_bind; [apply (sim_deepcopy_refs [] _ Hrefs)|].
  intros cdc ? ->. rewrite length_fmap.
  eapply sim_bind; [apply sim_lift_eq|]. intros wf ? <-.
  eapply (sim_bind eq).
  { apply sim_for_each; [|done]. intros t u ? <-. apply sim_init_blocked. }
  intros _ _ _.
  eapply sim_bind; [apply sim_rerank_loop|]. intros st ? <-.
  by apply sim_ret.
Qed.
End Sim.

(** C9: the reranking driver never mutates the caller's layers.  It
    works on a deep copy made at call entry: after the call, also when it
    raises, every object that existed before the call is unchanged (all
    fields, in particular any blocked vector), and a later call against
    the same layers, with whatever parameters, returns what it would have
    returned had the earlier call not taken place. *)
Theorem rerank_works_on_a_copy (cand_data : list loc) (topk : nat)
    (cut_off_n_cand : cutoff) (weight_function : option weight_function)
    (kwargs : kwargs) (h : heap) :
  Forall (λ r, r < length h) cand_data →
  let h' := (perform_reranking_of_candidates cand_data topk cut_off_n_cand
               weight_function kwargs h).1 in
  (length h ≤ length h' ∧ ∀ r, r < length h → h' !! r = h !! r)
  ∧ ∀ topk' cut_off_n_cand' weight_function' kwargs',
      (perform_reranking_of_candidates cand_data topk' cut_off_n_cand'
         weight_function' kwargs' h').2
      = (perform_reranking_of_candidates cand_data topk' cut_off_n_cand'
           weight_function' kwargs' h).2.
Proof.
  intros Hrefs h'.
  destruct (frame_perform_reranking (length h) cand_data topk cut_off_n_cand
              weight_function kwargs h (le_n _)) as [Hlen Htake].
  fold h' in Hlen, Htake. rewrite firstn_all in Htake.
  split; [split; [done|]|].
  - intros r Hr. rewrite <- (lookup_take_lt h' (length h) r Hr).
    by rewrite Htake.
  - intros topk' cut_off_n_cand' weight_function' kwargs'.
    symmetry. apply result_rel_eq.
    apply (sim_perform_reranking (length h) (drop (length h) h')
             cand_data topk' cut_off_n_cand' weight_function' kwargs' Hrefs).
    split; [done|].
    rewrite firstn_all, drop_all, app_nil_r.
    rewrite <- Htake at 1. by rewrite take_drop.
Qed.

(** Witness for C9: the scenario, reranked with [topk = 5]. *)
Lemma rerank_works_on_a_copy_witness :
  let h' := (perform_reranking_of_candidates [0; 1] 5 Unbounded
               (Some (_weight_func_max ln_tangent)) scenario_kwargs
               scenario).1 in
  (length scenario ≤ length h'
   ∧ ∀ r, r < length scenario → h' !! r = scenario !! r)
  ∧ ∀ topk' cut_off_n_cand' weight_function' kwargs',
      (perform_reranking_of_candidates [0; 1] topk' cut_off_n_cand'
         weight_function' kwargs' h').2
      = (perform_reranking_of_candidates [0; 1] topk' cut_off_n_cand'
           weight_function' kwargs' scenario).2.
Proof.
  apply (rerank_works_on_a_copy [0; 1] 5 Unbounded
           (Some (_weight_func_max ln_tangent)) scenario_kwargs scenario).
  repeat constructor.
Defined.

(** ** The solver without blocking is the solver that excludes nothing *)

Section NoBlocking.
Variable cand_data : list layer.
Variable weight_fun : weight_function.
Variable cut_off_n_cand : cutoff.
Variable kwds_c : kwargs.

Lemma sp_relax_edge_eq t i s_t_i dW_t_i j tb :
  sp_relax_edge cand_data weight_fun kwds_c t i s_t_i dW_t_i j tb
  = relax_edge cand_data weight_fun false kwds_c t i s_t_i dW_t_i j tb.
Proof. reflexivity. Qed.

Lemma sp_relax_from_eq t n_cand_tp1 i tb :
  sp_relax_from cand_data weight_fun kwds_c t n_cand_tp1 i tb
  = relax_from cand_data weight_fun false kwds_c t n_cand_tp1 i tb.
Proof. reflexivity. Qed.

Lemma sp_forward_step_eq t tb :
  sp_forward_step cand_data weight_fun cut_off_n_cand kwds_c t tb
  = forward_step cand_data weight_fun cut_off_n_cand false kwds_c t tb.
Proof. reflexivity. Qed.

Lemma sp_forward_eq :
  sp_forward cand_data weight_fun cut_off_n_cand kwds_c
  = forward cand_data weight_fun cut_off_n_cand false kwds_c.
Proof. reflexivity. Qed.

Lemma sp_check_layer_eq t rt :
  sp_check_layer cand_data t rt = check_layer cand_data false t rt.
Proof.
  unfold sp_check_layer, check_layer.
  repeat bind_both; reflexivity.
Qed.

Lemma sp_check_cand_data_eq check_input :
  sp_check_cand_data cand_data check_input
  = check_cand_data cand_data check_input false.
Proof.
  unfold sp_check_cand_data, check_cand_data.
  destruct check_input; [|done].
  by rewrite (for_each_ext _ _ _ _ (λ t rt _, sp_check_layer_eq t rt)).
Qed.

(** [shortest_path] and [shortest_path_exclude_candidates] with
    [exclude_blocked_candidates = False] are the same function. *)
Lemma shortest_path_eq check_input :
  shortest_path cand_data weight_fun cut_off_n_cand check_input kwds_c
  = shortest_path_exclude_candidates cand_data weight_fun cut_off_n_cand
      check_input false kwds_c.
Proof.
  unfold shortest_path, shortest_path_exclude_candidates.
  by rewrite sp_check_cand_data_eq, sp_forward_eq.
Qed.
End NoBlocking.

(** ** The forward pass, row by row *)

Lemma map_constant {A B} (x : B) (l : list A) :
  map (λ _, x) l = replicate (length l) x.
Proof. induction l as [|a l IH]; simpl; [done|]. by rewrite IH. Qed.

Lemma map_replicate {A B} (f : A → B) (n : nat) (x : A) :
  map f (replicate n x) = replicate n (f x).
Proof. induction n as [|n IH]; simpl; [done|]. by rewrite IH. Qed.

Lemma init_tables_rows (l_0 : layer) : init_tables l_0 = tables_of [init_row l_0].
Proof.
  unfold init_tables, tables_of, init_row. cbn [map].
  rewrite !map_map. cbn [cS cD cP fst snd].
  by rewrite !map_constant.
Qed.

Lemma assign2_rows {A} (f : cell → A) (rows : list (list cell))
    (pre rest : list cell) (c c' : cell) :
  assign2 (map (map f) (rows ++ [pre ++ c :: rest])) (length rows) (length pre) (f c')
  = Ok (map (map f) (rows ++ [pre ++ c' :: rest])).
Proof.
  unfold assign2, index, assign.
  rewrite !map_app. cbn [map].
  rewrite lookup_app_r by (by rewrite length_map).
  rewrite length_map, Nat.sub_diag. cbn [lookup list_lookup mbind result_bind].
  rewrite decide_True by (rewrite length_map, length_app; simpl; lia).
  cbn [mbind result_bind]. f_equal.
  rewrite insert_app_r_alt by (by rewrite length_map).
  rewrite length_map, Nat.sub_diag. cbn [insert list_insert].
  do 2 f_equal.
  rewrite !map_app. cbn [map].
  rewrite insert_app_r_alt by (by rewrite length_map).
  by rewrite length_map, Nat.sub_diag.
Qed.

Lemma index_last_row {A} (f : cell → A) (rows : list (list cell))
    (row : list cell) :
  index (map (map f) (rows ++ [row])) (length rows) = Ok (map f row).
Proof.
  unfold index. rewrite !map_app. cbn [map].
  rewrite lookup_app_r by (by rewrite length_map).
  by rewrite length_map, Nat.sub_diag.
Qed.

Lemma index_row {A} (f : cell → A) (rows : list (list cell))
    (row : list cell) (t : nat) :
  rows !! t = Some row → index (map (map f) rows) t = Ok (map f row).
Proof. intros Hrow. unfold index. by rewrite list_lookup_fmap, Hrow. Qed.

Lemma index_cell {A} (f : cell → A) (row : list cell) (i : nat) (c : cell) :
  row !! i = Some c → index (map f row) i = Ok (f c).
Proof. intros Hc. unfold index. by rewrite list_lookup_fmap, Hc. Qed.

Lemma dp_rows_S W dWv B N (row_0 : list cell) (n : nat) :
  dp_rows W dWv B N row_0 (S n)
  = dp_rows W dWv B N row_0 n ++ [dp_row W dWv B N row_0 n].
Proof. unfold dp_rows. by rewrite range_S, map_app. Qed.

Lemma length_dp_rows W dWv B N (row_0 : list cell) (n : nat) :
  length (dp_rows W dWv B N row_0 n) = n.
Proof. unfold dp_rows, range. by rewrite length_map, length_seq. Qed.

Lemma lookup_dp_rows W dWv B N (row_0 : list cell) (n t : nat) :
  t < n → dp_rows W dWv B N row_0 n !! t = Some (dp_row W dWv B N row_0 t).
Proof.
  intros Ht. unfold dp_rows, range.
  rewrite list_lookup_fmap, lookup_seq_lt by done. done.
Qed.

Section Forward.
Variable cand_data : list layer.
Variable weight_fun : weight_function.
Variable cut_off_n_cand : cutoff.
Variable exclude_blocked_candidates : bool.
Variable kwds_c : kwargs.

(** The weight function, as a table: weight and order difference of the
    edge from [(t, i)] to [(t + 1, j)]; and the candidates to skip. *)
Variable W dWv : nat → nat → nat → float.
Variable B : nat → nat → bool.

Hypothesis weight_fun_table :
  ∀ t i j l_t l_tp1 dW,
    cand_data !! t = Some l_t → cand_data !! (t + 1) = Some l_tp1 →
    i < n_cand l_t cut_off_n_cand → j < n_cand l_tp1 cut_off_n_cand →
    B t i = false → B (t + 1) j = false →
    weight_fun cand_data (t, i) (t + 1, j) (set_dW_path kwds_c dW)
    = Ok (W t i j, dWv t i j).

Hypothesis skip_blocked_table :
  ∀ t l i,
    cand_data !! t = Some l → i < n_cand l cut_off_n_cand →
    skip_blocked exclude_blocked_candidates cand_data t i = Ok (B t i).

Local Abbreviation N := (n_cand_at cand_data cut_off_n_cand).

Lemma relax_edge_rows (t i : nat) (l_t l_tp1 : layer) (s_t_i dW_t_i : float)
    (rows : list (list cell)) (pre rest : list cell) (c : cell) :
  length rows = t + 1 →
  cand_data !! t = Some l_t → cand_data !! (t + 1) = Some l_tp1 →
  i < n_cand l_t cut_off_n_cand → B t i = false →
  length pre < n_cand l_tp1 cut_off_n_cand →
  relax_edge cand_data weight_fun exclude_blocked_candidates kwds_c
    t i s_t_i dW_t_i (length pre) (tables_of (rows ++ [pre ++ c :: rest]))
  = Ok (tables_of
          (rows ++ [pre ++ (if B (t + 1) (length pre) then c
                            else relax_cell i s_t_i dW_t_i
                                   (W t i (length pre)) (dWv t i (length pre)) c)
                           :: rest])).
Proof.
  intros Hrows Ht Htp1 Hi HBi Hj.
  unfold relax_edge.
  rewrite (skip_blocked_table _ _ _ Htp1 Hj). cbn [mbind result_bind].
  destruct (B (t + 1) (length pre)) eqn:HBj; [done|].
  rewrite (weight_fun_table _ _ _ _ _ _ Ht Htp1 Hi Hj HBi HBj).
  cbn [mbind result_bind]. rewrite <- Hrows.
  cbn [tables_of S_path dW_path parents].
  rewrite index_last_row. cbn [mbind result_bind].
  rewrite (index_cell cS _ _ c) by (by rewrite list_lookup_middle).
  cbn [mbind result_bind]. unfold relax_cell.
  destruct (fgtb (cS c) (fadd s_t_i (W t i (length pre)))); [|done].
  rewrite (assign2_rows cS _ _ _ _
             (fadd s_t_i (W t i (length pre)),
              fadd dW_t_i (dWv t i (length pre)), nat_idx i)).
  cbn [mbind result_bind].
  rewrite (assign2_rows cD _ _ _ _
             (fadd s_t_i (W t i (length pre)),
              fadd dW_t_i (dWv t i (length pre)), nat_idx i)).
  cbn [mbind result_bind].
  rewrite (assign2_rows cP _ _ _ _
             (fadd s_t_i (W t i (length pre)),
              fadd dW_t_i (dWv t i (length pre)), nat_idx i)).
  reflexivity.
Qed.

(** The loop over [j]. *)
Lemma relax_edges_rows (t i : nat) (l_t l_tp1 : layer) (p : cell)
    (rows : list (list cell)) (pre rest : list cell) :
  length rows = t + 1 →
  cand_data !! t = Some l_t → cand_data !! (t + 1) = Some l_tp1 →
  i < n_cand l_t cut_off_n_cand → B t i = false →
  length pre + length rest ≤ n_cand l_tp1 cut_off_n_cand →
  for_each (seq (length pre) (length rest))
    (relax_edge cand_data weight_fun exclude_blocked_candidates kwds_c
       t i (cS p) (cD p))
    (tables_of (rows ++ [pre ++ rest]))
  = Ok (tables_of
          (rows ++ [pre ++ imap (λ j c, if B (t + 1) (length pre + j) then c
                                     else relax_cell i (cS p) (cD p)
                                            (W t i (length pre + j))
                                            (dWv t i (length pre + j)) c)
                                rest])).
Proof.
  intros Hrows Ht Htp1 Hi HBi. revert pre.
  induction rest as [|c rest IH]; intros pre Hlen; [done|].
  cbn [length seq for_each imap] in *.
  rewrite (relax_edge_rows t i l_t l_tp1) by (done || lia).
  cbn [mbind result_bind].
  set (c' := if B (t + 1) (length pre) then c
             else relax_cell i (cS p) (cD p) (W t i (length pre))
                    (dWv t i (length pre)) c).
  specialize (IH (pre ++ [c'])).
  rewrite length_app in IH. cbn [length] in IH.
  rewrite <- !app_assoc in IH. cbn [app] in IH.
  replace (length pre + 1) with (S (length pre)) in IH by lia.
  rewrite IH by lia. rewrite Nat.add_0_r.
  do 6 f_equal. apply imap_ext. intros j c'' _. cbn.
  by replace (S (length pre + j)) with (length pre + S j) by lia.
Qed.

Lemma relax_from_rows (t i : nat) (l_t l_tp1 : layer)
    (rows : list (list cell)) (prev row : list cell) :
  length rows = t + 1 → rows !! t = Some prev →
  cand_data !! t = Some l_t → cand_data !! (t + 1) = Some l_tp1 →
  i < n_cand l_t cut_off_n_cand → i < length prev →
  length row = n_cand l_tp1 cut_off_n_cand →
  relax_from cand_data weight_fun exclude_blocked_candidates kwds_c
    t (n_cand l_tp1 cut_off_n_cand) i (tables_of (rows ++ [row]))
  = Ok (tables_of
          (rows ++ [row_step (W t) (dWv t) (B t) (B (t + 1)) prev row i])).
Proof.
  intros Hrows Hprev Ht Htp1 Hi Hip Hrow.
  unfold relax_from, row_step.
  rewrite (skip_blocked_table _ _ _ Ht Hi). cbn [mbind result_bind].
  destruct (B t i) eqn:HBi; [done|].
  destruct (lookup_lt_is_Some_2 prev i Hip) as [p Hp]. rewrite Hp.
  assert ((rows ++ [row]) !! t = Some prev) as Hprev'.
  { rewrite lookup_app_l; [done|]. lia. }
  cbn [tables_of S_path dW_path parents].
  rewrite (index_row cS _ _ _ Hprev'). cbn [mbind result_bind].
  rewrite (index_cell cS _ _ _ Hp). cbn [mbind result_bind].
  rewrite (index_row cD _ _ _ Hprev'). cbn [mbind result_bind].
  rewrite (index_cell cD _ _ _ Hp). cbn [mbind result_bind].
  pose proof (relax_edges_rows t i l_t l_tp1 p rows [] row Hrows Ht Htp1 Hi HBi)
    as Hloop.
  cbn [length app Nat.add] in Hloop. unfold range. rewrite <- Hrow.
  rewrite Hloop by lia. done.
Qed.

Lemma length_row_step (w dw : nat → nat → float) (b_t b_tp1 : nat → bool)
    (prev row : list cell) (i : nat) :
  length (row_step w dw b_t b_tp1 prev row i) = length row.
Proof.
  unfold row_step, relax_row.
  destruct (b_t i); [done|]. destruct (prev !! i); [|done].
  apply length_imap.
Qed.

(** The loop over [i]. *)
Lemma relax_heads_rows (t : nat) (l_t l_tp1 : layer)
    (rows : list (list cell)) (prev row : list cell) (heads : list nat) :
  length rows = t + 1 → rows !! t = Some prev →
  cand_data !! t = Some l_t → cand_data !! (t + 1) = Some l_tp1 →
  Forall (λ i, i < n_cand l_t cut_off_n_cand ∧ i < length prev) heads →
  length row = n_cand l_tp1 cut_off_n_cand →
  for_each heads
    (relax_from cand_data weight_fun exclude_blocked_candidates kwds_c
       t (n_cand l_tp1 cut_off_n_cand))
    (tables_of (rows ++ [row]))
  = Ok (tables_of
          (rows ++ [foldl (row_step (W t) (dWv t) (B t) (B (t + 1)) prev)
                      row heads])).
Proof.
  intros Hrows Hprev Ht Htp1 Hheads. revert row.
  induction Hheads as [|i heads [Hi Hip] _ IH]; intros row Hrow; [done|].
  cbn [for_each foldl].
  rewrite (relax_from_rows t i l_t l_tp1 rows prev) by done.
  cbn [mbind result_bind]. apply IH. by rewrite length_row_step.
Qed.

Lemma length_next_row (w dw : nat → nat → float) (b_t b_tp1 : nat → bool)
    (prev : list cell) (n_t n_tp1 : nat) :
  length (next_row w dw b_t b_tp1 prev n_t n_tp1) = n_tp1.
Proof.
  unfold next_row.
  assert (∀ heads row,
    length (foldl (row_step w dw b_t b_tp1 prev) row heads) = length row)
    as Hfold.
  { induction heads as [|i heads IH]; intros row; [done|].
    cbn [foldl]. by rewrite IH, length_row_step. }
  rewrite Hfold. apply length_replicate.
Qed.

(** One round of the loop over [t]. *)
Lemma forward_step_rows (t : nat) (l_t l_tp1 : layer)
    (rows : list (list cell)) (prev : list cell) :
  length rows = t + 1 → rows !! t = Some prev →
  cand_data !! t = Some l_t → cand_data !! (t + 1) = Some l_tp1 →
  n_cand l_t cut_off_n_cand ≤ length prev →
  forward_step cand_data weight_fun cut_off_n_cand
    exclude_blocked_candidates kwds_c t (tables_of rows)
  = Ok (tables_of
          (rows ++ [next_row (W t) (dWv t) (B t) (B (t + 1)) prev
                      (n_cand l_t cut_off_n_cand)
                      (n_cand l_tp1 cut_off_n_cand)])).
Proof.
  intros Hrows Hprev Ht Htp1 Hlen.
  unfold forward_step.
  rewrite (proj2 (index_Ok _ _ _) Ht), (proj2 (index_Ok _ _ _) Htp1).
  cbn [mbind result_bind].
  assert ({| S_path := S_path (tables_of rows)
               ++ [replicate (n_cand l_tp1 cut_off_n_cand) PInf];
             dW_path := dW_path (tables_of rows)
               ++ [replicate (n_cand l_tp1 cut_off_n_cand) NInf];
             parents := parents (tables_of rows)
               ++ [replicate (n_cand l_tp1 cut_off_n_cand) NanIdx] |}
          = tables_of (rows ++ [fresh_row (n_cand l_tp1 cut_off_n_cand)]))
    as ->.
  { unfold tables_of, fresh_row. cbn [S_path dW_path parents].
    rewrite !map_app. cbn [map].
    by rewrite !map_replicate. }
  rewrite (relax_heads_rows t l_t l_tp1 rows prev); try done.
  - apply Forall_forall. intros i Hi%elem_of_range. lia.
  - apply length_replicate.
Qed.

Lemma length_dp_row (l_0 : layer) (t : nat) (l_t : layer) :
  cand_data !! 0 = Some l_0 → cand_data !! t = Some l_t →
  n_cand l_t cut_off_n_cand ≤ length (dp_row W dWv B N (init_row l_0) t).
Proof.
  intros H0 Ht. destruct t as [|t].
  - assert (l_t = l_0) as -> by congruence.
    cbn [dp_row]. unfold init_row. rewrite length_map.
    unfold n_cand. destruct cut_off_n_cand; lia.
  - cbn [dp_row]. rewrite length_next_row. unfold n_cand_at. by rewrite Ht.
Qed.

Lemma forward_steps_rows (l_0 : layer) (T : nat) :
  cand_data !! 0 = Some l_0 → T < length cand_data →
  for_each (range T)
    (forward_step cand_data weight_fun cut_off_n_cand
       exclude_blocked_candidates kwds_c)
    (init_tables l_0)
  = Ok (tables_of (dp_rows W dWv B N (init_row l_0) (S T))).
Proof.
  intros H0. induction T as [|T IH]; intros HT.
  { by rewrite init_tables_rows. }
  rewrite range_S, for_each_app, IH by lia. cbn [mbind result_bind for_each].
  destruct (lookup_lt_is_Some_2 cand_data T) as [l_t Ht]; [lia|].
  destruct (lookup_lt_is_Some_2 cand_data (T + 1)) as [l_tp1 Htp1]; [lia|].
  rewrite (forward_step_rows T l_t l_tp1 _
             (dp_row W dWv B N (init_row l_0) T)); try done.
  - cbn [mbind result_bind]. rewrite (dp_rows_S _ _ _ _ _ (S T)). cbn [dp_row].
    replace (T + 1) with (S T) in * by lia.
    unfold n_cand_at. by rewrite Ht, Htp1.
  - rewrite length_dp_rows. lia.
  - apply lookup_dp_rows. lia.
  - by apply length_dp_row.
Qed.

(** The forward pass computes the rows [dp_row 0 .. dp_row (L - 1)]. *)
Lemma forward_rows (l_0 : layer) :
  cand_data !! 0 = Some l_0 →
  forward cand_data weight_fun cut_off_n_cand exclude_blocked_candidates
    kwds_c
  = Ok (tables_of (dp_rows W dWv B N (init_row l_0) (length cand_data))).
Proof.
  intros H0. unfold forward. rewrite (proj2 (index_Ok _ _ _) H0).
  cbn [mbind result_bind].
  assert (0 < length cand_data) as Hlen by (by eapply lookup_lt_Some).
  rewrite (forward_steps_rows l_0) by (done || lia).
  by replace (S (length cand_data - 1)) with (length cand_data) by lia.
Qed.
End Forward.

(** ** One entry of a row *)

Lemma lookup_foldl_row_step (W dWv : nat → nat → float)
    (B_t B_tp1 : nat → bool) (prev row : list cell) (heads : list nat)
    (j : nat) :
  foldl (row_step W dWv B_t B_tp1 prev) row heads !! j
  = (λ c, foldl (cell_step W dWv B_t B_tp1 prev j) c heads) <$> row !! j.
Proof.
  revert row. induction heads as [|i heads IH]; intros row.
  { cbn [foldl]. by destruct (row !! j). }
  cbn [foldl]. rewrite IH.
  destruct (row !! j) as [c|] eqn:Hc.
  - assert (row_step W dWv B_t B_tp1 prev row i !! j
            = Some (cell_step W dWv B_t B_tp1 prev j c i)) as ->; [|done].
    unfold row_step, cell_step.
    destruct (B_t i); [done|]. destruct (prev !! i) as [p|]; [|done].
    unfold relax_row. rewrite list_lookup_imap, Hc.
    cbn [fmap option_fmap option_map]. by destruct (B_tp1 j).
  - assert (row_step W dWv B_t B_tp1 prev row i !! j = None) as ->; [|done].
    apply lookup_ge_None. rewrite length_row_step. by apply lookup_ge_None.
Qed.

Lemma lookup_next_row (W dWv : nat → nat → float) (B_t B_tp1 : nat → bool)
    (prev : list cell) (n_t n_tp1 j : nat) :
  j < n_tp1 →
  next_row W dWv B_t B_tp1 prev n_t n_tp1 !! j
  = Some (foldl (cell_step W dWv B_t B_tp1 prev j) (PInf, NInf, NanIdx)
            (range n_t)).
Proof.
  intros Hj. unfold next_row, fresh_row. rewrite lookup_foldl_row_step.
  by rewrite lookup_replicate_2.
Qed.

Section CellFold.
Variable w : nat → nat → Q.
Variable dWv : nat → nat → float.
Variable B_t B_tp1 : nat → bool.
Variable prev : list cell.
Variable j : nat.

Hypothesis prev_good : ∀ i p, prev !! i = Some p → good (cS p).

Local Abbreviation W := (λ i j, Fin (w i j)).
Local Abbreviation val := (cell_val (λ i, w i j) prev).
Local Abbreviation step := (cell_step W dWv B_t B_tp1 prev j).

Lemma good_cell_val (i : nat) : good (val i).
Proof.
  unfold cell_val. destruct (prev !! i) as [p|] eqn:Hp; [|apply good_PInf].
  apply good_fadd_Fin. by eapply prev_good.
Qed.

Lemma cell_val_PInf_ge (i : nat) : length prev ≤ i → val i = PInf.
Proof. intros Hi. unfold cell_val. by rewrite lookup_ge_None_2. Qed.

Lemma cell_fold_blocked (heads : list nat) (c : cell) :
  B_tp1 j = true → foldl step c heads = c.
Proof.
  intros HB. induction heads as [|i heads IH]; [done|].
  cbn [foldl]. unfold cell_step at 2. rewrite HB.
  destruct (B_t i); [done|]. by destruct (prev !! i).
Qed.

Lemma first_minimum_step (n : nat) (c : cell) :
  B_tp1 j = false →
  first_minimum (λ i, w i j) B_t prev n c →
  first_minimum (λ i, w i j) B_t prev (S n) (step c n).
Proof.
  intros HBj Hc. unfold cell_step. rewrite HBj.
  destruct (B_t n) eqn:HBn.
  { (* head [n] is skipped *)
    destruct Hc as [(HS & HP & Hall)|(q & i_0 & HS & HP & Hi0 & Hlen & HB0 & Hv & Hle & Hlt)].
    - left. split; [done|]. split; [done|]. intros i Hi HBi.
      destruct (decide (i = n)) as [->|]; [congruence|]. apply Hall; [lia|done].
    - right. exists q, i_0. repeat split; try done; [lia|].
      intros i Hi HBi.
      destruct (decide (i = n)) as [->|]; [congruence|]. apply Hle; [lia|done]. }
  destruct (prev !! n) as [p|] eqn:Hp.
  2: { (* no such head *)
    assert (val n = PInf) as Hvn by (unfold cell_val; by rewrite Hp).
    destruct Hc as [(HS & HP & Hall)|(q & i_0 & HS & HP & Hi0 & Hlen & HB0 & Hv & Hle & Hlt)].
    - left. split; [done|]. split; [done|]. intros i Hi HBi.
      destruct (decide (i = n)) as [->|]; [done|]. apply Hall; [lia|done].
    - right. exists q, i_0. repeat split; try done; [lia|].
      intros i Hi HBi.
      destruct (decide (i = n)) as [->|]; [by rewrite Hvn|].
      apply Hle; [lia|done]. }
  assert (val n = fadd (cS p) (Fin (w n j))) as Hvn
    by (unfold cell_val; by rewrite Hp).
  assert (n < length prev) as Hnlen by (by eapply lookup_lt_Some).
  pose proof (good_cell_val n) as Hgood.
  unfold relax_cell. rewrite <- Hvn. unfold fgtb.
  destruct Hc as [(HS & HP & Hall)|(q & i_0 & HS & HP & Hi0 & Hlen & HB0 & Hv & Hle & Hlt)].
  - rewrite HS.
    destruct (fltb (val n) PInf) eqn:Hcmp.
    + apply fltb_Fin_PInf in Hcmp as [q Hq]; [|done].
      right. exists q, n. cbn [cS cP fst snd].
      repeat split; try done; [lia| |].
      * intros i Hi HBi. destruct (decide (i = n)) as [->|].
        -- rewrite Hq. apply fleb_refl_good, good_Fin.
        -- rewrite Hall by (lia || done). done.
      * intros i Hi HBi. rewrite Hall by (lia || done). done.
    + left. split; [done|]. split; [done|]. intros i Hi HBi.
      destruct (decide (i = n)) as [->|]; [|apply Hall; [lia|done]].
      destruct Hgood as [->|[q Hq]]; [done|]. rewrite Hq in Hcmp. done.
  - rewrite HS.
    destruct (fltb (val n) (Fin q)) eqn:Hcmp.
    + destruct Hgood as [Hinf|[q' Hq']]; [by rewrite Hinf in Hcmp|].
      right. exists q', n. cbn [cS cP fst snd]. rewrite Hq' in Hcmp.
      repeat split; try done; [lia| |].
      * intros i Hi HBi. destruct (decide (i = n)) as [->|].
        -- rewrite Hq'. apply fleb_refl_good, good_Fin.
        -- apply fltb_fleb. eapply fltb_fleb_trans; [exact Hcmp|].
           apply Hle; [lia|done].
      * intros i Hi HBi. eapply fltb_fleb_trans; [exact Hcmp|].
        apply Hle; [lia|done].
    + right. exists q, i_0. repeat split; try done; [lia|].
      intros i Hi HBi. destruct (decide (i = n)) as [->|].
      * apply not_fltb_fleb; [done|apply good_Fin|done].
      * apply Hle; [lia|done].
Qed.

(** The entry after the loop over the heads [0 .. n-1]. *)
Lemma first_minimum_fold (n : nat) :
  B_tp1 j = false →
  first_minimum (λ i, w i j) B_t prev n
    (foldl step (PInf, NInf, NanIdx) (range n)).
Proof.
  intros HBj. induction n as [|n IH].
  { left. split; [done|]. split; [done|]. intros i Hi. lia. }
  rewrite range_S, foldl_app. cbn [foldl].
  by apply first_minimum_step.
Qed.
End CellFold.

(** ** The rows of the dynamic program *)

Lemma py_get_nat_idx {A} (l : list A) (k : nat) : py_get l (nat_idx k) = index l k.
Proof.
  unfold py_get, nat_idx, py_pos, index.
  rewrite (proj2 (Z.leb_le 0 (Z.of_nat k))) by lia.
  destruct (Z.ltb_spec (Z.of_nat k) (Z.of_nat (length l))) as [Hlt|Hge].
  - by rewrite Nat2Z.id.
  - by rewrite lookup_ge_None_2 by lia.
Qed.

Lemma py_get_last {A} (l : list A) (x : A) : py_get (l ++ [x]) (Idx (-1)) = Ok x.
Proof.
  unfold py_get, py_pos, index. rewrite length_app. cbn [length Z.leb Z.compare].
  rewrite (proj2 (Z.leb_le 0 _)) by lia.
  replace (Z.to_nat (Z.of_nat (length l + 1) + -1)) with (length l) by lia.
  by rewrite list_lookup_middle.
Qed.

Lemma pyidx_eqb_nat_idx (k : nat) : pyidx_eqb (nat_idx k) (Idx (-1)) = false.
Proof. unfold pyidx_eqb, nat_idx. apply Z.eqb_neq. lia. Qed.

Section Rows.
Variable w : nat → nat → nat → Q.
Variable dWv : nat → nat → nat → float.
Variable B : nat → nat → bool.
Variable N : nat → nat.
Variable row_0 : list cell.

Hypothesis row_0_finite :
  ∀ j c, row_0 !! j = Some c → is_fin (cS c) ∧ cP c = Idx (-1).

Local Abbreviation W := (λ t i j, Fin (w t i j)).
Local Abbreviation rows := (dp_row W dWv B N row_0).

Lemma length_rows_S (t : nat) : length (rows (S t)) = N (S t).
Proof. cbn [dp_row]. apply length_next_row. Qed.

Lemma lookup_rows_S (t j : nat) (c : cell) :
  rows (S t) !! j = Some c →
  j < N (S t)
  ∧ c = foldl (cell_step (W t) (dWv t) (B t) (B (S t)) (rows t) j)
          (PInf, NInf, NanIdx) (range (N t)).
Proof.
  intros Hc. assert (j < N (S t)) as Hj.
  { rewrite <- length_rows_S. by eapply lookup_lt_Some. }
  split; [done|]. cbn [dp_row] in Hc.
  rewrite lookup_next_row in Hc by done. congruence.
Qed.

Lemma good_rows (t j : nat) (c : cell) : rows t !! j = Some c → good (cS c).
Proof.
  revert j c. induction t as [|t IH]; intros j c Hc.
  { right. by apply (row_0_finite j). }
  apply lookup_rows_S in Hc as [Hj ->].
  destruct (B (S t) j) eqn:HB.
  - rewrite cell_fold_blocked by done. apply good_PInf.
  - destruct (first_minimum_fold (w t) (dWv t) (B t) (B (S t)) (rows t) j
                IH (N t) HB)
      as [(HS & _)|(q & i_0 & HS & _)]; rewrite HS;
      [apply good_PInf|apply good_Fin].
Qed.

(** An entry of a later row that was never relaxed. *)
Lemma unreached_entry (t j : nat) (c : cell) :
  rows (S t) !! j = Some c → ¬ is_fin (cS c) →
  cS c = PInf ∧ cP c = NanIdx.
Proof.
  intros Hc Hinf. apply lookup_rows_S in Hc as [Hj ->].
  destruct (B (S t) j) eqn:HB.
  - by rewrite cell_fold_blocked.
  - destruct (first_minimum_fold (w t) (dWv t) (B t) (B (S t)) (rows t) j
                (good_rows t) (N t) HB)
      as [(HS & HP & _)|(q & i_0 & HS & _)]; [done|].
    exfalso. apply Hinf. rewrite HS. by exists q.
Qed.

(** An entry of a later row with a finite cost: it is not skipped, and
    its parent is a retained head that is not skipped and itself has a
    finite cost; no head does better and no earlier head does as well. *)
Lemma reached_entry (t j : nat) (c : cell) (q : Q) :
  rows (S t) !! j = Some c → cS c = Fin q →
  B (S t) j = false
  ∧ ∃ i_0 p q_0,
      cP c = nat_idx i_0 ∧ i_0 < N t ∧ B t i_0 = false
      ∧ rows t !! i_0 = Some p ∧ cS p = Fin q_0
      ∧ Fin q = fadd (cS p) (Fin (w t i_0 j))
      ∧ (∀ i p', i < N t → B t i = false → rows t !! i = Some p' →
           fleb (Fin q) (fadd (cS p') (Fin (w t i j))) = true)
      ∧ (∀ i p', i < i_0 → B t i = false → rows t !! i = Some p' →
           fltb (Fin q) (fadd (cS p') (Fin (w t i j))) = true).
Proof.
  intros Hc HS. apply lookup_rows_S in Hc as [Hj ->].
  destruct (B (S t) j) eqn:HB.
  { by rewrite cell_fold_blocked in HS. }
  split; [done|].
  destruct (first_minimum_fold (w t) (dWv t) (B t) (B (S t)) (rows t) j
              (good_rows t) (N t) HB)
    as [(HS' & _)|(q' & i_0 & HS' & HP & Hi0 & Hlen & HB0 & Hv & Hle & Hlt)];
    [congruence|].
  assert (q' = q) as -> by congruence.
  destruct (lookup_lt_is_Some_2 _ _ Hlen) as [p Hp].
  unfold cell_val in Hv. rewrite Hp in Hv.
  assert (∃ q_0, cS p = Fin q_0) as [q_0 Hq0].
  { destruct (good_rows _ _ _ Hp) as [Hinf|[q_0 Hq0]]; [|by exists q_0].
    by rewrite Hinf in Hv. }
  exists i_0, p, q_0. split_and!; try done.
  - intros i p' Hi HBi Hp'. specialize (Hle i Hi HBi).
    unfold cell_val in Hle. by rewrite Hp' in Hle.
  - intros i p' Hi HBi Hp'. specialize (Hlt i Hi HBi).
    unfold cell_val in Hlt. by rewrite Hp' in Hlt.
Qed.

Lemma parent_of_reached (t j : nat) :
  finite_at (rows (S t)) j →
  finite_at (rows t) (parent_of (rows (S t)) j)
  ∧ (cP <$> rows (S t) !! j) = Some (nat_idx (parent_of (rows (S t)) j)).
Proof.
  intros (c & q & Hc & HS).
  destruct (reached_entry t j c q Hc HS)
    as (_ & i_0 & p & q_0 & HP & _ & _ & Hp & Hq0 & _).
  assert (parent_of (rows (S t)) j = i_0) as ->.
  { unfold parent_of. rewrite Hc. cbn [fmap option_fmap option_map].
    rewrite HP. unfold nat_idx. apply Nat2Z.id. }
  split; [by exists p, q_0|]. rewrite Hc. cbn [fmap option_fmap option_map].
  by rewrite HP.
Qed.

(** ** Following the parents *)

Lemma index_parents (L t : nat) :
  t < L →
  index (map (map cP) (dp_rows W dWv B N row_0 L)) t = Ok (map cP (rows t)).
Proof. intros Ht. apply index_row. by apply lookup_dp_rows. Qed.

Lemma backtrack_path (L t j fuel : nat) (nodes : list pyidx) :
  t < L → finite_at (rows t) j → t < fuel →
  backtrack fuel (map (map cP) (dp_rows W dWv B N row_0 L)) (Z.of_nat t)
    (nodes ++ [nat_idx j])
  = Ok (nodes ++ map nat_idx (rev (path_to rows t j))).
Proof.
  revert j fuel nodes. induction t as [|t IH]; intros j fuel nodes HL Hfin Hfuel.
  - destruct fuel as [|fuel]; [lia|]. cbn [backtrack].
    change (Idx (Z.of_nat 0)) with (nat_idx 0).
    rewrite py_get_nat_idx, index_parents by done. cbn [mbind result_bind].
    rewrite py_get_last. cbn [mbind result_bind].
    destruct Hfin as (c & q & Hc & _).
    rewrite py_get_nat_idx, (index_cell cP _ _ _ Hc). cbn [mbind result_bind].
    destruct (row_0_finite _ _ Hc) as [_ ->]. done.
  - destruct fuel as [|fuel]; [lia|]. cbn [backtrack].
    change (Idx (Z.of_nat (S t))) with (nat_idx (S t)).
    rewrite py_get_nat_idx, index_parents by done. cbn [mbind result_bind].
    rewrite py_get_last. cbn [mbind result_bind].
    destruct (parent_of_reached t j Hfin) as [Hfin' Hpar].
    rewrite py_get_nat_idx. unfold index. rewrite list_lookup_fmap, Hpar.
    cbn [mbind result_bind]. rewrite pyidx_eqb_nat_idx.
    replace (Z.of_nat (S t) - 1)%Z with (Z.of_nat t) by lia.
    rewrite IH by (done || lia).
    cbn [path_to]. rewrite rev_unit, <- app_assoc. done.
Qed.

(** An entry that was never relaxed stops the backtracking with an
    exception: its parent is [nan]. *)
Lemma backtrack_nan (L t j fuel : nat) (c : cell) :
  S t < L → rows (S t) !! j = Some c → ¬ is_fin (cS c) → 1 < fuel →
  backtrack fuel (map (map cP) (dp_rows W dWv B N row_0 L)) (Z.of_nat (S t))
    [nat_idx j]
  = Raise TypeError.
Proof.
  intros HL Hc Hinf Hfuel.
  destruct fuel as [|[|fuel]]; [lia|lia|]. cbn [backtrack].
  change (Idx (Z.of_nat (S t))) with (nat_idx (S t)).
  rewrite py_get_nat_idx, index_parents by done. cbn [mbind result_bind].
  rewrite (py_get_last [] (nat_idx j) : py_get [nat_idx j] _ = _).
  cbn [mbind result_bind].
  rewrite py_get_nat_idx, (index_cell cP _ _ _ Hc). cbn [mbind result_bind].
  destruct (unreached_entry t j c Hc Hinf) as [_ ->].
  cbn [pyidx_eqb app].
  replace (Z.of_nat (S t) - 1)%Z with (Z.of_nat t) by lia.
  change (Idx (Z.of_nat t)) with (nat_idx t).
  rewrite py_get_nat_idx, index_parents by lia. cbn [mbind result_bind].
  rewrite (py_get_last [nat_idx j] NanIdx : py_get [nat_idx j; NanIdx] _ = _).
  done.
Qed.

(** ** The terminal node and the path *)

Lemma last_row_costs (L : nat) :
  py_get (S_path (tables_of (dp_rows W dWv B N row_0 (S L)))) (Idx (-1))
  = Ok (map cS (rows L)).
Proof.
  cbn [tables_of S_path]. rewrite dp_rows_S, map_app. cbn [map].
  apply py_get_last.
Qed.

Lemma extract_path_finite (L a : nat) :
  np_argmin (map cS (rows L)) = Ok a → finite_at (rows L) a →
  extract_path (S L) (tables_of (dp_rows W dWv B N row_0 (S L)))
  = Ok (map nat_idx (path_to rows L a), default NaN (cS <$> rows L !! a)).
Proof.
  intros Ha Hfin. unfold extract_path.
  rewrite last_row_costs. cbn [mbind result_bind]. rewrite Ha.
  cbn [mbind result_bind].
  destruct Hfin as (c & q & Hc & HS).
  rewrite py_get_nat_idx, (index_cell cS _ _ _ Hc). cbn [mbind result_bind].
  replace (Z.of_nat (S L) - 1)%Z with (Z.of_nat L) by lia.
  cbn [tables_of parents].
  rewrite (backtrack_path (S L) L a _ []); [| lia | by exists c, q |].
  - cbn [mbind result_bind app]. rewrite <- map_rev, rev_involutive.
    by rewrite Hc.
  - unfold backtrack_bound. rewrite length_map, length_dp_rows. lia.
Qed.

Lemma extract_path_unreached (L a : nat) (c : cell) :
  np_argmin (map cS (rows (S L))) = Ok a →
  rows (S L) !! a = Some c → ¬ is_fin (cS c) →
  extract_path (S (S L)) (tables_of (dp_rows W dWv B N row_0 (S (S L))))
  = Raise TypeError.
Proof.
  intros Ha Hc Hinf. unfold extract_path.
  rewrite last_row_costs. cbn [mbind result_bind]. rewrite Ha.
  cbn [mbind result_bind].
  rewrite py_get_nat_idx, (index_cell cS _ _ _ Hc). cbn [mbind result_bind].
  replace (Z.of_nat (S (S L)) - 1)%Z with (Z.of_nat (S L)) by lia.
  cbn [tables_of parents].
  rewrite (backtrack_nan (S (S L)) L a _ c); [done|lia|done|done|].
  unfold backtrack_bound. rewrite length_map, length_dp_rows. lia.
Qed.

(** ** The path read off the parents *)

Lemma length_path_to (t j : nat) : length (path_to rows t j) = S t.
Proof.
  revert j. induction t as [|t IH]; intros j; [done|].
  cbn [path_to]. rewrite length_app, IH. cbn [length]. lia.
Qed.

Lemma path_to_last (t j : nat) : path_to rows t j !! t = Some j.
Proof.
  destruct t as [|t]; [done|]. cbn [path_to].
  rewrite lookup_app_r by (rewrite length_path_to; lia).
  rewrite length_path_to. by replace (S t - S t) with 0 by lia.
Qed.

(** Consecutive nodes of the path are linked by the parent table, and
    all of them hold a finite cost. *)
Lemma path_to_steps (t j t' i j' : nat) :
  finite_at (rows t) j →
  path_to rows t j !! t' = Some i → path_to rows t j !! S t' = Some j' →
  finite_at (rows (S t')) j' ∧ i = parent_of (rows (S t')) j'.
Proof.
  revert j. induction t as [|t IH]; intros j Hfin Hi Hj'.
  { apply lookup_lt_Some in Hj'. cbn [path_to length] in Hj'. lia. }
  cbn [path_to] in Hi, Hj'.
  destruct (parent_of_reached t j Hfin) as [Hfin' _].
  destruct (decide (S t' < S t)) as [Hlt|Hge].
  - rewrite lookup_app_l in Hi by (rewrite length_path_to; lia).
    rewrite lookup_app_l in Hj' by (rewrite length_path_to; lia).
    by apply (IH (parent_of (rows (S t)) j)).
  - assert (S t' < S (S t)) as Hlen.
    { apply lookup_lt_Some in Hj'.
      rewrite length_app, length_path_to in Hj'. cbn [length] in Hj'. lia. }
    assert (t' = t) as -> by lia.
    rewrite lookup_app_l in Hi by (rewrite length_path_to; lia).
    rewrite path_to_last in Hi.
    rewrite lookup_app_r in Hj' by (rewrite length_path_to; lia).
    rewrite length_path_to in Hj'.
    replace (S t - S t) with 0 in Hj' by lia. cbn [lookup list_lookup] in Hj'.
    split; congruence.
Qed.

(** ** The outcome of the extraction *)

(** Either the terminal node was never reached, and following its [nan]
    parent raises, or the path to the first cheapest terminal node is
    returned with its cost. *)
Lemma extract_path_cases (L : nat) :
  rows L ≠ [] →
  extract_path (S L) (tables_of (dp_rows W dWv B N row_0 (S L)))
  = Raise TypeError
  ∨ ∃ a q,
      first_min (map cS (rows L)) a (Fin q) ∧ finite_at (rows L) a
      ∧ extract_path (S L) (tables_of (dp_rows W dWv B N row_0 (S L)))
        = Ok (map nat_idx (path_to rows L a), Fin q).
Proof.
  intros Hne.
  destruct (np_argmin_spec (map cS (rows L)))
    as (a & va & Ha & Hva & Hle & Hlt).
  { apply Forall_forall. intros v Hv.
    apply list_elem_of_fmap in Hv as (c & -> & Hc).
    apply list_elem_of_lookup in Hc as [k Hk]. by eapply good_rows. }
  { by destruct (rows L). }
  rewrite list_lookup_fmap in Hva.
  destruct (rows L !! a) as [c|] eqn:Hc; [|done].
  cbn [fmap option_fmap option_map] in Hva.
  assert (cS c = va) as HS by congruence.
  destruct (good_rows _ _ _ Hc) as [Hinf|[q Hq]].
  - left. destruct L as [|L].
    + destruct (row_0_finite _ _ Hc) as [[q Hq] _]. congruence.
    + apply (extract_path_unreached L a c); [done|done|].
      intros [q Hq]. congruence.
  - right. exists a, q.
    assert (finite_at (rows L) a) as Hfin by (by exists c, q).
    split_and!; [|done|].
    + unfold first_min. rewrite list_lookup_fmap, Hc.
      cbn [fmap option_fmap option_map]. rewrite Hq.
      rewrite <- Hq, HS. split_and!; [congruence|done|done].
    + rewrite (extract_path_finite L a Ha Hfin), Hc.
      cbn [fmap option_fmap option_map default]. by rewrite Hq.
Qed.

(** ** The costs of paths *)

(** No head reaches an entry at less than its cost. *)
Lemma entry_le (t j : nat) (c : cell) :
  rows (S t) !! j = Some c → B (S t) j = false →
  ∀ i p, i < N t → B t i = false → rows t !! i = Some p →
    fleb (cS c) (fadd (cS p) (Fin (w t i j))) = true.
Proof.
  intros Hc HB i p Hi HBi Hp. apply lookup_rows_S in Hc as [Hj ->].
  destruct (first_minimum_fold (w t) (dWv t) (B t) (B (S t)) (rows t) j
              (good_rows t) (N t) HB)
    as [(HS & _ & Hall)|(q & i_0 & HS & _ & _ & _ & _ & _ & Hle & _)];
    rewrite HS.
  - specialize (Hall i Hi HBi). unfold cell_val in Hall.
    rewrite Hp in Hall. by rewrite Hall.
  - specialize (Hle i Hi HBi). unfold cell_val in Hle. by rewrite Hp in Hle.
Qed.

Lemma good_walk (p : list nat) (t i : nat) (acc : float) :
  good acc → good (walk W t i acc p).
Proof.
  revert t i acc. induction p as [|j p IH]; intros t i acc Hacc; [done|].
  cbn [walk]. by apply IH, good_fadd_Fin.
Qed.

Lemma walk_snoc (p : list nat) (t i j : nat) (acc : float) :
  walk W t i acc (p ++ [j])
  = fadd (walk W t i acc p) (W (t + length p) (default i (last p)) j).
Proof.
  revert t i acc. induction p as [|x p IH]; intros t i acc.
  { cbn [app walk length last default]. by rewrite Nat.add_0_r. }
  cbn [app walk length]. rewrite IH, last_cons.
  replace (S t + length p) with (t + S (length p)) by lia.
  by destruct (last p).
Qed.

(** The cost stored in an entry is the cost of the path that the parents
    describe. *)
Lemma cost_path_to (t j : nat) :
  finite_at (rows t) j →
  cS <$> rows t !! j
  = Some (walk_path W (λ i, default NaN (cS <$> row_0 !! i))
            (path_to rows t j)).
Proof.
  revert j. induction t as [|t IH]; intros j Hfin.
  { destruct Hfin as (c & q & Hc & _). cbn [dp_row] in Hc.
    cbn [path_to walk_path walk dp_row]. by rewrite Hc. }
  destruct Hfin as (c & q & Hc & HS).
  destruct (reached_entry t j c q Hc HS)
    as (_ & i_0 & p & q_0 & HP & _ & _ & Hp & Hq0 & Hq & _).
  assert (parent_of (rows (S t)) j = i_0) as Hpar.
  { unfold parent_of. rewrite Hc. cbn [fmap option_fmap option_map].
    rewrite HP. unfold nat_idx. apply Nat2Z.id. }
  assert (finite_at (rows t) i_0) as Hfin0 by (by exists p, q_0).
  specialize (IH i_0 Hfin0). rewrite Hp in IH.
  cbn [fmap option_fmap option_map] in IH.
  cbn [path_to]. rewrite Hpar.
  pose proof (length_path_to t i_0) as Hlen.
  pose proof (path_to_last t i_0) as Hlast.
  destruct (path_to rows t i_0) as [|i p'] eqn:Hpath; [done|].
  cbn [length] in Hlen. cbn [app walk_path]. cbn [walk_path] in IH.
  rewrite walk_snoc. rewrite Hc. cbn [fmap option_fmap option_map].
  assert (default i (last p') = i_0) as ->.
  { destruct t as [|t].
    - destruct p'; [|done]. cbn in Hlast. cbn. congruence.
    - rewrite last_lookup.
      replace (pred (length p')) with t by lia.
      change (p' !! t = Some i_0) in Hlast. by rewrite Hlast. }
  replace (0 + length p') with t by lia.
  f_equal. rewrite HS, Hq. f_equal. congruence.
Qed.

Lemma fleb_fadd_Fin (a b : float) (q : Q) :
  good a → good b → fleb a b = true →
  fleb (fadd a (Fin q)) (fadd b (Fin q)) = true.
Proof.
  intros [->|[x ->]] [->|[y ->]]; cbn [fadd fleb]; try done.
  rewrite !Qle_bool_iff. intros Hxy. lra.
Qed.

(** The cost of an entry is a lower bound for the cost of every path
    that reaches it through retained candidates that are not skipped. *)
Lemma walk_lower_bound (p : list nat) (t i : nat) (acc : float) (c_i : cell) :
  rows t !! i = Some c_i → fleb (cS c_i) acc = true → good acc →
  i < N t → B t i = false →
  (∀ k j, p !! k = Some j → j < N (S t + k) ∧ B (S t + k) j = false) →
  ∃ c, rows (t + length p) !! default i (last p) = Some c
       ∧ fleb (cS c) (walk W t i acc p) = true.
Proof.
  revert t i acc c_i.
  induction p as [|j p IH]; intros t i acc c_i Hc Hle Hacc Hi HBi Hp.
  { exists c_i. cbn [length last default walk]. by rewrite Nat.add_0_r. }
  destruct (Hp 0 j eq_refl) as [Hj HBj]. rewrite Nat.add_0_r in Hj, HBj.
  destruct (lookup_lt_is_Some_2 (rows (S t)) j) as [c_j Hc_j].
  { by rewrite length_rows_S. }
  cbn [walk length]. rewrite last_cons.
  replace (t + S (length p)) with (S t + length p) by lia.
  destruct (IH (S t) j (fadd acc (Fin (w t i j))) c_j) as (c & Hc' & Hle');
    try done.
  - eapply fleb_trans; [by eapply entry_le|].
    apply fleb_fadd_Fin; [by eapply good_rows|done|done].
  - by apply good_fadd_Fin.
  - intros k j' Hk. destruct (Hp (S k) j' Hk) as [? ?].
    by replace (S (S t) + k) with (S t + S k) by lia.
  - exists c. split; [|done]. by destruct (last p).
Qed.

(** ** The nodes of the returned path *)

Lemma parent_of_idx (row : list cell) (j : nat) (c : cell) (i_0 : nat) :
  row !! j = Some c → cP c = nat_idx i_0 → parent_of row j = i_0.
Proof.
  intros Hc HP. unfold parent_of. rewrite Hc.
  cbn [fmap option_fmap option_map]. rewrite HP. unfold nat_idx.
  apply Nat2Z.id.
Qed.

(** With two layers or more, every node of the path is a retained
    candidate that is not skipped. *)
Lemma path_to_eligible (L a t i : nat) :
  0 < L → finite_at (rows L) a → path_to rows L a !! t = Some i →
  i < N t ∧ B t i = false.
Proof.
  intros HL Hfin Hi.
  assert (t < S L) as Ht.
  { rewrite <- (length_path_to L a). by eapply lookup_lt_Some. }
  destruct (decide (t < L)) as [Hlt|Hge].
  - destruct (lookup_lt_is_Some_2 (path_to rows L a) (S t)) as [j' Hj'].
    { rewrite length_path_to. lia. }
    destruct (path_to_steps L a t i j' Hfin Hi Hj') as [(c & q & Hc & HS) ->].
    destruct (reached_entry t j' c q Hc HS)
      as (_ & i_0 & p & q_0 & HP & Hi0 & HB0 & _).
    by rewrite (parent_of_idx _ _ _ _ Hc HP).
  - assert (t = L) as -> by lia. rewrite path_to_last in Hi.
    assert (i = a) as -> by congruence.
    destruct L as [|L]; [lia|]. destruct Hfin as (c & q & Hc & HS).
    destruct (reached_entry L a c q Hc HS) as (HB & _).
    split; [by apply (lookup_rows_S L a c)|done].
Qed.

(** ** Layers without a usable candidate *)

Lemma dead_row_step (t : nat) :
  (∀ i p, i < N t → B t i = false → rows t !! i = Some p → cS p = PInf) →
  ∀ j c, rows (S t) !! j = Some c → cS c = PInf.
Proof.
  intros Hdead j c Hc.
  destruct (good_rows _ _ _ Hc) as [?|[q Hq]]; [done|].
  destruct (reached_entry t j c q Hc Hq)
    as (_ & i_0 & p & q_0 & _ & Hi0 & HB0 & Hp & Hq0 & _).
  rewrite (Hdead i_0 p Hi0 HB0 Hp) in Hq0. done.
Qed.

(** When all retained candidates of a layer are skipped, no entry of the
    last row is reached. *)
Lemma all_skipped_unreached (t L : nat) :
  t ≤ L → 0 < L → (∀ i, i < N t → B t i = true) →
  ∀ j c, rows L !! j = Some c → cS c = PInf.
Proof.
  intros HtL HL Hskip.
  assert (∀ d j c, rows (S (t + d)) !! j = Some c → cS c = PInf) as Hlater.
  { induction d as [|d IH]; intros j c Hc.
    - rewrite Nat.add_0_r in Hc. eapply dead_row_step; [|done].
      intros i p Hi HBi. rewrite Hskip in HBi by done. done.
    - replace (t + S d) with (S (t + d)) in Hc by lia.
      eapply dead_row_step; [|done]. intros i p _ _ Hp. by eapply IH. }
  destruct (decide (t = L)) as [->|Hne].
  - destruct L as [|L]; [lia|]. intros j c Hc.
    pose proof (lookup_rows_S L j c Hc) as [Hj ->].
    rewrite cell_fold_blocked; [done|]. by apply Hskip.
  - replace L with (S (t + (L - t - 1))) by lia. apply Hlater.
Qed.

Lemma extract_path_all_skipped (t L : nat) :
  t ≤ L → 0 < L → rows L ≠ [] → (∀ i, i < N t → B t i = true) →
  extract_path (S L) (tables_of (dp_rows W dWv B N row_0 (S L)))
  = Raise TypeError.
Proof.
  intros HtL HL Hne Hskip.
  destruct (extract_path_cases L Hne) as [?|(a & q & _ & Hfin & _)]; [done|].
  destruct Hfin as (c & q' & Hc & HS).
  rewrite (all_skipped_unreached t L HtL HL Hskip a c Hc) in HS. done.
Qed.

(** ** Weights that do not depend on the head *)

Section HeadFirst.
Variable L : nat.
Hypothesis N_pos : ∀ t, t ≤ L → 0 < N t.
Hypothesis N_row_0 : N 0 ≤ length row_0.
Hypothesis none_skipped : ∀ t i, B t i = false.
Hypothesis same_for_heads :
  ∀ t i j, t < L → i < N t → j < N (S t) → (w t i j == w t 0 j)%Q.
Hypothesis first_tail_cheapest :
  ∀ t j, t < L → j < N (S t) → (w t 0 0 <= w t 0 j)%Q.
Hypothesis row_0_ascending :
  ∀ j c c_0, row_0 !! 0 = Some c_0 → row_0 !! j = Some c →
    fleb (cS c_0) (cS c) = true.

(** In every row the first entry is the cheapest, and from the second
    row on every parent is candidate 0. *)
Lemma head_first_rows (t : nat) :
  t ≤ L →
  ∃ c_0 q_0,
    rows t !! 0 = Some c_0 ∧ cS c_0 = Fin q_0
    ∧ (∀ j c, rows t !! j = Some c → fleb (cS c_0) (cS c) = true)
    ∧ (0 < t → ∀ j c, rows t !! j = Some c → cP c = nat_idx 0).
Proof.
  induction t as [|t IH]; intros Ht.
  { destruct (lookup_lt_is_Some_2 row_0 0) as [c_0 Hc0].
    { pose proof (N_pos 0 Ht). lia. }
    destruct (row_0_finite _ _ Hc0) as [[q_0 Hq0] _].
    exists c_0, q_0. cbn [dp_row]. split_and!; try done.
    - intros j c. by apply row_0_ascending.
    - lia. }
  destruct IH as (c_0 & q_0 & Hc0 & Hq0 & Hasc & _); [lia|].
  assert (∀ j c, rows (S t) !! j = Some c →
            cS c = Fin (q_0 + w t 0 j) ∧ cP c = nat_idx 0) as Hcells.
  { intros j c Hc.
    assert (j < N (S t)) as Hj by (by apply (lookup_rows_S t j c)).
    destruct (good_rows _ _ _ Hc) as [Hinf|[q Hq]].
    { pose proof (entry_le t j c Hc (none_skipped _ _) 0 c_0
                    (N_pos t ltac:(lia)) (none_skipped _ _) Hc0) as Hle.
      rewrite Hinf, Hq0 in Hle. done. }
    destruct (reached_entry t j c q Hc Hq)
      as (_ & i_0 & p & q_i & HP & Hi0 & _ & Hp & Hqi & Hsum & _ & Hlt).
    destruct (decide (i_0 = 0)) as [->|Hne].
    { assert (p = c_0) as -> by congruence.
      rewrite Hq, Hsum, Hq0. done. }
    exfalso.
    pose proof (Hlt 0 c_0 ltac:(lia) (none_skipped _ _) Hc0) as Hstrict.
    pose proof (Hasc i_0 p Hp) as Hle.
    rewrite Hq0 in Hstrict, Hle. rewrite Hqi in Hle, Hsum.
    cbn [fadd] in Hstrict, Hsum. apply fltb_Fin in Hstrict.
    apply fleb_Fin in Hle.
    assert (q = (q_i + w t i_0 j)%Q) as -> by congruence.
    pose proof (same_for_heads t i_0 j ltac:(lia) Hi0 Hj). lra. }
  destruct (lookup_lt_is_Some_2 (rows (S t)) 0) as [c_1 Hc1].
  { rewrite length_rows_S. by apply N_pos. }
  destruct (Hcells 0 c_1 Hc1) as [HS1 _].
  exists c_1, (q_0 + w t 0 0)%Q. split_and!; try done.
  - intros j c Hc. destruct (Hcells j c Hc) as [-> _]. rewrite HS1.
    apply fleb_Fin.
    assert (j < N (S t)) as Hj by (by apply (lookup_rows_S t j c)).
    pose proof (first_tail_cheapest t j ltac:(lia) Hj). lra.
  - intros _ j c Hc. by destruct (Hcells j c Hc).
Qed.

Lemma head_first_path (t : nat) :
  t ≤ L → path_to rows t 0 = replicate (S t) 0.
Proof.
  induction t as [|t IH]; intros Ht; [done|].
  destruct (head_first_rows (S t) Ht) as (c_0 & q_0 & Hc0 & _ & _ & HP).
  cbn [path_to]. rewrite (parent_of_idx _ _ _ 0 Hc0) by (apply (HP ltac:(lia) 0 c_0 Hc0)).
  rewrite IH by lia. by rewrite <- replicate_cons_app.
Qed.

(** The solver returns candidate 0 of every layer. *)
Lemma extract_path_head_first :
  ∃ q,
    extract_path (S L) (tables_of (dp_rows W dWv B N row_0 (S L)))
    = Ok (replicate (S L) (Idx 0), Fin q).
Proof.
  destruct (head_first_rows L (le_n L)) as (c_0 & q_0 & Hc0 & Hq0 & Hasc & _).
  assert (np_argmin (map cS (rows L)) = Ok 0) as Hmin.
  { destruct (np_argmin_spec (map cS (rows L)))
      as (a & va & Ha & Hva & _ & Hlt).
    { apply Forall_forall. intros v Hv.
      apply list_elem_of_fmap in Hv as (c & -> & Hc).
      apply list_elem_of_lookup in Hc as [k Hk]. by eapply good_rows. }
    { intros Hnil. apply (f_equal (λ l, l !! 0)) in Hnil.
      rewrite list_lookup_fmap, Hc0 in Hnil. done. }
    destruct a as [|a]; [done|]. exfalso.
    rewrite list_lookup_fmap in Hva.
    destruct (rows L !! S a) as [c|] eqn:Hc; [|done].
    cbn [fmap option_fmap option_map] in Hva.
    assert (fltb va (cS c_0) = true) as Hstrict.
    { apply (Hlt 0); [lia|]. by rewrite list_lookup_fmap, Hc0. }
    pose proof (Hasc (S a) c Hc) as Hle.
    apply fleb_not_fltb in Hle. congruence. }
  exists q_0.
  rewrite (extract_path_finite L 0 Hmin) by (by exists c_0, q_0).
  rewrite head_first_path by done. rewrite Hc0.
  cbn [fmap option_fmap option_map default]. rewrite Hq0.
  by rewrite map_replicate.
Qed.
End HeadFirst.

(** ** Reachable and unreachable last rows *)

Lemma is_fin_walk (p : list nat) (t i : nat) (acc : float) :
  is_fin acc → is_fin (walk W t i acc p).
Proof.
  revert t i acc. induction p as [|j p IH]; intros t i acc Hacc; [done|].
  cbn [walk]. apply IH. destruct Hacc as [q ->]. by eexists.
Qed.

Lemma extract_path_finite_entry (L j : nat) :
  finite_at (rows L) j →
  ∃ a q,
    first_min (map cS (rows L)) a (Fin q) ∧ finite_at (rows L) a
    ∧ extract_path (S L) (tables_of (dp_rows W dWv B N row_0 (S L)))
      = Ok (map nat_idx (path_to rows L a), Fin q).
Proof.
  intros (c_j & q_j & Hc_j & Hq_j).
  destruct (extract_path_cases L) as [Herr|H]; [|exfalso|done].
  { intros Hnil. by rewrite Hnil in Hc_j. }
  destruct (np_argmin_spec (map cS (rows L)))
    as (a & va & Ha & Hva & Hle & _).
  { apply Forall_forall. intros v Hv.
    apply list_elem_of_fmap in Hv as (c & -> & Hc).
    apply list_elem_of_lookup in Hc as [k Hk]. by eapply good_rows. }
  { intros Hnil. apply (f_equal (λ l, l !! j)) in Hnil.
    by rewrite list_lookup_fmap, Hc_j in Hnil. }
  rewrite list_lookup_fmap in Hva.
  destruct (rows L !! a) as [c|] eqn:Hc; [|done].
  cbn [fmap option_fmap option_map] in Hva.
  assert (fleb va (Fin q_j) = true) as Hlej.
  { apply (Hle j). by rewrite list_lookup_fmap, Hc_j, <- Hq_j. }
  destruct (good_rows _ _ _ Hc) as [Hinf|[q Hq]].
  { assert (va = PInf) as -> by congruence. done. }
  rewrite (extract_path_finite L a Ha) in Herr by (by exists c, q). done.
Qed.

Lemma extract_path_no_finite (L : nat) :
  rows L ≠ [] → (∀ j, ¬ finite_at (rows L) j) →
  extract_path (S L) (tables_of (dp_rows W dWv B N row_0 (S L)))
  = Raise TypeError.
Proof.
  intros Hne Hnone.
  destruct (extract_path_cases L Hne) as [?|(a & q & _ & Hfin & _)]; [done|].
  by destruct (Hnone a).
Qed.

(** ** Ties *)

Lemma path_to_snoc (t j : nat) : ∃ l, path_to rows t j = l ++ [j].
Proof. destruct t; [by exists []|]. cbn [path_to]. by eexists. Qed.

Lemma last_cons_default {A} (x : A) (r : list A) :
  last (x :: r) = Some (default x (last r)).
Proof. rewrite last_cons. by destruct (last r). Qed.

(** Among the paths through retained candidates that are not skipped
    that reach an entry at its cost, the path read off the parents comes
    first: its last-but-one candidate has the lowest index, among those
    its last-but-two candidate has the lowest index, and so on. *)
Lemma path_to_revlex_least (t : nat) :
  N 0 ≤ length row_0 →
  ∀ j c q p',
    rows t !! j = Some c → cS c = Fin q →
    length p' = S t → last p' = Some j →
    (∀ k i, p' !! k = Some i → i < N k ∧ B k i = false) →
    fleb (walk_path W (λ i, default NaN (cS <$> row_0 !! i)) p') (Fin q)
    = true →
    revlex_le (path_to rows t j) p'.
Proof.
  intros HN0.
  induction t as [|t IH]; intros j c q p' Hc HS Hlen Hlast Hnodes Hcost.
  { destruct p' as [|x [|y p']]; try done.
    cbn in Hlast. assert (x = j) as -> by congruence.
    unfold revlex_le. cbn. by right. }
  apply last_Some in Hlast as [p'' ->].
  rewrite length_app in Hlen. cbn [length] in Hlen.
  destruct p'' as [|x r]; [cbn [length] in Hlen; lia|].
  cbn [length] in Hlen.
  change ((x :: r) ++ [j]) with (x :: (r ++ [j])) in Hcost.
  cbn [walk_path] in Hcost. rewrite walk_snoc in Hcost.
  replace (0 + length r) with t in Hcost by lia.
  destruct (Hnodes 0 x eq_refl) as [Hx HBx].
  destruct (lookup_lt_is_Some_2 row_0 x) as [c_x Hc_x]; [lia|].
  destruct (row_0_finite _ _ Hc_x) as [Hfin_x _].
  rewrite Hc_x in Hcost.
  cbn [fmap option_fmap option_map default from_option id] in Hcost.
  assert (∀ k i, (x :: r) !! k = Some i → i < N k ∧ B k i = false) as Hpre.
  { intros k i Hk. apply (Hnodes k i). by apply lookup_app_l_Some. }
  destruct (walk_lower_bound r 0 x (cS c_x) c_x) as (c_i & Hc_i & Hle_i);
    try done.
  { apply fleb_refl_good. by right. }
  { by right. }
  { intros k i Hk. by apply (Hpre (S k) i). }
  replace (0 + length r) with t in Hc_i by lia.
  destruct (is_fin_walk r 0 x (cS c_x) Hfin_x) as [xq Hxq].
  rewrite Hxq in Hcost, Hle_i.
  destruct (good_rows _ _ _ Hc_i) as [Hinf|[y Hy]];
    [by rewrite Hinf in Hle_i|].
  rewrite Hy in Hle_i.
  destruct (reached_entry t j c q Hc HS)
    as (HBj & i_0 & p_0 & q_0 & HP & Hi0 & HB0 & Hp0 & Hq0 & Hsum & Hle & Hlt).
  set (i' := default x (last r)) in *.
  assert (last (x :: r) = Some i') as Hlast by apply last_cons_default.
  assert (i' < N t ∧ B t i' = false) as [Hi' HBi'].
  { apply Hpre. rewrite last_lookup in Hlast. cbn [length pred] in Hlast.
    by replace t with (length r) by lia. }
  pose proof (Hle i' c_i Hi' HBi' Hc_i) as Hle'. rewrite Hy in Hle'.
  cbn [fadd] in Hle', Hcost.
  apply fleb_Fin in Hle'. apply fleb_Fin in Hcost. apply fleb_Fin in Hle_i.
  destruct (decide (i' < i_0)) as [Hlt'|Hge].
  { specialize (Hlt i' c_i Hlt' HBi' Hc_i). rewrite Hy in Hlt.
    cbn [fadd] in Hlt. apply fltb_Fin in Hlt. lra. }
  cbn [path_to]. rewrite (parent_of_idx _ _ _ _ Hc HP).
  unfold revlex_le. rewrite !rev_unit. cbn [lex_le]. right. split; [done|].
  destruct (decide (i' = i_0)) as [Heq|Hne].
  - apply (IH i_0 p_0 q_0 (x :: r)); try done.
    + cbn [length]. lia.
    + by rewrite Hlast, Heq.
    + cbn [walk_path]. rewrite Hc_x.
      cbn [fmap option_fmap option_map default from_option id]. rewrite Hxq.
      apply fleb_Fin.
      assert (y = q_0) as -> by (rewrite Heq in Hc_i; congruence).
      rewrite Hq0 in Hsum. cbn [fadd] in Hsum.
      assert (q = (q_0 + w t i_0 j)%Q) as Hq by congruence.
      rewrite Hq, Heq in Hcost. lra.
  - destruct (path_to_snoc t i_0) as [l ->].
    apply last_Some in Hlast as [l' ->].
    rewrite !rev_unit. cbn [lex_le]. left. lia.
Qed.
End Rows.

(** * The dynamic program with [_weight_func_max] *)

(** ** Well-formed inputs *)

Lemma is_finb_is_fin (v : float) : is_finb v = true ↔ is_fin v.
Proof.
  destruct v; split; try done; try (by intros [q Hq]).
  intros _. by eexists.
Qed.

Lemma forallb_lookup {A} (f : A → bool) (l : list A) (i : nat) (x : A) :
  forallb f l = true → l !! i = Some x → f x = true.
Proof.
  revert i. induction l as [|y l IH]; intros [|i] Hall Hx; try done;
    cbn [forallb] in Hall; apply andb_true_iff in Hall as [Hy Hl].
  - cbn in Hx. congruence.
  - by apply (IH i).
Qed.

Lemma layer_wf_spec (exclude_blocked_candidates : bool) (l : layer) :
  layer_wf exclude_blocked_candidates l = true →
  0 < length (iokrscores l)
  ∧ (∀ j s, iokrscores l !! j = Some s → is_fin s)
  ∧ (∀ j, j < length (iokrscores l) → ∃ q, wtx l !! j = Some (Fin q))
  ∧ is_fin (rt_cand_list l)
  ∧ (exclude_blocked_candidates = true →
     ∃ blocked, is_blocked l = Some blocked
                ∧ length blocked = length (iokrscores l)).
Proof.
  unfold layer_wf. rewrite !andb_true_iff.
  intros (((((Hne & Hs) & Hw) & Hlen) & Hrt) & Hb).
  apply Nat.ltb_lt in Hne. apply Nat.eqb_eq in Hlen.
  split_and!.
  - done.
  - intros j s Hj. apply is_finb_is_fin. exact (forallb_lookup _ _ _ _ Hs Hj).
  - intros j Hj. rewrite <- Hlen in Hj.
    destruct (lookup_lt_is_Some_2 _ _ Hj) as [v Hv].
    pose proof (forallb_lookup _ _ _ _ Hw Hv) as Hfin.
    apply is_finb_is_fin in Hfin as [q ->]. by exists q.
  - by apply is_finb_is_fin.
  - intros ->. destruct (is_blocked l) as [blocked|]; [|done].
    exists blocked. split; [done|]. by apply Nat.eqb_eq.
Qed.

Lemma well_formed_spec (cand_data : list layer) (cut_off_n_cand : cutoff)
    (exclude_blocked_candidates : bool) (kw : kwargs) :
  well_formed cand_data cut_off_n_cand exclude_blocked_candidates kw = true →
  0 < length cand_data
  ∧ (∀ t l, cand_data !! t = Some l →
       layer_wf exclude_blocked_candidates l = true)
  ∧ cutoff_wf cut_off_n_cand = true
  ∧ kwargs_wf kw = true.
Proof.
  unfold well_formed. rewrite !andb_true_iff.
  intros (((Hne & Hl) & Hc) & Hk). apply Nat.ltb_lt in Hne.
  split_and!; try done. intros t l Ht. exact (forallb_lookup _ _ _ _ Hl Ht).
Qed.

Lemma n_cand_le (l : layer) (cut_off_n_cand : cutoff) :
  n_cand l cut_off_n_cand ≤ length (iokrscores l).
Proof. unfold n_cand. destruct cut_off_n_cand; lia. Qed.

Lemma n_cand_pos (l : layer) (cut_off_n_cand : cutoff) :
  cutoff_wf cut_off_n_cand = true → 0 < length (iokrscores l) →
  0 < n_cand l cut_off_n_cand.
Proof.
  unfold n_cand, cutoff_wf. destruct cut_off_n_cand as [|n]; [done|].
  intros Hn%Nat.ltb_lt. lia.
Qed.

(** ** The edge weight on well-formed layers *)

(** The table of accumulated order differences that the solver hands to
    the weight function is not read. *)
Lemma weight_func_max_dW_path (ln : Q → Q) (cand_data : list layer)
    (u v : nat * nat) (kw : kwargs) (dW : list (list float)) :
  _weight_func_max ln cand_data u v (set_dW_path kw dW)
  = _weight_func_max ln cand_data u v kw.
Proof. reflexivity. Qed.

(** On well-formed layers the weight of an edge into a candidate of
    score [σ] is [- σ + D * penalty] for a rational penalty. *)
Lemma weight_func_max_shape (ln : Q → Q) (cand_data : list layer)
    (kw : kwargs) (exclude_blocked_candidates : bool)
    (t i j : nat) (l_t l_tp1 : layer) (d σ : Q) :
  kwargs_wf kw = true → kw_D kw = Some (Fin d) →
  cand_data !! t = Some l_t → cand_data !! (t + 1) = Some l_tp1 →
  layer_wf exclude_blocked_candidates l_t = true →
  layer_wf exclude_blocked_candidates l_tp1 = true →
  i < length (iokrscores l_t) → iokrscores l_tp1 !! j = Some (Fin σ) →
  ∃ z dw,
    _weight_func_max ln cand_data (t, i) (t + 1, j) kw
    = Ok (Fin (- σ + d * z), dw).
Proof.
  intros Hkw HD Ht Htp1 Hwf_t Hwf_tp1 Hi Hs.
  assert (j < length (iokrscores l_tp1)) as Hj by (by eapply lookup_lt_Some).
  apply layer_wf_spec in Hwf_t as (_ & _ & Hw_t & _).
  apply layer_wf_spec in Hwf_tp1 as (_ & _ & Hw_tp1 & _).
  unfold kwargs_wf in Hkw. rewrite HD in Hkw.
  destruct (kw_use_sign kw) as [use_sign|] eqn:Hus; try done.
  destruct (kw_epsilon_rt kw) as [epsilon_rt|] eqn:Heps; try done.
  destruct (kw_use_log kw) as [use_log|] eqn:Hul; try done.
  destruct (Hw_t _ Hi) as [a Ha]. destruct (Hw_tp1 _ Hj) as [b Hb].
  unfold _weight_func_max. rewrite HD, Hus, Heps, Hul.
  cbn [has_key mbind result_bind].
  rewrite (proj2 (index_Ok _ _ _) Htp1). cbn [mbind result_bind].
  rewrite (proj2 (index_Ok _ _ _) Hs). cbn [mbind result_bind].
  rewrite (proj2 (index_Ok _ _ _) Ht). cbn [mbind result_bind].
  rewrite (proj2 (index_Ok _ _ _) Ha), (proj2 (index_Ok _ _ _) Hb).
  cbn [mbind result_bind]. rewrite fsub_Fin.
  assert (∃ x, (if fleb (np_abs (fsub (rt_cand_list l_t) (rt_cand_list l_tp1)))
                     epsilon_rt
                then Ok (Fin 0) else Ok (Fin (a - b))) = Ok (Fin x))
    as [x ->] by (destruct (fleb _ _); by eexists).
  cbn [mbind result_bind].
  assert (∃ y, (if use_sign then np_sign (Fin x) else Fin x) = Fin y)
    as [y ->] by (destruct use_sign; [rewrite np_sign_Fin|]; by eexists).
  rewrite max0_Fin.
  assert (∃ z, (if use_log then np_log ln (fadd (Fin (Qmax 0 y)) (Fin 1))
                else Fin (Qmax 0 y)) = Fin z) as [z ->].
  { destruct use_log; [|by eexists].
    rewrite np_log_pos by apply Q.le_max_l. by eexists. }
  by exists z, (Fin y).
Qed.

Lemma kwargs_wf_D (kw : kwargs) :
  kwargs_wf kw = true → ∃ d, kw_D kw = Some (Fin d).
Proof.
  unfold kwargs_wf. destruct (kw_D kw) as [[| |d|]|]; try done.
  intros _. by exists d.
Qed.

Lemma weight_func_max_finite (ln : Q → Q) (cand_data : list layer)
    (kw : kwargs) (exclude_blocked_candidates : bool)
    (t i j : nat) (l_t l_tp1 : layer) :
  kwargs_wf kw = true →
  cand_data !! t = Some l_t → cand_data !! (t + 1) = Some l_tp1 →
  layer_wf exclude_blocked_candidates l_t = true →
  layer_wf exclude_blocked_candidates l_tp1 = true →
  i < length (iokrscores l_t) → j < length (iokrscores l_tp1) →
  ∃ q dw,
    _weight_func_max ln cand_data (t, i) (t + 1, j) kw = Ok (Fin q, dw).
Proof.
  intros Hkw Ht Htp1 Hwf_t Hwf_tp1 Hi Hj.
  destruct (kwargs_wf_D kw Hkw) as [d HD].
  destruct (lookup_lt_is_Some_2 _ _ Hj) as [s Hs].
  pose proof (layer_wf_spec _ _ Hwf_tp1) as (_ & Hfin & _).
  destruct (Hfin _ _ Hs) as [σ ->].
  destruct (weight_func_max_shape ln cand_data kw exclude_blocked_candidates
              t i j l_t l_tp1 d σ) as (z & dw & H); try done.
  by eexists _, _.
Qed.

(** When the retention times of two layers are within [epsilon_rt], the
    weight of an edge between them does not depend on its head: it is
    minus the score of the tail plus a constant. *)
Lemma weight_func_max_flat (ln : Q → Q) (cand_data : list layer)
    (kw : kwargs) (t : nat) (l_t l_tp1 : layer) (d : Q) (epsilon_rt : float) :
  kwargs_wf kw = true → kw_D kw = Some (Fin d) →
  kw_epsilon_rt kw = Some epsilon_rt →
  cand_data !! t = Some l_t → cand_data !! (t + 1) = Some l_tp1 →
  fleb (np_abs (fsub (rt_cand_list l_t) (rt_cand_list l_tp1))) epsilon_rt
  = true →
  ∃ z, ∀ i j σ, iokrscores l_tp1 !! j = Some (Fin σ) →
    ∃ dw, _weight_func_max ln cand_data (t, i) (t + 1, j) kw
          = Ok (Fin (- σ + d * z), dw).
Proof.
  intros Hkw HD Heps Ht Htp1 Hgap.
  unfold kwargs_wf in Hkw. rewrite HD, Heps in Hkw.
  destruct (kw_use_sign kw) as [use_sign|] eqn:Hus; try done.
  destruct (kw_use_log kw) as [use_log|] eqn:Hul; try done.
  assert (∃ y, (if use_sign then np_sign (Fin 0) else Fin 0) = Fin y)
    as [y Hy] by (destruct use_sign; [rewrite np_sign_Fin|]; by eexists).
  assert (∃ z, (if use_log then np_log ln (fadd (Fin (Qmax 0 y)) (Fin 1))
                else Fin (Qmax 0 y)) = Fin z) as [z Hz].
  { destruct use_log; [|by eexists].
    rewrite np_log_pos by apply Q.le_max_l. by eexists. }
  exists z. intros i j σ Hs.
  unfold _weight_func_max. rewrite HD, Hus, Heps, Hul.
  cbn [has_key mbind result_bind].
  rewrite (proj2 (index_Ok _ _ _) Htp1). cbn [mbind result_bind].
  rewrite (proj2 (index_Ok _ _ _) Hs). cbn [mbind result_bind].
  rewrite (proj2 (index_Ok _ _ _) Ht). cbn [mbind result_bind].
  rewrite Hgap. cbn [mbind result_bind].
  rewrite Hy, max0_Fin, Hz. by eexists.
Qed.

(** ** The solver on well-formed inputs *)

Lemma first_row_eq (cand_data : list layer) (l_0 : layer) :
  cand_data !! 0 = Some l_0 →
  match cand_data with
  | l :: _ => init_row l
  | [] => []
  end = init_row l_0.
Proof. destruct cand_data as [|l cd']; cbn; congruence. Qed.

Lemma walk_ext (W1 W2 : nat → nat → nat → float) (n : nat → nat)
    (p : list nat) (t i : nat) (acc : float) :
  (∀ t i j, i < n t → j < n (S t) → W1 t i j = W2 t i j) →
  i < n t → (∀ k j, p !! k = Some j → j < n (S t + k)) →
  walk W1 t i acc p = walk W2 t i acc p.
Proof.
  revert t i acc. induction p as [|j p IH]; intros t i acc HW Hi Hp; [done|].
  cbn [walk].
  assert (j < n (S t)) as Hj.
  { specialize (Hp 0 j eq_refl). by rewrite Nat.add_0_r in Hp. }
  rewrite (HW t i j Hi Hj). apply IH; [done|done|].
  intros k j' Hk. specialize (Hp (S k) j' Hk).
  by replace (S (S t) + k) with (S t + S k) by lia.
Qed.

Lemma fleb_fneg (a b : float) : fleb (fneg a) (fneg b) = fleb b a.
Proof.
  destruct a, b; simpl; try done.
  destruct (Qle_bool q0 q) eqn:E.
  - apply Qle_bool_iff. apply Qle_bool_iff in E. lra.
  - destruct (Qle_bool (- q) (- q0)) eqn:E'; [|done].
    apply Qle_bool_iff in E'. assert (q0 <= q)%Q as H by lra.
    apply Qle_bool_iff in H. congruence.
Qed.

(** In a descending list of rationals no element exceeds the first. *)
Lemma sorted_head_lookup (l : list float) (s_0 s : float) (j : nat) :
  is_sorted l false = true → is_fin s_0 →
  l !! 0 = Some s_0 → l !! j = Some s → fleb s s_0 = true.
Proof.
  intros Hs Hfin H0 Hj. destruct l as [|x l]; [done|].
  cbn in H0. assert (x = s_0) as -> by congruence.
  destruct j as [|j].
  - cbn in Hj. assert (s = s_0) as -> by congruence.
    apply fleb_refl_good. by right.
  - apply (is_sorted_desc_head _ _ Hs). by eapply list_elem_of_lookup_2.
Qed.

Lemma gaps_within_lookup (epsilon_rt : float) (cand_data : list layer)
    (t : nat) (l l' : layer) :
  gaps_within epsilon_rt cand_data = true →
  cand_data !! t = Some l → cand_data !! (t + 1) = Some l' →
  fleb (np_abs (fsub (rt_cand_list l) (rt_cand_list l'))) epsilon_rt = true.
Proof.
  revert t. induction cand_data as [|x cd IH]; intros t Hg Ht Htp1; [done|].
  destruct cd as [|y cd]; [by destruct t|].
  cbn [gaps_within] in Hg. apply andb_true_iff in Hg as [Hxy Hg].
  destruct t as [|t].
  - cbn in Ht, Htp1. by assert (x = l ∧ y = l') as [-> ->] by (split; congruence).
  - apply (IH t); done.
Qed.

Section WFM.
Variable ln : Q → Q.
Variable cand_data : list layer.
Variable cut_off_n_cand : cutoff.
Variable exclude_blocked_candidates : bool.
Variable kw : kwargs.

Hypothesis inputs_wf :
  well_formed cand_data cut_off_n_cand exclude_blocked_candidates kw = true.

Local Abbreviation w := (edge_weight ln cand_data kw).
Local Abbreviation dWv := (edge_delta ln cand_data kw).
Local Abbreviation B := (skipped exclude_blocked_candidates cand_data).
Local Abbreviation N := (n_cand_at cand_data cut_off_n_cand).
Local Abbreviation rows :=
  (wfm_rows ln cand_data cut_off_n_cand exclude_blocked_candidates kw).

Lemma wf_layer (t : nat) (l : layer) :
  cand_data !! t = Some l → layer_wf exclude_blocked_candidates l = true.
Proof. apply (well_formed_spec _ _ _ _ inputs_wf). Qed.

Lemma wf_kwargs : kwargs_wf kw = true.
Proof. apply (well_formed_spec _ _ _ _ inputs_wf). Qed.

Lemma wf_cutoff : cutoff_wf cut_off_n_cand = true.
Proof. apply (well_formed_spec _ _ _ _ inputs_wf). Qed.

Lemma wf_first_layer : ∃ l_0, cand_data !! 0 = Some l_0.
Proof.
  apply lookup_lt_is_Some_2. apply (well_formed_spec _ _ _ _ inputs_wf).
Qed.

Lemma N_lookup (t : nat) (l : layer) :
  cand_data !! t = Some l → N t = n_cand l cut_off_n_cand.
Proof. intros Ht. unfold n_cand_at. by rewrite Ht. Qed.

Lemma N_pos (t : nat) : t < length cand_data → 0 < N t.
Proof.
  intros Ht. destruct (lookup_lt_is_Some_2 _ _ Ht) as [l Hl].
  rewrite (N_lookup t l Hl). apply n_cand_pos; [apply wf_cutoff|].
  by apply (layer_wf_spec _ _ (wf_layer t l Hl)).
Qed.

Lemma N_range (t i : nat) :
  i < N t → ∃ l, cand_data !! t = Some l ∧ i < length (iokrscores l).
Proof.
  unfold n_cand_at. destruct (cand_data !! t) as [l|]; [|lia].
  intros Hi. exists l. split; [done|].
  pose proof (n_cand_le l cut_off_n_cand). lia.
Qed.

(** The edge weights are rationals. *)
Lemma edge_Fin (t i j : nat) :
  i < N t → j < N (S t) →
  edge ln cand_data kw t i j = (Fin (w t i j), dWv t i j).
Proof.
  intros (l_t & Ht & Hi)%N_range (l_tp1 & Htp1 & Hj)%N_range.
  replace (S t) with (t + 1) in Htp1 by lia.
  destruct (weight_func_max_finite ln cand_data kw exclude_blocked_candidates
              t i j l_t l_tp1) as (q & dw & Hq);
    try done; try by eapply wf_layer.
  { apply wf_kwargs. }
  unfold edge_weight, edge_delta, edge. by rewrite Hq.
Qed.

Lemma wfm_weight_table (t i j : nat) (l_t l_tp1 : layer)
    (dW : list (list float)) :
  cand_data !! t = Some l_t → cand_data !! (t + 1) = Some l_tp1 →
  i < n_cand l_t cut_off_n_cand → j < n_cand l_tp1 cut_off_n_cand →
  B t i = false → B (t + 1) j = false →
  _weight_func_max ln cand_data (t, i) (t + 1, j) (set_dW_path kw dW)
  = Ok (Fin (w t i j), dWv t i j).
Proof.
  intros Ht Htp1 Hi Hj _ _. rewrite weight_func_max_dW_path.
  pose proof (edge_Fin t i j) as He.
  rewrite (N_lookup t l_t Ht) in He.
  replace (S t) with (t + 1) in He by lia.
  rewrite (N_lookup (t + 1) l_tp1 Htp1) in He.
  specialize (He Hi Hj). unfold edge in He.
  destruct (weight_func_max_finite ln cand_data kw exclude_blocked_candidates
              t i j l_t l_tp1) as (q & dw & Hq);
    try done; try by eapply wf_layer.
  { apply wf_kwargs. }
  { pose proof (n_cand_le l_t cut_off_n_cand). lia. }
  { pose proof (n_cand_le l_tp1 cut_off_n_cand). lia. }
  rewrite Hq in He |- *. by rewrite He.
Qed.

Lemma wfm_skip_table (t : nat) (l : layer) (i : nat) :
  cand_data !! t = Some l → i < n_cand l cut_off_n_cand →
  skip_blocked exclude_blocked_candidates cand_data t i = Ok (B t i).
Proof.
  intros Ht Hi. unfold skipped, skip_blocked.
  destruct (layer_wf_spec _ _ (wf_layer t l Ht)) as (_ & _ & _ & _ & Hb).
  clear inputs_wf.
  destruct exclude_blocked_candidates; [|done].
  rewrite (proj2 (index_Ok _ _ _) Ht). cbn [mbind result_bind].
  destruct (Hb eq_refl) as (blocked & -> & Hlen).
  pose proof (n_cand_le l cut_off_n_cand).
  destruct (lookup_lt_is_Some_2 blocked i) as [b Hb']; [lia|].
  by rewrite (proj2 (index_Ok _ _ _) Hb').
Qed.

Lemma wfm_row_0_finite (l_0 : layer) :
  cand_data !! 0 = Some l_0 →
  ∀ j c, init_row l_0 !! j = Some c → is_fin (cS c) ∧ cP c = Idx (-1).
Proof.
  intros H0 j c Hc. unfold init_row in Hc.
  rewrite list_lookup_fmap in Hc.
  destruct (iokrscores l_0 !! j) as [s|] eqn:Hs; [|done].
  cbn [fmap option_fmap option_map] in Hc.
  assert (c = (fneg s, Fin 0, Idx (-1))) as -> by congruence.
  split; [|done].
  destruct (layer_wf_spec _ _ (wf_layer 0 l_0 H0)) as (_ & Hfin & _).
  destruct (Hfin _ _ Hs) as [σ ->]. by eexists.
Qed.

Lemma wfm_rows_eq (l_0 : layer) (t : nat) :
  cand_data !! 0 = Some l_0 →
  rows t = dp_row (λ t i j, Fin (w t i j)) dWv B N (init_row l_0) t.
Proof.
  intros H0. unfold wfm_rows. by rewrite (first_row_eq _ _ H0).
Qed.

(** The forward pass succeeds and computes the rows. *)
Lemma wfm_forward (l_0 : layer) :
  cand_data !! 0 = Some l_0 →
  forward cand_data (_weight_func_max ln) cut_off_n_cand
    exclude_blocked_candidates kw
  = Ok (tables_of (dp_rows (λ t i j, Fin (w t i j)) dWv B N (init_row l_0)
                     (length cand_data))).
Proof.
  intros H0. apply forward_rows; [|exact wfm_skip_table|done].
  intros t i j l_t l_tp1 dW. apply wfm_weight_table.
Qed.

(** The solver either cannot reach the last layer, and raises, or returns
    the path to the first cheapest entry of the last row. *)
Lemma wfm_outcome (check_input : bool) (L : nat) :
  length cand_data = S L →
  check_cand_data cand_data check_input exclude_blocked_candidates = Ok tt →
  shortest_path_exclude_candidates cand_data (_weight_func_max ln)
    cut_off_n_cand check_input exclude_blocked_candidates kw
  = Raise TypeError
  ∨ ∃ a q,
      first_min (map cS (rows L)) a (Fin q) ∧ finite_at (rows L) a
      ∧ shortest_path_exclude_candidates cand_data (_weight_func_max ln)
          cut_off_n_cand check_input exclude_blocked_candidates kw
        = Ok (map nat_idx (path_to rows L a), Fin q).
Proof.
  intros HL Hchk. destruct wf_first_layer as [l_0 H0].
  unfold shortest_path_exclude_candidates.
  rewrite Hchk, (wfm_forward l_0 H0), HL. cbn [mbind result_bind].
  assert (rows = dp_row (λ t i j, Fin (w t i j)) dWv B N (init_row l_0))
    as -> by (unfold wfm_rows; by rewrite (first_row_eq _ _ H0)).
  apply extract_path_cases; [by apply wfm_row_0_finite|].
  intros Hnil. apply (f_equal length) in Hnil. cbn [length] in Hnil.
  destruct L as [|L].
  - cbn [dp_row] in Hnil. unfold init_row in Hnil. rewrite length_map in Hnil.
    destruct (layer_wf_spec _ _ (wf_layer 0 l_0 H0)) as (Hpos & _). lia.
  - rewrite length_rows_S in Hnil.
    assert (0 < N (S L)) by (apply N_pos; lia). lia.
Qed.

Lemma wfm_rows_fun (l_0 : layer) :
  cand_data !! 0 = Some l_0 →
  rows = dp_row (λ t i j, Fin (w t i j)) dWv B N (init_row l_0).
Proof. intros H0. unfold wfm_rows. by rewrite (first_row_eq _ _ H0). Qed.

Lemma wfm_last_row (l_0 : layer) (L : nat) :
  cand_data !! 0 = Some l_0 → length cand_data = S L →
  dp_row (λ t i j, Fin (w t i j)) dWv B N (init_row l_0) L ≠ [].
Proof.
  intros H0 HL Hnil. apply (f_equal length) in Hnil. cbn [length] in Hnil.
  destruct L as [|L].
  - cbn [dp_row] in Hnil. unfold init_row in Hnil. rewrite length_map in Hnil.
    destruct (layer_wf_spec _ _ (wf_layer 0 l_0 H0)) as (Hpos & _). lia.
  - rewrite length_rows_S in Hnil.
    assert (0 < N (S L)) by (apply N_pos; lia). lia.
Qed.

Lemma wfm_solver_eq (check_input : bool) (l_0 : layer) (L : nat) :
  cand_data !! 0 = Some l_0 → length cand_data = S L →
  check_cand_data cand_data check_input exclude_blocked_candidates = Ok tt →
  shortest_path_exclude_candidates cand_data (_weight_func_max ln)
    cut_off_n_cand check_input exclude_blocked_candidates kw
  = extract_path (S L)
      (tables_of (dp_rows (λ t i j, Fin (w t i j)) dWv B N (init_row l_0)
                    (S L))).
Proof.
  intros H0 HL Hchk. unfold shortest_path_exclude_candidates.
  by rewrite Hchk, (wfm_forward l_0 H0), HL.
Qed.

Lemma N_0_le (l_0 : layer) :
  cand_data !! 0 = Some l_0 → N 0 ≤ length (init_row l_0).
Proof.
  intros H0. rewrite (N_lookup 0 l_0 H0). unfold init_row.
  rewrite length_map. apply n_cand_le.
Qed.

(** With two layers or more the nodes of the returned path are retained
    candidates that are not skipped. *)
Lemma wfm_path_eligible (L a : nat) :
  length cand_data = S L → 0 < L → finite_at (rows L) a →
  eligible cand_data cut_off_n_cand exclude_blocked_candidates
    (path_to rows L a).
Proof.
  intros HL Hpos Hfin. destruct wf_first_layer as [l_0 H0].
  rewrite (wfm_rows_fun l_0 H0) in Hfin |- *.
  split; [by rewrite length_path_to|].
  intros t i Hi.
  by eapply (path_to_eligible _ _ _ _ _ (wfm_row_0_finite l_0 H0)).
Qed.

Lemma wfm_path_cost_eq (l_0 : layer) (p : list nat) :
  cand_data !! 0 = Some l_0 →
  (∀ t i, p !! t = Some i → i < N t) ∨ length p = 1 →
  path_cost ln cand_data kw p
  = walk_path (λ t i j, Fin (w t i j))
      (λ i, default NaN (cS <$> init_row l_0 !! i)) p.
Proof.
  intros H0 Hp. destruct p as [|i p']; [done|].
  unfold path_cost. cbn [walk_path].
  assert (start_cost cand_data i = default NaN (cS <$> init_row l_0 !! i))
    as ->.
  { unfold start_cost, init_row. rewrite H0. cbn [mbind option_bind].
    rewrite list_lookup_fmap. by destruct (iokrscores l_0 !! i). }
  destruct Hp as [Hp|Hp].
  - apply (walk_ext _ _ N).
    + intros t i' j Hi' Hj. by rewrite (edge_Fin t i' j Hi' Hj).
    + by apply (Hp 0 i).
    + intros k j Hk. by apply (Hp (S k) j).
  - destruct p'; [done|]. cbn [length] in Hp. lia.
Qed.

(** The cost stored in an entry of the last row is the cost of the path
    read off the parents. *)
Lemma wfm_cost_path_to (L a : nat) (c : cell) (q : Q) :
  length cand_data = S L → rows L !! a = Some c → cS c = Fin q →
  path_cost ln cand_data kw (path_to rows L a) = Fin q.
Proof.
  intros HL Hc HS. destruct wf_first_layer as [l_0 H0].
  rewrite (wfm_rows_fun l_0 H0) in Hc |- *.
  assert (finite_at
            (dp_row (λ t i j, Fin (w t i j)) dWv B N (init_row l_0) L) a)
    as Hfin by (by exists c, q).
  pose proof (cost_path_to _ _ _ _ _ (wfm_row_0_finite l_0 H0) L a Hfin)
    as Hcost.
  rewrite Hc in Hcost. cbn [fmap option_fmap option_map] in Hcost.
  rewrite (wfm_path_cost_eq l_0) by
    (first [done
           | destruct L as [|L];
             [right; by rewrite length_path_to
             |left; intros t i Hi;
              by eapply (path_to_eligible _ _ _ _ _
                           (wfm_row_0_finite l_0 H0) (S L) a t i);
              [lia|done|done]]]).
  congruence.
Qed.

(** No eligible path is cheaper than the least entry of the last row. *)
Lemma wfm_lower_bound (L a : nat) (q : Q) (p' : list nat) :
  length cand_data = S L →
  first_min (map cS (rows L)) a (Fin q) →
  eligible cand_data cut_off_n_cand exclude_blocked_candidates p' →
  fleb (Fin q) (path_cost ln cand_data kw p') = true.
Proof.
  intros HL (_ & Hmin & _) [Hlen Hnodes]. destruct wf_first_layer as [l_0 H0].
  rewrite (wfm_rows_fun l_0 H0) in Hmin.
  rewrite (wfm_path_cost_eq l_0) by
    (first [done | left; intros t i Hi; by apply (Hnodes t i)]).
  destruct p' as [|i rest]; [cbn [length] in Hlen; lia|].
  cbn [length] in Hlen. cbn [walk_path].
  destruct (Hnodes 0 i eq_refl) as [Hi HBi].
  destruct (lookup_lt_is_Some_2 (init_row l_0) i) as [c_i Hc_i].
  { pose proof (N_0_le l_0 H0). lia. }
  rewrite Hc_i. cbn [fmap option_fmap option_map default].
  destruct (walk_lower_bound w dWv B N _ (wfm_row_0_finite l_0 H0)
              rest 0 i (cS c_i) c_i) as (c & Hc & Hle); try done.
  - apply fleb_refl_good. right.
    by apply (wfm_row_0_finite l_0 H0 i c_i).
  - right. by apply (wfm_row_0_finite l_0 H0 i c_i).
  - intros k j Hk. by apply (Hnodes (S k) j).
  - eapply fleb_trans; [|exact Hle].
    apply (Hmin (default i (last rest))).
    replace (0 + length rest) with L in Hc by lia.
    by rewrite list_lookup_fmap, Hc.
Qed.

(** A layer whose retained candidates are all skipped makes the solver
    raise when it follows the parent of an entry that was never reached. *)
Lemma wfm_all_skipped (check_input : bool) (t : nat) :
  2 ≤ length cand_data → t < length cand_data →
  check_cand_data cand_data check_input exclude_blocked_candidates = Ok tt →
  (∀ i, i < N t → B t i = true) →
  shortest_path_exclude_candidates cand_data (_weight_func_max ln)
    cut_off_n_cand check_input exclude_blocked_candidates kw
  = Raise TypeError.
Proof.
  intros H2 Ht Hchk Hskip. destruct wf_first_layer as [l_0 H0].
  destruct (length cand_data) as [|L] eqn:HL; [lia|].
  rewrite (wfm_solver_eq check_input l_0 L H0 HL Hchk).
  apply (extract_path_all_skipped w dWv B N _ (wfm_row_0_finite l_0 H0) t L);
    [lia|lia|by apply wfm_last_row|done].
Qed.

(** ** Weights without order information *)

Local Abbreviation flat := (flat_weights ln cand_data cut_off_n_cand kw).

Lemma wfm_flat_gaps (epsilon_rt : float) :
  kw_epsilon_rt kw = Some epsilon_rt →
  gaps_within epsilon_rt cand_data = true → flat.
Proof.
  intros Heps Hgaps. unfold flat_weights. intros t l_tp1 Htp1.
  destruct (lookup_lt_is_Some_2 cand_data t) as [l_t Ht].
  { apply lookup_lt_Some in Htp1. lia. }
  destruct (kwargs_wf_D kw wf_kwargs) as [d HD].
  destruct (weight_func_max_flat ln cand_data kw t l_t l_tp1 d epsilon_rt)
    as [z Hz]; try done.
  { apply wf_kwargs. }
  { by eapply gaps_within_lookup. }
  exists (d * z)%Q. intros i j σ _ Hs. destruct (Hz i j σ Hs) as [dw Hw].
  unfold edge_weight, edge. rewrite Hw. reflexivity.
Qed.

Lemma wfm_flat_D0 : kw_D kw = Some (Fin 0) → flat.
Proof.
  intros HD. unfold flat_weights. intros t l_tp1 Htp1. exists 0%Q. intros i j σ Hi Hs.
  destruct (N_range t i Hi) as (l_t & Ht & Hi').
  destruct (weight_func_max_shape ln cand_data kw exclude_blocked_candidates
              t i j l_t l_tp1 0 σ) as (z & dw & Hw);
    try done; try by eapply wf_layer.
  { apply wf_kwargs. }
  unfold edge_weight, edge. rewrite Hw. cbn [fst qval]. lra.
Qed.

(** Without order information, and with nothing skipped, the solver
    returns candidate 0 of every layer. *)
Lemma wfm_head_first (check_input : bool) :
  check_cand_data cand_data check_input exclude_blocked_candidates = Ok tt →
  (∀ t i, B t i = false) →
  scores_sorted cand_data = true →
  flat →
  ∃ q,
    shortest_path_exclude_candidates cand_data (_weight_func_max ln)
      cut_off_n_cand check_input exclude_blocked_candidates kw
    = Ok (replicate (length cand_data) (Idx 0), Fin q).
Proof.
  intros Hchk Hnone Hsorted Hflat. destruct wf_first_layer as [l_0 H0].
  destruct (length cand_data) as [|L] eqn:HL.
  { apply lookup_lt_Some in H0. lia. }
  rewrite (wfm_solver_eq check_input l_0 L H0 HL Hchk).
  assert (∀ t l s_0, cand_data !! t = Some l → iokrscores l !! 0 = Some s_0 →
            ∀ j s, iokrscores l !! j = Some s → fleb s s_0 = true) as Hhead.
  { intros t l s_0 Hl Hs0 j s Hs.
    apply (sorted_head_lookup (iokrscores l) s_0 s j); try done.
    - exact (forallb_lookup _ _ _ _ Hsorted Hl).
    - by apply (layer_wf_spec _ _ (wf_layer t l Hl)) in Hs0. }
  assert (∀ t i j, t < L → i < N t → j < N (S t) →
            ∃ σ κ l_tp1, cand_data !! S t = Some l_tp1
              ∧ iokrscores l_tp1 !! j = Some (Fin σ)
              ∧ (w t i j == - σ + κ)%Q ∧ (w t 0 j == - σ + κ)%Q
              ∧ ∀ σ_0, iokrscores l_tp1 !! 0 = Some (Fin σ_0) →
                  (w t 0 0 == - σ_0 + κ)%Q) as Hw.
  { intros t i j Ht Hi Hj.
    destruct (N_range (S t) j Hj) as (l_tp1 & Htp1 & Hj').
    destruct (lookup_lt_is_Some_2 _ _ Hj') as [s Hs].
    destruct (layer_wf_spec _ _ (wf_layer _ _ Htp1)) as (_ & Hfin & _).
    destruct (Hfin _ _ Hs) as [σ ->].
    replace (S t) with (t + 1) in Htp1 by lia.
    destruct (Hflat t l_tp1 Htp1) as [κ Hκ].
    assert (0 < N t) as H0t by (apply N_pos; lia).
    exists σ, κ, l_tp1. replace (S t) with (t + 1) by lia.
    split_and!; try done.
    - by apply Hκ.
    - by apply Hκ.
    - intros σ_0 Hs0. by apply Hκ. }
  apply (extract_path_head_first w dWv B N _ (wfm_row_0_finite l_0 H0) L).
  - intros t Ht. apply N_pos. lia.
  - by apply N_0_le.
  - done.
  - intros t i j Ht Hi Hj.
    destruct (Hw t i j Ht Hi Hj) as (σ & κ & _ & _ & _ & H1 & H2 & _).
    by rewrite H1, H2.
  - intros t j Ht Hj.
    assert (0 < N t) as H0t by (apply N_pos; lia).
    destruct (Hw t 0 j Ht H0t Hj) as (σ & κ & l_tp1 & Htp1 & Hs & _ & H2 & H3).
    destruct (lookup_lt_is_Some_2 (iokrscores l_tp1) 0) as [s_0 Hs0].
    { by apply (layer_wf_spec _ _ (wf_layer _ _ Htp1)). }
    pose proof (Hhead _ _ _ Htp1 Hs0 j _ Hs) as Hle.
    destruct (layer_wf_spec _ _ (wf_layer _ _ Htp1)) as (_ & Hfin & _).
    destruct (Hfin _ _ Hs0) as [σ_0 ->].
    apply fleb_Fin in Hle. rewrite (H3 σ_0 Hs0), H2. lra.
  - intros j c c_0 Hc0 Hc. unfold init_row in Hc0, Hc.
    rewrite list_lookup_fmap in Hc0, Hc.
    destruct (iokrscores l_0 !! 0) as [s_0|] eqn:Hs0; [|done].
    destruct (iokrscores l_0 !! j) as [s|] eqn:Hs; [|done].
    cbn [fmap option_fmap option_map] in Hc0, Hc.
    assert (c_0 = (fneg s_0, Fin 0, Idx (-1))) as -> by congruence.
    assert (c = (fneg s, Fin 0, Idx (-1))) as -> by congruence.
    cbn [cS fst]. rewrite fleb_fneg. by eapply Hhead.
Qed.

(** ** Cheapest eligible paths *)

(** An eligible path reaches the last row at a finite cost. *)
Lemma wfm_eligible_reaches (L : nat) (p' : list nat) :
  length cand_data = S L →
  eligible cand_data cut_off_n_cand exclude_blocked_candidates p' →
  ∃ j, finite_at (rows L) j.
Proof.
  intros HL [Hlen Hnodes]. destruct wf_first_layer as [l_0 H0].
  rewrite (wfm_rows_fun l_0 H0).
  destruct p' as [|i rest]; [cbn [length] in Hlen; lia|].
  cbn [length] in Hlen.
  destruct (Hnodes 0 i eq_refl) as [Hi HBi].
  destruct (lookup_lt_is_Some_2 (init_row l_0) i) as [c_i Hc_i].
  { pose proof (N_0_le l_0 H0). lia. }
  destruct (wfm_row_0_finite l_0 H0 i c_i Hc_i) as [Hfin_i _].
  destruct (walk_lower_bound w dWv B N _ (wfm_row_0_finite l_0 H0)
              rest 0 i (cS c_i) c_i) as (c & Hc & Hle); try done.
  - apply fleb_refl_good. by right.
  - by right.
  - intros k j Hk. by apply (Hnodes (S k) j).
  - replace (0 + length rest) with L in Hc by lia.
    exists (default i (last rest)).
    destruct (is_fin_walk w rest 0 i (cS c_i) Hfin_i) as [x Hx].
    rewrite Hx in Hle.
    destruct (good_rows w dWv B N _ (wfm_row_0_finite l_0 H0) _ _ _ Hc)
      as [Hinf|[q Hq]].
    + by rewrite Hinf in Hle.
    + by exists c, q.
Qed.

(** With two layers or more: when an eligible path exists, the solver
    returns one, together with its cost, and no eligible path is
    cheaper. *)
Lemma wfm_cheapest (check_input : bool) (p' : list nat) :
  2 ≤ length cand_data →
  check_cand_data cand_data check_input exclude_blocked_candidates = Ok tt →
  eligible cand_data cut_off_n_cand exclude_blocked_candidates p' →
  ∃ p q,
    shortest_path_exclude_candidates cand_data (_weight_func_max ln)
      cut_off_n_cand check_input exclude_blocked_candidates kw
    = Ok (map nat_idx p, Fin q)
    ∧ eligible cand_data cut_off_n_cand exclude_blocked_candidates p
    ∧ path_cost ln cand_data kw p = Fin q
    ∧ ∀ p'', eligible cand_data cut_off_n_cand exclude_blocked_candidates p'' →
        fleb (Fin q) (path_cost ln cand_data kw p'') = true.
Proof.
  intros H2 Hchk Hp'. destruct wf_first_layer as [l_0 H0].
  destruct (length cand_data) as [|L] eqn:HL; [lia|].
  destruct (wfm_eligible_reaches L p' HL Hp') as [j Hj].
  rewrite (wfm_solver_eq check_input l_0 L H0 HL Hchk).
  rewrite (wfm_rows_fun l_0 H0) in Hj.
  destruct (extract_path_finite_entry w dWv B N _ (wfm_row_0_finite l_0 H0)
              L j Hj) as (a & q & Hmin & Hfin & ->).
  rewrite <- (wfm_rows_fun l_0 H0) in Hmin, Hfin |- *.
  exists (path_to rows L a), q. split_and!.
  - done.
  - apply wfm_path_eligible; [done|lia|done].
  - destruct Hfin as (c & q' & Hc & HS).
    destruct Hmin as (Ha & _). rewrite list_lookup_fmap, Hc in Ha.
    cbn [fmap option_fmap option_map] in Ha.
    apply (wfm_cost_path_to L a c q HL Hc). congruence.
  - intros p'' Hp''. by apply (wfm_lower_bound L a q p'' HL Hmin).
Qed.

(** With two layers or more: when there is no eligible path, the solver
    raises. *)
Lemma wfm_no_path (check_input : bool) :
  2 ≤ length cand_data →
  check_cand_data cand_data check_input exclude_blocked_candidates = Ok tt →
  (∀ p, ¬ eligible cand_data cut_off_n_cand exclude_blocked_candidates p) →
  shortest_path_exclude_candidates cand_data (_weight_func_max ln)
    cut_off_n_cand check_input exclude_blocked_candidates kw
  = Raise TypeError.
Proof.
  intros H2 Hchk Hnone. destruct wf_first_layer as [l_0 H0].
  destruct (length cand_data) as [|L] eqn:HL; [lia|].
  rewrite (wfm_solver_eq check_input l_0 L H0 HL Hchk).
  apply (extract_path_no_finite w dWv B N _ (wfm_row_0_finite l_0 H0) L).
  { by apply wfm_last_row. }
  intros j Hj. rewrite <- (wfm_rows_fun l_0 H0) in Hj.
  apply (Hnone (path_to rows L j)).
  apply wfm_path_eligible; [done|lia|done].
Qed.

(** ** Ties *)

(** Among the cheapest eligible paths, the path to the first cheapest
    entry of the last row comes first in the order of the ties. *)
Lemma wfm_revlex_least (L a : nat) (q : Q) (p' : list nat) :
  length cand_data = S L →
  first_min (map cS (rows L)) a (Fin q) →
  eligible cand_data cut_off_n_cand exclude_blocked_candidates p' →
  fleb (path_cost ln cand_data kw p') (Fin q) = true →
  revlex_le (path_to rows L a) p'.
Proof.
  intros HL (Ha & Hmin & Hstrict) [Hlen Hnodes] Hcost.
  destruct wf_first_layer as [l_0 H0].
  rewrite (wfm_rows_fun l_0 H0) in Ha, Hmin, Hstrict |- *.
  rewrite (wfm_path_cost_eq l_0) in Hcost by
    (first [done | left; intros t i Hi; by apply (Hnodes t i)]).
  destruct p' as [|x rest] eqn:Hp'; [cbn [length] in Hlen; lia|].
  rewrite <- Hp' in *.
  assert (length rest = L) as Hrest by (rewrite Hp' in Hlen; cbn in Hlen; lia).
  assert (last p' = Some (default x (last rest))) as Hlast.
  { rewrite Hp'. apply last_cons_default. }
  set (j := default x (last rest)) in *.
  destruct (Hnodes 0 x) as [Hx HBx]; [by rewrite Hp'|].
  destruct (lookup_lt_is_Some_2 (init_row l_0) x) as [c_x Hc_x].
  { pose proof (N_0_le l_0 H0). lia. }
  destruct (walk_lower_bound w dWv B N _ (wfm_row_0_finite l_0 H0)
              rest 0 x (cS c_x) c_x) as (c & Hc & Hle); try done.
  { apply fleb_refl_good. right.
    by apply (wfm_row_0_finite l_0 H0 x c_x). }
  { right. by apply (wfm_row_0_finite l_0 H0 x c_x). }
  { intros k i Hk. apply (Hnodes (S k) i). by rewrite Hp'. }
  replace (0 + length rest) with L in Hc by lia. fold j in Hc.
  assert (fleb (cS c) (Fin q) = true) as Hcq.
  { eapply fleb_trans; [exact Hle|]. rewrite Hp' in Hcost.
    cbn [walk_path] in Hcost. rewrite Hc_x in Hcost.
    by cbn [fmap option_fmap option_map default from_option id] in Hcost. }
  assert ((map cS (dp_row (λ t i j, Fin (w t i j)) dWv B N (init_row l_0) L))
            !! j = Some (cS c)) as Hj by (by rewrite list_lookup_fmap, Hc).
  destruct (decide (j < a)) as [Hlt|Hge].
  { pose proof (Hstrict j (cS c) Hlt Hj) as Hs.
    apply fleb_not_fltb in Hcq. congruence. }
  destruct (decide (j = a)) as [Heq|Hne].
  - rewrite Heq in Hc, Hj.
    apply (path_to_revlex_least w dWv B N _ (wfm_row_0_finite l_0 H0) L
             (N_0_le l_0 H0) a c q p'); try done.
    + congruence.
    + rewrite Hp'. cbn [length]. lia.
    + by rewrite Hlast, Heq.
  - destruct (path_to_snoc w dWv B N (init_row l_0) L a) as [l ->].
    apply last_Some in Hlast as [l' ->].
    unfold revlex_le. rewrite !rev_unit. cbn [lex_le]. left. lia.
Qed.
End WFM.

(** * Further properties of the solver *)

Lemma argmax_from_keep (best : nat) (vbest : float) (i : nat) (l : list float) :
  (∀ v, v ∈ l → v ≠ NaN ∧ fltb vbest v = false) →
  argmax_from best vbest i l = best.
Proof.
  revert i. induction l as [|v l IH]; intros i Hl; [done|].
  simpl. destruct (Hl v) as [Hnan Hlt]; [by left|].
  rewrite Hlt.
  destruct vbest; try done; destruct v; try done;
    apply IH; intros x Hx; apply Hl; by right.
Qed.

Lemma argmax_sorted (l : list float) :
  is_sorted l false = true → argmax l = 0.
Proof.
  intros Hs. destruct l as [|x l]; [done|]. cbn [argmax].
  apply argmax_from_keep. intros v Hv.
  pose proof (is_sorted_desc_head _ _ Hs v Hv) as Hle. split.
  - by apply fleb_not_NaN in Hle as [? _].
  - by apply fleb_not_fltb.
Qed.

Lemma greedy_path_sorted (cand_data : list layer) :
  scores_sorted cand_data = true →
  greedy_path cand_data = replicate (length cand_data) (Idx 0).
Proof.
  unfold scores_sorted, greedy_path.
  induction cand_data as [|l cd IH]; [done|].
  cbn [forallb map length replicate]. intros [Hl Hcd]%andb_true_iff.
  by rewrite argmax_sorted, IH.
Qed.

Lemma gaps_within_PInf (cand_data : list layer) :
  (∀ t l, cand_data !! t = Some l → is_fin (rt_cand_list l)) →
  gaps_within PInf cand_data = true.
Proof.
  induction cand_data as [|l cd IH]; intros Hfin; [done|].
  destruct cd as [|l' cd]; [done|].
  change (fleb (np_abs (fsub (rt_cand_list l) (rt_cand_list l'))) PInf
          && gaps_within PInf (l' :: cd) = true).
  apply andb_true_iff. split.
  - destruct (Hfin 0 l eq_refl) as [a ->].
    destruct (Hfin 1 l' eq_refl) as [b ->]. done.
  - apply IH. intros t x Hx. by apply (Hfin (S t)).
Qed.

Lemma skipped_false (cand_data : list layer) (t i : nat) :
  skipped false cand_data t i = false.
Proof. reflexivity. Qed.

(** The forward pass when no candidate is retained. *)
Lemma extract_path_cutoff_0 (cand_data : list layer) (l_0 : layer) (L : nat) :
  extract_path (S (S L))
    (tables_of (dp_rows (λ _ _ _, Fin 0) (λ _ _ _, NaN) (λ _ _, false)
                  (n_cand_at cand_data (AtMost 0)) (init_row l_0) (S (S L))))
  = Raise ValueError.
Proof.
  unfold extract_path. rewrite (last_row_costs (λ _ _ _, 0%Q)).
  cbn [mbind result_bind].
  assert (dp_row (λ _ _ _, Fin 0) (λ _ _ _, NaN) (λ _ _, false)
            (n_cand_at cand_data (AtMost 0)) (init_row l_0) (S L) = [])
    as ->; [|done].
  apply nil_length_inv. rewrite (length_rows_S (λ _ _ _, 0%Q)).
  unfold n_cand_at, n_cand. destruct (cand_data !! S L); lia.
Qed.

(** X1.  [shortest_path] is [shortest_path_exclude_candidates] with
    [exclude_blocked_candidates = False]: for every weight function,
    cutoff, validation flag and keyword arguments the two functions
    return the same path and cost, or raise the same exception. *)
Theorem shortest_path_excludes_nothing (cand_data : list layer)
    (weight_fun : weight_function) (cut_off_n_cand : cutoff)
    (check_input : bool) (kwds : kwargs) :
  shortest_path cand_data weight_fun cut_off_n_cand check_input kwds
  = shortest_path_exclude_candidates cand_data weight_fun cut_off_n_cand
      check_input false kwds.
Proof. apply shortest_path_eq. Qed.


Lemma scenario_eligible_0_0 : eligible scenario Unbounded false [0; 0].
Proof.
  split; [done|]. intros [|[|t]] i Hi; [| |done];
    cbn in Hi; assert (i = 0) as -> by congruence;
    (split; [cbn; lia|done]).
Qed.


(** X3.  On well-formed layers (two or more) that pass the validation,
    when no path through retained candidates that are not blocked exists,
    [shortest_path_exclude_candidates] returns nothing: following the
    [nan] parent of an entry that was never reached raises a
    [TypeError]. *)
Theorem solver_raises_without_path (ln : Q → Q) (cand_data : list layer)
    (cut_off_n_cand : cutoff) (check_input exclude_blocked_candidates : bool)
    (kw : kwargs) :
  well_formed cand_data cut_off_n_cand exclude_blocked_candidates kw = true →
  2 ≤ length cand_data →
  check_cand_data cand_data check_input exclude_blocked_candidates = Ok tt →
  (∀ p, ¬ eligible cand_data cut_off_n_cand exclude_blocked_candidates p) →
  shortest_path_exclude_candidates cand_data (_weight_func_max ln)
    cut_off_n_cand check_input exclude_blocked_candidates kw
  = Raise TypeError.
Proof. intros Hwf. by apply wfm_no_path. Qed.

Lemma last_layer_blocked_no_path (p : list nat) :
  ¬ eligible last_layer_blocked Unbounded true p.
Proof.
  intros [Hlen Hnodes].
  destruct p as [|i [|j [|k p]]]; try (cbn in Hlen; lia).
  destruct (Hnodes 1 j eq_refl) as [Hj HB]. cbn in Hj.
  destruct j as [|[|j]]; [done|done|lia].
Qed.

Lemma solver_raises_without_path_witness :
  shortest_path_exclude_candidates last_layer_blocked
    (_weight_func_max ln_tangent) Unbounded true true scenario_kwargs
  = Raise TypeError.
Proof.
  apply (solver_raises_without_path ln_tangent last_layer_blocked Unbounded
           true true scenario_kwargs).
  - reflexivity.
  - cbn. lia.
  - reflexivity.
  - exact last_layer_blocked_no_path.
Defined.





(** X6.  A cutoff of zero candidates leaves the solver nothing to choose
    from: with two layers or more that pass the validation,
    [shortest_path_exclude_candidates] raises a [ValueError] ([np.argmin]
    of an empty row), whatever the weight function is; it is never
    called. *)
Theorem cutoff_zero_raises (cand_data : list layer)
    (weight_fun : weight_function)
    (check_input exclude_blocked_candidates : bool) (kwds : kwargs) :
  2 ≤ length cand_data →
  check_cand_data cand_data check_input exclude_blocked_candidates = Ok tt →
  shortest_path_exclude_candidates cand_data weight_fun (AtMost 0)
    check_input exclude_blocked_candidates kwds
  = Raise ValueError.
Proof.
  intros H2 Hchk. unfold shortest_path_exclude_candidates. rewrite Hchk.
  cbn [mbind result_bind].
  destruct (lookup_lt_is_Some_2 cand_data 0) as [l_0 H0]; [lia|].
  rewrite (forward_rows cand_data weight_fun (AtMost 0)
             exclude_blocked_candidates kwds
             (λ _ _ _, Fin 0) (λ _ _ _, NaN) (λ _ _, false)) with (l_0 := l_0).
  - cbn [mbind result_bind].
    destruct (length cand_data) as [|[|L]]; [lia|lia|].
    apply extract_path_cutoff_0.
  - intros t i j l_t l_tp1 dW _ _ Hi. unfold n_cand in Hi. lia.
  - intros t l i _ Hi. unfold n_cand in Hi. lia.
  - done.
Qed.

Lemma cutoff_zero_raises_witness :
  shortest_path_exclude_candidates scenario (_weight_func_max ln_tangent)
    (AtMost 0) true false scenario_kwargs
  = Raise ValueError.
Proof.
  apply (cutoff_zero_raises scenario (_weight_func_max ln_tangent) true false
           scenario_kwargs).
  - cbn. lia.
  - reflexivity.
Defined.

Lemma map_nat_idx_inj (p p' : list nat) :
  map nat_idx p = map nat_idx p' → p = p'.
Proof.
  revert p'. induction p as [|x p IH]; intros [|y p'] H; try done.
  cbn [map] in H. injection H as Hxy Hp.
  f_equal; [|by apply IH]. unfold nat_idx in Hxy.
  first [lia | injection Hxy; lia].
Qed.


Lemma tied_scenario_eligible_1_1 : eligible tied_scenario Unbounded false [1; 1].
Proof.
  split; [done|]. intros [|[|t]] i Hi; [| |done];
    cbn in Hi; assert (i = 1) as -> by congruence;
    (split; [cbn; lia|done]).
Qed.


(** * Further properties of the reranking driver *)

Lemma for_each_M_inv {X St} (P : St → Prop) (xs : list X)
    (body : X → St → M St) :
  (∀ x st h h' st', P st → body x st h = (h', Ok st') → P st') →
  ∀ st h h' st', P st → for_each_M xs body st h = (h', Ok st') → P st'.
Proof.
  intros Hbody. induction xs as [|x xs IH]; intros st h h' st' HP Hrun.
  - apply ret_M_inv in Hrun as [_ ->]. done.
  - cbn [for_each_M] in Hrun.
    apply bind_M_inv in Hrun as (st1 & h1 & Hx & Hrun).
    eapply IH; [|exact Hrun]. by eapply Hbody.
Qed.

Lemma length_open_layers (t : nat) (acb : list bool) :
  length (open_layers t acb) ≤ length acb.
Proof.
  revert t. induction acb as [|b acb IH]; intros t; [done|].
  cbn [open_layers length]. specialize (IH (S t)).
  destruct b; cbn [length]; lia.
Qed.

Lemma block_cand_length (cdc : list loc) (acb : list bool) (k : nat)
    (tc : nat * pyidx) (nc : list nat) (h h' : heap) (nc' : list nat) :
  block_cand cdc acb k tc nc h = (h', Ok nc') → length nc' = length nc.
Proof.
  unfold block_cand. destruct tc as [t cand]. intros H.
  apply bind_M_inv in H as (tm & h1 & _ & H).
  apply bind_M_inv in H as (r & h2 & _ & H).
  apply bind_M_inv in H as (l & h3 & _ & H).
  apply bind_M_inv in H as (truth & h4 & _ & H).
  apply bind_M_inv in H as (n_k & h5 & _ & H).
  apply bind_M_inv in H as (nc1 & h6 & Hassign & H).
  apply bind_M_inv in H as (tm' & h7 & _ & H).
  apply bind_M_inv in H as (r' & h8 & _ & H).
  apply bind_M_inv in H as (l' & h9 & _ & H).
  apply bind_M_inv in H as (bl & h10 & _ & H).
  apply bind_M_inv in H as (bl' & h11 & _ & H).
  apply bind_M_inv in H as (u & h12 & _ & H).
  apply ret_M_inv in H as [_ ->].
  apply lift_inv in Hassign as [_ Hassign]. unfold assign in Hassign.
  case_decide; [|done]. injection Hassign as <-. by rewrite length_insert.
Qed.

Lemma update_exhausted_length (cdc : list loc) (t : nat) (acb : list bool)
    (h h' : heap) (acb' : list bool) :
  update_exhausted cdc t acb h = (h', Ok acb') → length acb' = length acb.
Proof.
  unfold update_exhausted. intros H.
  apply bind_M_inv in H as (r & h1 & _ & H).
  apply bind_M_inv in H as (l & h2 & _ & H).
  apply bind_M_inv in H as (bl & h3 & _ & H).
  apply lift_inv in H as [_ H]. unfold assign in H.
  case_decide; [|done]. injection H as <-. by rewrite length_insert.
Qed.

(** A round that succeeds records one path, one cost and one count. *)
Lemma rerank_round_inv (cdc : list loc) (wf : weight_function)
    (c : cutoff) (kw : kwargs) (k : nat) (st : rerank_state)
    (h h' : heap) (st' : rerank_state) :
  rerank_round cdc wf c kw k st h = (h', Ok st') →
  ∃ path len,
    paths st' = paths st ++ [path] ∧ lengths st' = lengths st ++ [len]
    ∧ length (num_correct st') = S (length (num_correct st))
    ∧ length (all_cand_blocked st') = length (all_cand_blocked st)
    ∧ length path = length (open_layers 0 (all_cand_blocked st)).
Proof.
  unfold rerank_round. intros H.
  apply bind_M_inv in H as (open & h1 & _ & H).
  apply bind_M_inv in H as ([path len] & h2 & _ & H).
  apply bind_M_inv in H as (u & h3 & Hassert & H).
  apply bind_M_inv in H as (nc & h4 & Hnc & H).
  apply bind_M_inv in H as (acb & h5 & Hacb & H).
  apply ret_M_inv in H as [_ ->]. cbn [paths lengths num_correct all_cand_blocked].
  exists path, len. split_and!; try done.
  - apply (for_each_M_inv (λ x, length x = S (length (num_correct st))))
      in Hnc; [done| |].
    + intros x s g g' s' Hs Hx. apply block_cand_length in Hx. congruence.
    + rewrite length_app. cbn [length]. lia.
  - apply (for_each_M_inv (λ x, length x = length (all_cand_blocked st)))
      in Hacb; [done| |done].
    intros x s g g' s' Hs Hx. apply update_exhausted_length in Hx. congruence.
  - apply lift_inv in Hassert as [_ Hassert]. unfold assert in Hassert.
    destruct (length path =? _) eqn:E; [|done]. by apply Nat.eqb_eq.
Qed.

Lemma rerank_loop_shape (cdc : list loc) (wf : weight_function)
    (c : cutoff) (kw : kwargs) (ks : list nat) (st : rerank_state)
    (h h' : heap) (st' : rerank_state) :
  rerank_loop cdc wf c kw ks st h = (h', Ok st') →
  ∃ new_paths new_lengths,
    paths st' = paths st ++ new_paths
    ∧ lengths st' = lengths st ++ new_lengths
    ∧ length new_lengths = length new_paths
    ∧ length (num_correct st') = length (num_correct st) + length new_paths
    ∧ length new_paths ≤ length ks
    ∧ Forall (λ path, length path ≤ length (all_cand_blocked st)) new_paths.
Proof.
  revert st h. induction ks as [|k ks IH]; intros st h Hrun.
  { apply ret_M_inv in Hrun as [_ ->]. exists [], [].
    rewrite !app_nil_r. split_and!; try done; cbn; lia. }
  cbn [rerank_loop] in Hrun.
  destruct (forallb id (all_cand_blocked st)).
  { apply ret_M_inv in Hrun as [_ ->]. exists [], [].
    rewrite !app_nil_r. split_and!; try done; cbn; lia. }
  apply bind_M_inv in Hrun as (st1 & h1 & Hround & Hrun).
  apply rerank_round_inv in Hround
    as (path & len & Hp & Hl & Hnc & Hacb & Hlen).
  destruct (IH st1 h1 Hrun) as (np & nl & Hp' & Hl' & Hnl & Hnc' & Hks & Hall).
  exists (path :: np), (len :: nl).
  rewrite Hp', Hl', Hp, Hl, <- !app_assoc. cbn [app length].
  split_and!; try done; try lia.
  constructor.
  - rewrite Hlen. apply length_open_layers.
  - by rewrite <- Hacb.
Qed.

(** X8.  Whenever [perform_reranking_of_candidates] returns, it returns
    as many accuracies as paths and as costs, at most [topk] of them, and
    no path is longer than the number of layers. *)
Theorem rerank_result_shape (cand_data : list loc) (topk : nat)
    (cut_off_n_cand : cutoff) (weight_function : option weight_function)
    (kwargs : kwargs) (h h' : heap)
    (topk_accs : list float) (paths : list (list pyidx)) (lengths : list float) :
  perform_reranking_of_candidates cand_data topk cut_off_n_cand
    weight_function kwargs h = (h', Ok (topk_accs, paths, lengths)) →
  length topk_accs = length paths ∧ length lengths = length paths
  ∧ length paths ≤ topk
  ∧ Forall (λ path, length path ≤ length cand_data) paths.
Proof.
  intros Hrun. unfold perform_reranking_of_candidates in Hrun.
  apply bind_M_inv in Hrun as (cdc & h1 & Hcopy & Hrun).
  apply bind_M_inv in Hrun as (wf & h2 & Hwf & Hrun).
  apply bind_M_inv in Hrun as ([] & h3 & Hinit & Hrun).
  apply bind_M_inv in Hrun as (st & h4 & Hloop & Hrun).
  apply ret_M_inv in Hrun as [_ Hres].
  apply deepcopy_refs_length in Hcopy.
  apply rerank_loop_shape in Hloop
    as (np & nl & Hp & Hl & Hnl & Hnc & Hks & Hall).
  cbn [num_correct all_cand_blocked] in *.
  injection Hres as -> -> ->.
  rewrite Hp, Hl. cbn [app]. unfold range in Hks. rewrite length_seq in Hks.
  rewrite length_replicate, Hcopy in Hall.
  rewrite length_map. unfold np_cumsum. rewrite length_cumsum_from, Hnc.
  cbn [length]. done.
Qed.

Lemma rerank_result_shape_witness :
  length [Fin (100 # 2); Fin (200 # 2)]
  = length [[Idx 1; Idx 0]; [Idx 0; Idx 1]]
  ∧ length [Fin (-130 # 100); Fin (-400 # 1000)]
    = length [[Idx 1; Idx 0]; [Idx 0; Idx 1]]
  ∧ length [[Idx 1; Idx 0]; [Idx 0; Idx 1]] ≤ 5
  ∧ Forall (λ path : list pyidx, length path ≤ length [0; 1])
      [[Idx 1; Idx 0]; [Idx 0; Idx 1]].
Proof.
  eapply (rerank_result_shape [0; 1] 5 Unbounded
            (Some (_weight_func_max ln_tangent)) scenario_kwargs scenario).
  vm_compute. reflexivity.
Defined.

(** The list comprehension that selects the layers that are not
    exhausted, against the positions of the open layers. *)
Lemma select_open_spec (cdc : list loc) (acb : list bool) (n : nat) :
  ∀ s acc h h' open,
    s + n = length acb →
    for_each_M (seq s n) (select_open cdc acb) acc h = (h', Ok open) →
    h' = h
    ∧ ∃ new, open = acc ++ new
        ∧ Forall2 (λ l tm, acb !! tm = Some false
                           ∧ ∃ r, cdc !! tm = Some r ∧ h !! r = Some l)
            new (open_layers s (drop s acb)).
Proof.
  induction n as [|n IH]; intros s acc h h' open Hlen Hrun.
  - cbn in Hrun. apply ret_M_inv in Hrun as [-> ->]. split; [done|].
    exists []. rewrite app_nil_r. split; [done|].
    rewrite drop_ge by lia. constructor.
  - cbn [seq for_each_M] in Hrun.
    apply bind_M_inv in Hrun as (acc1 & h1 & Hstep & Hrun).
    unfold select_open in Hstep.
    apply bind_M_inv in Hstep as (b & h2 & Hb & Hstep).
    apply lift_inv in Hb as [-> Hb]. apply index_Ok in Hb.
    rewrite (drop_S acb b s Hb). cbn [open_layers].
    destruct b.
    + apply ret_M_inv in Hstep as [-> ->]. apply (IH (S s)); [lia|done].
    + apply bind_M_inv in Hstep as (r & h3 & Hr & Hstep).
      apply lift_inv in Hr as [-> Hr]. apply index_Ok in Hr.
      apply bind_M_inv in Hstep as (l & h4 & Hl & Hstep).
      unfold deref in Hl. injection Hl as <- Hl. apply index_Ok in Hl.
      apply ret_M_inv in Hstep as [-> ->].
      destruct (IH (S s) (acc ++ [l]) h h' open) as (-> & new & -> & Hnew);
        [lia|done|].
      split; [done|]. exists (l :: new). rewrite <- app_assoc.
      split; [done|]. constructor; [|done]. eauto.
Qed.

(** X9.  The driver hands the solver the layers that are not exhausted,
    and [_t_map] maps a position in that list back to the layer it came
    from: the layer at position [t] of the list comprehension is
    [cand_data_c[_t_map (t, all_cand_blocked)]], a layer that is not
    exhausted; building the list changes no object. *)
Theorem t_map_selects_open_layer (cand_data_c : list loc)
    (all_cand_blocked : list bool) (h h' : heap) (open : list layer)
    (t : nat) (l : layer) :
  length all_cand_blocked = length cand_data_c →
  for_each_M (range (length cand_data_c))
    (select_open cand_data_c all_cand_blocked) [] h = (h', Ok open) →
  open !! t = Some l →
  h' = h
  ∧ ∃ tm r, _t_map t all_cand_blocked = Ok tm
            ∧ all_cand_blocked !! tm = Some false
            ∧ cand_data_c !! tm = Some r ∧ h !! r = Some l.
Proof.
  intros Hlen Hrun Ht.
  destruct (select_open_spec cand_data_c all_cand_blocked
              (length cand_data_c) 0 [] h h' open)
    as (-> & new & -> & Hnew); [lia|done|].
  split; [done|]. cbn [app] in Ht. rewrite drop_0 in Hnew.
  destruct (Forall2_lookup_l _ _ _ _ _ Hnew Ht) as (tm & Htm & Hacb & r & Hr & Hl).
  exists tm, r. split_and!; try done.
  unfold _t_map. by apply index_Ok.
Qed.

Lemma t_map_selects_open_layer_witness :
  [scenario_layer_0; scenario_layer_1; scenario_layer_1]
  = [scenario_layer_0; scenario_layer_1; scenario_layer_1]
  ∧ ∃ tm r, _t_map 1 [false; true; false] = Ok tm
            ∧ [false; true; false] !! tm = Some false
            ∧ [0; 1; 2] !! tm = Some r
            ∧ [scenario_layer_0; scenario_layer_1; scenario_layer_1] !! r
              = Some scenario_layer_1.
Proof.
  eapply (t_map_selects_open_layer [0; 1; 2] [false; true; false]
            [scenario_layer_0; scenario_layer_1; scenario_layer_1] _ _ 1
            scenario_layer_1).
  - reflexivity.
  - vm_compute. reflexivity.
  - reflexivity.
Defined.

(** * Building the candidate layers *)

Lemma length_filter_map_true {A} (f : A → bool) (l : list A) :
  length (filter (λ b, b = true) (map f l)) = length (List.filter f l).
Proof.
  induction l as [|x l IH]; [done|]. cbn [map List.filter].
  rewrite filter_cons. destruct (f x) eqn:E.
  - rewrite decide_True by done. cbn [length]. by rewrite IH.
  - rewrite decide_False by done. done.
Qed.

(** ** The loop over the candidates *)

Lemma process_candidate_inv (env : environment) (ic : string)
    (row : string * float) (st st' : loop_state) :
  process_candidate env ic row st = Ok st' →
  ls_iokrscores st' = ls_iokrscores st ++ [row.2]
  ∧ ls_id1s st' = ls_id1s st ++ [row.1]
  ∧ ls_is_true_identification st'
    = ls_is_true_identification st ++ [String.eqb ic row.1]
  ∧ length (ls_d_squared st') = S (length (ls_d_squared st))
  ∧ length (ls_wtx st') = S (length (ls_wtx st))
  ∧ ls_ranks st' = ls_ranks st ++ [ls_rank st']
  ∧ ls_rank st'
    = (if fgtb (ls_last_score st) row.2 then ls_rank st + 1 else ls_rank st)
  ∧ ls_last_score st'
    = (if fgtb (ls_last_score st) row.2 then row.2 else ls_last_score st)
  ∧ ls_rank_correct_cand st'
    = (if String.eqb ic row.1 then ls_rank st' else ls_rank_correct_cand st).
Proof.
  unfold process_candidate. destruct row as [id1 score].
  destruct (candidate_features env id1 ic) as [[d x]|e]; [|done].
  cbn [mbind result_bind]. intros [= <-]. cbn.
  rewrite !length_app. cbn [length]. split_and!; try done; lia.
Qed.

Lemma loop_lists (env : environment) (ic : string)
    (scores : list (string * float)) (st st' : loop_state) :
  for_each scores (process_candidate env ic) st = Ok st' →
  ls_iokrscores st' = ls_iokrscores st ++ map snd scores
  ∧ ls_id1s st' = ls_id1s st ++ map fst scores
  ∧ ls_is_true_identification st'
    = ls_is_true_identification st ++ map (λ row, String.eqb ic row.1) scores
  ∧ length (ls_d_squared st') = length (ls_d_squared st) + length scores
  ∧ length (ls_wtx st') = length (ls_wtx st) + length scores
  ∧ length (ls_ranks st') = length (ls_ranks st) + length scores.
Proof.
  revert st. induction scores as [|row scores IH]; intros st Hrun.
  { cbn in Hrun. injection Hrun as <-. cbn [map length].
    rewrite !app_nil_r. split_and!; try done; lia. }
  cbn [for_each] in Hrun.
  destruct (process_candidate env ic row st) as [st1|e] eqn:Hrow; [|done].
  cbn [mbind result_bind] in Hrun.
  apply process_candidate_inv in Hrow
    as (H1 & H2 & H3 & H4 & H5 & H6 & _).
  destruct (IH st1 Hrun) as (I1 & I2 & I3 & I4 & I5 & I6).
  rewrite I1, I2, I3, I4, I5, I6, H1, H2, H3, H4, H5, H6.
  rewrite <- !app_assoc, length_app. cbn [map app length].
  split_and!; try done; lia.
Qed.

(** ** What a returned dictionary tells about the inputs *)

Lemma process_inv (env : environment) (spec : string)
    (scores : list (string * float)) (msms_rts : list msms_row)
    (d : dict) (cl : candidate_list) :
  _process_single_candidate_list env spec scores msms_rts d = Ok cl →
  ∃ st,
    map rt (List.filter (λ r, String.eqb (inchikey r) spec) msms_rts)
    = [cl_rt_cand_list cl]
    ∧ d spec = Some (cl_inchi_correct_cand cl)
    ∧ length (List.filter
                (λ row, String.eqb row.1 (cl_inchi_correct_cand cl)) scores)
      = 1
    ∧ for_each scores (process_candidate env (cl_inchi_correct_cand cl))
        loop_start = Ok st
    ∧ 0 < ls_rank_correct_cand st
    ∧ cl_iokrscores cl = ls_iokrscores st
    ∧ cl_ranks cl = ls_ranks st
    ∧ cl_is_true_identification cl = ls_is_true_identification st
    ∧ cl_d_squared cl = ls_d_squared st
    ∧ cl_wtx cl = ls_wtx st
    ∧ cl_inchis cl = ls_id1s st
    ∧ cl_rank_correct_cand cl = ls_rank_correct_cand st
    ∧ cl_spec_id cl = spec.
Proof.
  unfold _process_single_candidate_list. cbv zeta. intros H.
  destruct (map rt (List.filter (λ r, String.eqb (inchikey r) spec) msms_rts))
    as [|x [|y l]] eqn:Hrt; try done.
  change (index [x] 0) with (Ok x) in H.
  cbn [length Nat.eqb assert mbind result_bind] in H.
  unfold dict_get in H. destruct (d spec) as [ic|] eqn:Hd; [|done].
  cbn [mbind result_bind] in H.
  destruct (length (List.filter (λ row, String.eqb row.1 ic) scores) =? 1)
    eqn:Hone; [|done].
  cbn [assert mbind result_bind] in H. apply Nat.eqb_eq in Hone.
  destruct (kernel_candcand env ic) as [[]|e]; [|done].
  cbn [mbind result_bind] in H.
  destruct (for_each scores (process_candidate env ic) loop_start)
    as [st|e] eqn:Hloop; [|done].
  cbn [mbind result_bind] in H.
  destruct (0 <? ls_rank_correct_cand st) eqn:Hpos; [|done].
  cbn [assert mbind result_bind] in H. apply Nat.ltb_lt in Hpos.
  injection H as <-. exists st. cbn. split_and!; done.
Qed.

(** X10.  A dictionary returned by [_process_single_candidate_list]
    describes the candidates in the order of the score table: it holds
    one score, rank, truth label, distance, order score and identifier
    per row, and exactly one candidate is labelled as the true
    identification, the one whose identifier is the structure registered
    for the spectrum; its rank is [rank_correct_cand]. *)
Theorem built_layer_has_one_true_candidate (env : environment) (spec : string)
    (scores : list (string * float)) (msms_rts : list msms_row)
    (d_inchikey2inchi : dict) (cl : candidate_list) :
  _process_single_candidate_list env spec scores msms_rts d_inchikey2inchi
  = Ok cl →
  cl_iokrscores cl = map snd scores
  ∧ cl_inchis cl = map fst scores
  ∧ length (cl_ranks cl) = length scores
  ∧ length (cl_d_squared cl) = length scores
  ∧ length (cl_wtx cl) = length scores
  ∧ cl_is_true_identification cl
    = map (λ row, String.eqb (cl_inchi_correct_cand cl) row.1) scores
  ∧ d_inchikey2inchi spec = Some (cl_inchi_correct_cand cl)
  ∧ count_true (layer_of cl) = 1.
Proof.
  intros (st & _ & Hd & Hone & Hloop & _ & -> & -> & Htrue & -> & -> & -> & _)
    %process_inv.
  apply loop_lists in Hloop as (-> & -> & Hst & -> & -> & ->).
  cbn [loop_start ls_iokrscores ls_id1s ls_ranks ls_d_squared ls_wtx
       ls_is_true_identification app length Nat.add] in *.
  split_and!; try done.
  - by rewrite Htrue.
  - unfold count_true, layer_of. cbn [is_true_identification].
    rewrite Htrue, Hst, length_filter_map_true, <- Hone.
    f_equal. apply List.filter_ext. intros row. apply String.eqb_sym.
Qed.

Lemma built_layer_has_one_true_candidate_witness :
  ∃ cl,
    _process_single_candidate_list demo_env "KEY-B" demo_scores_B demo_rows
      (dict_of_rows demo_rows) = Ok cl
    ∧ cl_is_true_identification cl = [false; false; true]
    ∧ count_true (layer_of cl) = 1.
Proof.
  eexists. split; [vm_compute; reflexivity|].
  split; [reflexivity|].
  eapply (built_layer_has_one_true_candidate demo_env "KEY-B" demo_scores_B
            demo_rows (dict_of_rows demo_rows)).
  vm_compute. reflexivity.
Defined.

(** ** Ranks *)

Lemma fltb_feq_r (a b c : float) : feq b c → fltb a b = fltb a c.
Proof.
  destruct a, b, c; simpl; try done. intros Heq.
  unfold Qltb. f_equal.
  destruct (Qle_bool q0 q) eqn:E1, (Qle_bool q1 q) eqn:E2; try done.
  - apply Qle_bool_iff in E1. rewrite Heq in E1.
    apply Qle_bool_iff in E1. congruence.
  - apply Qle_bool_iff in E2. rewrite <- Heq in E2.
    apply Qle_bool_iff in E2. congruence.
Qed.

Lemma loop_dense_ranks (env : environment) (ic : string)
    (scores : list (string * float)) :
  ∀ st st' prev,
    for_each scores (process_candidate env ic) st = Ok st' →
    feq (ls_last_score st) prev →
    is_sorted (prev :: map snd scores) false = true →
    forallb is_finb (map snd scores) = true →
    ls_ranks st' = ls_ranks st ++ dense_ranks prev (ls_rank st) (map snd scores).
Proof.
  induction scores as [|[id s] scores IH]; intros st st' prev Hrun Hfeq Hs Hfin.
  { cbn in Hrun. injection Hrun as <-. cbn. by rewrite app_nil_r. }
  cbn [for_each] in Hrun.
  destruct (process_candidate env ic (id, s) st) as [st1|e] eqn:Hrow; [|done].
  cbn [mbind result_bind] in Hrun.
  apply process_candidate_inv in Hrow
    as (_ & _ & _ & _ & _ & Hranks & Hrank & Hlast & _).
  cbn [snd] in Hrank, Hlast.
  cbn [map snd forallb] in Hfin. apply andb_true_iff in Hfin as [Hfs Hfin].
  apply is_finb_is_fin in Hfs as [σ ->].
  change (fgeb prev (Fin σ) && is_sorted (Fin σ :: map snd scores) false
          = true) in Hs.
  apply andb_true_iff in Hs as [Hprev Hs].
  assert (fgtb (ls_last_score st) (Fin σ) = fltb (Fin σ) prev) as Hcmp.
  { unfold fgtb. by apply fltb_feq_r. }
  rewrite Hcmp in Hrank, Hlast.
  rewrite (IH st1 st' (Fin σ) Hrun); try done.
  - rewrite Hranks, <- app_assoc. cbn [map snd dense_ranks app].
    rewrite Hrank. by rewrite Nat.add_1_r.
  - rewrite Hlast. destruct (fltb (Fin σ) prev) eqn:E.
    { simpl. reflexivity. }
    unfold fgeb in Hprev.
    destruct (ls_last_score st) as [| |m|], prev as [| |p|]; try done.
    simpl in Hfeq, Hprev, E |- *.
    apply Qle_bool_iff in Hprev. apply Qltb_ge in E. lra.
Qed.

(** X11.  For finite scores in descending order the ranks computed by
    [_process_single_candidate_list] are dense ranks: the first candidate
    has rank 1, and every other candidate has the rank of its
    predecessor, plus one when its score is strictly smaller. *)
Theorem ranks_are_dense (env : environment) (spec : string)
    (scores : list (string * float)) (msms_rts : list msms_row)
    (d_inchikey2inchi : dict) (cl : candidate_list) :
  _process_single_candidate_list env spec scores msms_rts d_inchikey2inchi
  = Ok cl →
  forallb is_finb (map snd scores) = true →
  is_sorted (map snd scores) false = true →
  cl_ranks cl = dense_ranks PInf 0 (map snd scores).
Proof.
  intros (st & _ & _ & _ & Hloop & _ & _ & -> & _)%process_inv Hfin Hs.
  rewrite (loop_dense_ranks env _ scores loop_start st PInf Hloop);
    try done.
  destruct scores as [|[id s] scores]; [done|].
  cbn [map snd] in Hfin, Hs |- *. cbn [forallb] in Hfin.
  apply andb_true_iff in Hfin as [Hfs _].
  apply is_finb_is_fin in Hfs as [σ ->].
  change (fgeb PInf (Fin σ) && is_sorted (Fin σ :: map snd scores) false
          = true).
  by rewrite Hs.
Qed.

Lemma ranks_are_dense_witness :
  ∃ cl,
    _process_single_candidate_list demo_env "KEY-B" demo_scores_B demo_rows
      (dict_of_rows demo_rows) = Ok cl
    ∧ cl_ranks cl = [1; 1; 2]
    ∧ cl_ranks cl = dense_ranks PInf 0 (map snd demo_scores_B).
Proof.
  eexists. split; [vm_compute; reflexivity|].
  split; [reflexivity|].
  apply (ranks_are_dense demo_env "KEY-B" demo_scores_B demo_rows
           (dict_of_rows demo_rows)); vm_compute; reflexivity.
Defined.

(** ** When a dictionary is returned *)

Lemma process_candidate_ok (env : environment) (ic : string)
    (row : string * float) (st : loop_state) :
  is_ok (candidate_features env row.1 ic) →
  ∃ st1, process_candidate env ic row st = Ok st1.
Proof.
  unfold process_candidate. destruct row as [id s]. cbn [fst].
  intros [[d x] ->]. by eexists.
Qed.

Lemma loop_ok (env : environment) (ic : string)
    (scores : list (string * float)) :
  (∀ row, row ∈ scores → is_ok (candidate_features env row.1 ic)) →
  ∀ st, ∃ st', for_each scores (process_candidate env ic) st = Ok st'.
Proof.
  induction scores as [|row scores IH]; intros Hf st; [by eexists|].
  cbn [for_each].
  destruct (process_candidate_ok env ic row st) as [st1 ->].
  { apply Hf. by left. }
  cbn [mbind result_bind].
  apply IH. intros row' Hrow. apply Hf. by right.
Qed.

Lemma loop_ranks_prefix (env : environment) (ic : string)
    (scores : list (string * float)) :
  ∀ st st', for_each scores (process_candidate env ic) st = Ok st' →
    ∃ new, ls_ranks st' = ls_ranks st ++ new.
Proof.
  induction scores as [|row scores IH]; intros st st' Hrun.
  { cbn in Hrun. injection Hrun as <-. exists []. by rewrite app_nil_r. }
  cbn [for_each] in Hrun.
  destruct (process_candidate env ic row st) as [st1|e] eqn:Hrow; [|done].
  cbn [mbind result_bind] in Hrun.
  apply process_candidate_inv in Hrow as (_ & _ & _ & _ & _ & Hranks & _).
  destruct (IH st1 st' Hrun) as [new Hnew].
  exists (ls_rank st1 :: new). by rewrite Hnew, Hranks, <- app_assoc.
Qed.

Lemma loop_no_match (env : environment) (ic : string)
    (scores : list (string * float)) :
  ∀ st st', for_each scores (process_candidate env ic) st = Ok st' →
    (∀ row, row ∈ scores → String.eqb ic row.1 = false) →
    ls_rank_correct_cand st' = ls_rank_correct_cand st.
Proof.
  induction scores as [|row scores IH]; intros st st' Hrun Hno.
  { cbn in Hrun. by injection Hrun as <-. }
  cbn [for_each] in Hrun.
  destruct (process_candidate env ic row st) as [st1|e] eqn:Hrow; [|done].
  cbn [mbind result_bind] in Hrun.
  apply process_candidate_inv in Hrow as (_ & _ & _ & _ & _ & _ & _ & _ & Hrc).
  rewrite (Hno row) in Hrc by (by left).
  rewrite (IH st1 st' Hrun), Hrc; [done|].
  intros row' Hrow'. apply Hno. by right.
Qed.

(** [rank_correct_cand] is the rank of the last candidate that matches. *)
Lemma loop_rank_correct (env : environment) (ic : string)
    (scores : list (string * float)) :
  ∀ st st' i row,
    for_each scores (process_candidate env ic) st = Ok st' →
    scores !! i = Some row → String.eqb ic row.1 = true →
    (∀ j row', i < j → scores !! j = Some row' →
       String.eqb ic row'.1 = false) →
    ls_ranks st' !! (length (ls_ranks st) + i)
    = Some (ls_rank_correct_cand st').
Proof.
  induction scores as [|row0 scores IH]; intros st st' i row Hrun Hi Hm Hlater;
    [done|].
  cbn [for_each] in Hrun.
  destruct (process_candidate env ic row0 st) as [st1|e] eqn:Hrow; [|done].
  cbn [mbind result_bind] in Hrun.
  apply process_candidate_inv in Hrow
    as (_ & _ & _ & _ & _ & Hranks & _ & _ & Hrc).
  destruct i as [|i].
  - cbn in Hi. assert (row0 = row) as -> by congruence.
    rewrite Hm in Hrc.
    rewrite (loop_no_match env ic scores st1 st' Hrun).
    + destruct (loop_ranks_prefix env ic scores st1 st' Hrun) as [new ->].
      rewrite Hranks, Hrc, <- app_assoc, Nat.add_0_r. cbn [app].
      by rewrite list_lookup_middle.
    + intros row' [j Hj]%list_elem_of_lookup.
      apply (Hlater (S j) row'); [lia|done].
  - rewrite <- (IH st1 st' i row Hrun Hi Hm).
    + rewrite Hranks, length_app. cbn [length]. f_equal. lia.
    + intros j row' Hj Hrow'. apply (Hlater (S j) row'); [lia|done].
Qed.

Lemma loop_rank_pos (env : environment) (ic : string)
    (scores : list (string * float)) :
  ∀ st st', for_each scores (process_candidate env ic) st = Ok st' →
    forallb is_finb (map snd scores) = true →
    ls_last_score st = PInf ∨ 0 < ls_rank st →
    0 < ls_rank_correct_cand st
    ∨ (∃ row, row ∈ scores ∧ String.eqb ic row.1 = true) →
    0 < ls_rank_correct_cand st'.
Proof.
  induction scores as [|[id s] scores IH]; intros st st' Hrun Hfin HJ Hm.
  { cbn in Hrun. injection Hrun as <-.
    destruct Hm as [?|(row & Hrow & _)]; [done|]. by apply elem_of_nil in Hrow. }
  cbn [for_each] in Hrun.
  destruct (process_candidate env ic (id, s) st) as [st1|e] eqn:Hrow; [|done].
  cbn [mbind result_bind] in Hrun.
  apply process_candidate_inv in Hrow
    as (_ & _ & _ & _ & _ & _ & Hrank & Hlast & Hrc).
  cbn [fst snd] in Hrank, Hlast, Hrc.
  cbn [map snd forallb] in Hfin. apply andb_true_iff in Hfin as [Hfs Hfin].
  apply is_finb_is_fin in Hfs as [σ ->].
  assert (0 < ls_rank st1) as Hpos.
  { rewrite Hrank. destruct HJ as [->|?].
    - change (0 < ls_rank st + 1). lia.
    - destruct (fgtb _ _); lia. }
  apply (IH st1 st' Hrun Hfin); [by right|].
  destruct (String.eqb ic id) eqn:E.
  { left. by rewrite Hrc. }
  destruct Hm as [?|(row & Hrow & Hmatch)]; [left; by rewrite Hrc|].
  apply elem_of_cons in Hrow as [->|Hrow]; [cbn in Hmatch; congruence|].
  right. by exists row.
Qed.

(** A list with exactly one match has a position that matches, and no
    later position matches. *)
Lemma one_match {A} (f : A → bool) (l : list A) :
  length (List.filter f l) = 1 →
  ∃ i x, l !! i = Some x ∧ f x = true
         ∧ ∀ j y, i < j → l !! j = Some y → f y = false.
Proof.
  induction l as [|x l IH]; [done|]. cbn [List.filter].
  destruct (f x) eqn:E.
  - cbn [length]. intros Hnil. exists 0, x. split_and!; try done.
    intros [|j] y Hj Hy; [lia|]. cbn in Hy.
    destruct (f y) eqn:Ey; [|done].
    assert (y ∈ List.filter f l) as Hin.
    { apply list_elem_of_In, List.filter_In. split; [|done].
      apply list_elem_of_In. by eapply list_elem_of_lookup_2. }
    destruct (List.filter f l); [by apply elem_of_nil in Hin|done].
  - intros Hone. destruct (IH Hone) as (i & y & Hi & Hy & Hlater).
    exists (S i), y. split_and!; try done.
    intros [|j] z Hj Hz; [lia|]. apply (Hlater j z); [lia|done].
Qed.

(** X12.  [_process_single_candidate_list] returns a dictionary whenever
    exactly one row of [msms_rts] belongs to the spectrum, the spectrum
    is registered in [d_inchikey2inchi], exactly one candidate has the
    registered structure, the kernel and order scores can be computed
    and the scores are finite; the dictionary holds the retention time of
    the spectrum, and [rank_correct_cand] is the rank of the true
    candidate, which is at least 1: the final assertion cannot fail. *)
Theorem process_single_candidate_list_returns (env : environment)
    (spec : string) (scores : list (string * float))
    (msms_rts : list msms_row) (d_inchikey2inchi : dict)
    (rt_value : float) (ic : string) :
  map rt (List.filter (λ r, String.eqb (inchikey r) spec) msms_rts)
  = [rt_value] →
  d_inchikey2inchi spec = Some ic →
  length (List.filter (λ row, String.eqb row.1 ic) scores) = 1 →
  kernel_candcand env ic = Ok tt →
  (∀ row, row ∈ scores → is_ok (candidate_features env row.1 ic)) →
  forallb is_finb (map snd scores) = true →
  ∃ cl i id1 score,
    _process_single_candidate_list env spec scores msms_rts d_inchikey2inchi
    = Ok cl
    ∧ cl_rt_cand_list cl = rt_value
    ∧ cl_inchi_correct_cand cl = ic
    ∧ scores !! i = Some (id1, score) ∧ id1 = ic
    ∧ cl_ranks cl !! i = Some (cl_rank_correct_cand cl)
    ∧ 0 < cl_rank_correct_cand cl.
Proof.
  intros Hrt Hd Hone Hk Hf Hfin.
  destruct (loop_ok env ic scores Hf loop_start) as [st Hloop].
  assert (length (List.filter (λ row, String.eqb ic row.1) scores) = 1)
    as Hone'.
  { rewrite <- Hone. f_equal. apply List.filter_ext. intros row.
    apply String.eqb_sym. }
  destruct (one_match _ _ Hone') as (i & [id1 score] & Hi & Hm & Hlater).
  assert (0 < ls_rank_correct_cand st) as Hpos.
  { apply (loop_rank_pos env ic scores loop_start st Hloop Hfin); [by left|].
    right. exists (id1, score). split; [|done].
    by eapply list_elem_of_lookup_2. }
  pose proof (loop_rank_correct env ic scores loop_start st i (id1, score)
                Hloop Hi Hm Hlater) as Hrank.
  cbn [loop_start ls_ranks length Nat.add] in Hrank.
  eexists _, i, id1, score. split_and!.
  - unfold _process_single_candidate_list. cbv zeta. rewrite Hrt.
    change (index [rt_value] 0) with (Ok rt_value).
    cbn [length Nat.eqb assert mbind result_bind].
    unfold dict_get. rewrite Hd. cbn [mbind result_bind].
    rewrite Hone. cbn [Nat.eqb assert mbind result_bind].
    rewrite Hk. cbn [mbind result_bind]. rewrite Hloop.
    cbn [mbind result_bind].
    rewrite (proj2 (Nat.ltb_lt _ _) Hpos). cbn [assert mbind result_bind].
    reflexivity.
  - done.
  - done.
  - done.
  - cbn [fst] in Hm. by apply String.eqb_eq in Hm.
  - done.
  - done.
Qed.

Lemma process_single_candidate_list_returns_witness :
  ∃ cl i id1 score,
    _process_single_candidate_list demo_env "KEY-B" demo_scores_B demo_rows
      (dict_of_rows demo_rows) = Ok cl
    ∧ cl_rt_cand_list cl = Fin 5
    ∧ cl_inchi_correct_cand cl = "InChI=B"%string
    ∧ demo_scores_B !! i = Some (id1, score) ∧ id1 = "InChI=B"%string
    ∧ cl_ranks cl !! i = Some (cl_rank_correct_cand cl)
    ∧ 0 < cl_rank_correct_cand cl.
Proof.
  apply (process_single_candidate_list_returns demo_env "KEY-B" demo_scores_B
           demo_rows (dict_of_rows demo_rows) (Fin 5) "InChI=B").
  - reflexivity.
  - reflexivity.
  - reflexivity.
  - reflexivity.
  - intros row _. by eexists.
  - reflexivity.
Defined.

(** ** The whole structure *)

Lemma for_each_collect {X Y} (f : X → result Y) (xs : list X) :
  ∀ acc l,
    for_each xs (λ x acc, y ← f x; Ok (acc ++ [y])) acc = Ok l →
    ∃ new, l = acc ++ new ∧ Forall2 (λ x y, f x = Ok y) xs new.
Proof.
  induction xs as [|x xs IH]; intros acc l Hrun.
  { cbn in Hrun. injection Hrun as <-. exists []. by rewrite app_nil_r. }
  cbn [for_each] in Hrun. destruct (f x) as [y|e] eqn:Hx; [|done].
  cbn [mbind result_bind] in Hrun.
  destruct (IH _ _ Hrun) as (new & -> & Hnew).
  exists (y :: new). rewrite <- app_assoc. split; [done|]. by constructor.
Qed.

Lemma dict_of_rows_snoc (rows : list msms_row) (r : msms_row) (k : string) :
  dict_of_rows (rows ++ [r]) k
  = if String.eqb k (inchikey r) then Some (inchi r) else dict_of_rows rows k.
Proof. unfold dict_of_rows. by rewrite fold_left_app. Qed.

(** The dictionary holds the structure of the last row of each key. *)
Lemma dict_of_rows_last (rows : list msms_row) (k : string) :
  dict_of_rows rows k
  = inchi <$> last (List.filter (λ r, String.eqb (inchikey r) k) rows).
Proof.
  induction rows as [|r rows IH] using rev_ind; [done|].
  rewrite dict_of_rows_snoc, List.filter_app. cbn [List.filter].
  rewrite (String.eqb_sym k). destruct (String.eqb (inchikey r) k).
  - by rewrite last_snoc.
  - by rewrite app_nil_r.
Qed.

Lemma filter_two {A} (f : A → bool) (l : list A) (i j : nat) (a b : A) :
  l !! i = Some a → l !! j = Some b → i < j → f a = true → f b = true →
  2 ≤ length (List.filter f l).
Proof.
  revert i j. induction l as [|x l IH]; intros i j Hi Hj Hij Ha Hb; [done|].
  cbn [List.filter]. destruct i as [|i].
  - cbn in Hi. assert (x = a) as -> by congruence. rewrite Ha.
    destruct j as [|j]; [lia|]. cbn in Hj. cbn [length].
    assert (b ∈ List.filter f l) as Hin.
    { apply list_elem_of_In, List.filter_In. split; [|done].
      apply list_elem_of_In. by eapply list_elem_of_lookup_2. }
    destruct (List.filter f l); [by apply elem_of_nil in Hin|cbn; lia].
  - destruct j as [|j]; [lia|]. cbn in Hi, Hj.
    pose proof (IH i j Hi Hj ltac:(lia) Ha Hb).
    destruct (f x); cbn [length]; lia.
Qed.

Lemma candidate_inv (env : environment) (spec : string)
    (msms_rts : list msms_row) (d : dict) (cl : candidate_list) :
  _candidate_iokrscores_and_rankingscores env spec msms_rts d = Ok cl →
  ∃ scores,
    load_candidate_scorings env spec = Ok scores
    ∧ _process_single_candidate_list env spec scores msms_rts d = Ok cl.
Proof.
  unfold _candidate_iokrscores_and_rankingscores.
  destruct (load_candidate_scorings env spec) as [scores|e]; [|done].
  cbn [mbind result_bind].
  destruct (load_candidate_fingerprints env spec) as [[]|e]; [|done].
  cbn [mbind result_bind]. intros H. by exists scores.
Qed.

(** What [build_candidate_structure] returns, layer by layer. *)
Lemma build_inv (env : environment) (l_data : list candidate_list) :
  build_candidate_structure env = Ok l_data →
  ∃ frame,
    read_msms_rts env = Ok frame
    ∧ Forall2
        (λ row cl, ∃ scores,
           load_candidate_scorings env (inchikey row) = Ok scores
           ∧ _process_single_candidate_list env (inchikey row) scores
               (sort_values_rt env frame)
               (dict_of_rows (sort_values_rt env frame)) = Ok cl)
        (sort_values_rt env frame) l_data.
Proof.
  unfold build_candidate_structure.
  destruct (read_msms_rts env) as [frame|e]; [|done].
  cbn [mbind result_bind]. cbv zeta. intros Hrun. exists frame.
  split; [done|].
  apply for_each_collect in Hrun as (new & -> & Hnew). cbn [app].
  apply Forall2_fmap_l in Hnew.
  eapply Forall2_impl; [exact Hnew|]. intros row cl Hcl. cbn in Hcl.
  by apply candidate_inv.
Qed.

Lemma build_layer_facts (env : environment) (rows : list msms_row)
    (l_data : list candidate_list) (t : nat) (row : msms_row) :
  Forall2
    (λ row cl, ∃ scores,
       load_candidate_scorings env (inchikey row) = Ok scores
       ∧ _process_single_candidate_list env (inchikey row) scores rows
           (dict_of_rows rows) = Ok cl)
    rows l_data →
  rows !! t = Some row →
  ∃ cl scores,
    l_data !! t = Some cl
    ∧ load_candidate_scorings env (inchikey row) = Ok scores
    ∧ cl_iokrscores cl = map snd scores
    ∧ List.filter (λ r, String.eqb (inchikey r) (inchikey row)) rows = [row]
    ∧ cl_spec_id cl = inchikey row
    ∧ cl_rt_cand_list cl = rt row
    ∧ cl_inchi_correct_cand cl = inchi row
    ∧ count_true (layer_of cl) = 1.
Proof.
  intros Hall Ht.
  destruct (Forall2_lookup_l _ _ _ _ _ Hall Ht)
    as (cl & Hcl & scores & Hload & Hproc).
  exists cl, scores. split; [done|]. split; [done|].
  destruct (process_inv _ _ _ _ _ _ Hproc)
    as (st & Hrt & Hd & Hone & Hloop & _ & Hsc & _ & Htrue & _ & _ & _ & _
        & Hspec).
  assert (List.filter (λ r, String.eqb (inchikey r) (inchikey row)) rows
          = [row]) as Hfilter.
  { assert (row ∈ List.filter
                    (λ r, String.eqb (inchikey r) (inchikey row)) rows)
      as Hin.
    { apply list_elem_of_In, List.filter_In. split.
      - apply list_elem_of_In. by eapply list_elem_of_lookup_2.
      - apply String.eqb_refl. }
    destruct (List.filter _ rows) as [|r [|r' l]]; try done.
    apply list_elem_of_singleton in Hin. by rewrite Hin. }
  rewrite Hfilter in Hrt. cbn [map] in Hrt.
  rewrite dict_of_rows_last, Hfilter in Hd.
  cbn [last fmap option_fmap option_map] in Hd.
  apply loop_lists in Hloop as (Hsc' & _ & Hst & _).
  cbn [loop_start ls_iokrscores ls_is_true_identification app] in Hsc', Hst.
  split_and!; try congruence.
  unfold count_true, layer_of. cbn [is_true_identification].
  rewrite Htrue, Hst, length_filter_map_true, <- Hone.
  f_equal. apply List.filter_ext. intros r. apply String.eqb_sym.
Qed.

(** X13.  Whenever [build_candidate_structure] returns, it returns one
    dictionary per spectrum, in the order of the sorted table
    [msms_rts]; the identifiers of the spectra are pairwise distinct
    (a spectrum listed twice fails an assertion); and the dictionary of
    a spectrum holds its identifier, its retention time, its structure
    as the correct candidate, and exactly one candidate labelled as the
    true identification. *)
Theorem build_candidate_structure_layers (env : environment)
    (l_data : list candidate_list) :
  build_candidate_structure env = Ok l_data →
  ∃ frame,
    read_msms_rts env = Ok frame
    ∧ length l_data = length (sort_values_rt env frame)
    ∧ NoDup (map inchikey (sort_values_rt env frame))
    ∧ ∀ t cl, l_data !! t = Some cl →
        ∃ row, sort_values_rt env frame !! t = Some row
               ∧ cl_spec_id cl = inchikey row
               ∧ cl_rt_cand_list cl = rt row
               ∧ cl_inchi_correct_cand cl = inchi row
               ∧ count_true (layer_of cl) = 1.
Proof.
  intros (frame & Hread & Hall)%build_inv. exists frame.
  set (rows := sort_values_rt env frame) in *.
  split_and!.
  - done.
  - symmetry. by eapply Forall2_length.
  - apply NoDup_alt. intros i j k Hi Hj.
    rewrite list_lookup_fmap in Hi, Hj.
    destruct (rows !! i) as [a|] eqn:Ha; [|done].
    destruct (rows !! j) as [b|] eqn:Hb; [|done].
    cbn [fmap option_fmap option_map] in Hi, Hj.
    destruct (build_layer_facts env rows l_data i a Hall Ha)
      as (_ & _ & _ & _ & _ & Hfilter & _).
    destruct (decide (i = j)) as [|Hne]; [done|exfalso].
    assert (2 ≤ length (List.filter
                          (λ r, String.eqb (inchikey r) (inchikey a)) rows))
      as Htwo.
    { assert (String.eqb (inchikey a) (inchikey a) = true) as Haa
        by apply String.eqb_refl.
      assert (String.eqb (inchikey b) (inchikey a) = true) as Hba
        by (apply String.eqb_eq; congruence).
      destruct (decide (i < j)).
      - by apply (filter_two _ rows i j a b).
      - apply (filter_two _ rows j i b a); try done. lia. }
    rewrite Hfilter in Htwo. cbn in Htwo. lia.
  - intros t cl Hcl.
    destruct (Forall2_lookup_r _ _ _ _ _ Hall Hcl) as (row & Hrow & _).
    destruct (build_layer_facts env rows l_data t row Hall Hrow)
      as (cl' & _ & Hcl' & _ & _ & _ & H1 & H2 & H3 & H4).
    assert (cl' = cl) as -> by congruence.
    by exists row.
Qed.

Lemma build_candidate_structure_layers_witness :
  ∃ l_data frame,
    build_candidate_structure demo_env = Ok l_data
    ∧ read_msms_rts demo_env = Ok frame
    ∧ length l_data = length (sort_values_rt demo_env frame)
    ∧ NoDup (map inchikey (sort_values_rt demo_env frame)).
Proof.
  eexists.
  assert (build_candidate_structure demo_env = Ok _) as Hrun
    by (vm_compute; reflexivity).
  destruct (build_candidate_structure_layers demo_env _ Hrun)
    as (frame & H1 & H2 & H3 & _).
  exists frame. by split_and!.
Defined.

(** A table that lists the spectrum [KEY-A] twice is refused. *)
Lemma duplicate_spectrum_raises :
  build_candidate_structure duplicate_env = Raise AssertionError.
Proof. vm_compute. reflexivity. Qed.

Lemma validation_of_built (rows : list msms_row)
    (l_data : list candidate_list) (prev : float) :
  Forall2 (λ row cl, cl_rt_cand_list cl = rt row
                     ∧ is_sorted (cl_iokrscores cl) false = true)
    rows l_data →
  rts_sorted prev rows = true →
  validation_b false prev (map layer_of l_data) = true.
Proof.
  intros Hall. revert prev.
  induction Hall as [|row cl rows l_data [Hrt Hs] _ IH]; intros prev Hsorted;
    [done|].
  cbn [rts_sorted] in Hsorted. apply andb_true_iff in Hsorted as [Hge Hrest].
  cbn [map validation_b]. unfold layer_check_b, layer_of at 1 2 3.
  cbn [iokrscores rt_cand_list]. rewrite Hs, Hrt, Hge. cbn [andb].
  by apply IH.
Qed.

(** X14.  The structure that [build_candidate_structure] returns passes
    the input validation of the solver: when the table [msms_rts] is
    sorted by retention time and the score tables are in descending order
    (as [sort_values] leaves them), the layers have descending scores and
    retention times that do not decrease, so that [check_input = True]
    raises no assertion. *)
Theorem built_structure_passes_validation (env : environment)
    (l_data : list candidate_list) (frame : list msms_row) :
  build_candidate_structure env = Ok l_data →
  read_msms_rts env = Ok frame →
  rts_sorted NInf (sort_values_rt env frame) = true →
  (∀ spec scores, load_candidate_scorings env spec = Ok scores →
     is_sorted (map snd scores) false = true) →
  check_cand_data (map layer_of l_data) true false = Ok tt.
Proof.
  intros (frame' & Hread' & Hall)%build_inv Hread Hrts Hscores.
  assert (frame' = frame) as -> by congruence.
  set (rows := sort_values_rt env frame) in *.
  unfold check_cand_data, range.
  pose proof (check_loop_eq false [] (map layer_of l_data) NInf) as Hloop.
  cbn [length app] in Hloop. rewrite Hloop.
  rewrite (validation_of_built rows l_data NInf); [done| |done].
  apply Forall2_same_length_lookup. split; [by eapply Forall2_length|].
  intros t row cl Hrow Hcl.
  destruct (build_layer_facts env rows l_data t row Hall Hrow)
    as (cl' & scores & Hcl' & Hload & Hsc & _ & _ & Hrt & _).
  assert (cl' = cl) as -> by congruence.
  split; [done|]. rewrite Hsc. by eapply Hscores.
Qed.

Lemma demo_scorings_sorted (spec : string) (scores : list (string * float)) :
  load_candidate_scorings demo_env spec = Ok scores →
  is_sorted (map snd scores) false = true.
Proof.
  cbn [demo_env load_candidate_scorings].
  destruct (String.eqb spec "KEY-A"); [by intros [= <-]|].
  destruct (String.eqb spec "KEY-B"); [by intros [= <-]|done].
Qed.

Lemma built_structure_passes_validation_witness :
  ∃ l_data,
    build_candidate_structure demo_env = Ok l_data
    ∧ check_cand_data (map layer_of l_data) true false = Ok tt.
Proof.
  eexists.
  assert (build_candidate_structure demo_env = Ok _) as Hrun
    by (vm_compute; reflexivity).
  split; [exact Hrun|].
  apply (built_structure_passes_validation demo_env _ demo_rows Hrun).
  - reflexivity.
  - reflexivity.
  - exact demo_scorings_sorted.
Defined.

(** * Excluding blocked candidates when none is blocked *)

Section Unblocked.
Variable ln : Q → Q.
Variable cand_data : list layer.
Variable cut_off_n_cand : cutoff.
Variable kwds_c : kwargs.

Local Abbreviation prepared := (unblocked <$> cand_data).

Lemma weight_func_max_unblocked u v kw :
  _weight_func_max ln prepared u v kw = _weight_func_max ln cand_data u v kw.
Proof.
  unfold _weight_func_max.
  destruct (kw_D kw), (kw_use_sign kw), (kw_epsilon_rt kw), (kw_use_log kw);
    try reflexivity.
  cbn [has_key mbind result_bind]. destruct u as [t i], v as [tp1 j].
  rewrite !index_fmap.
  destruct (index cand_data tp1) as [l_tp1|]; [|reflexivity].
  cbn [mbind result_bind unblocked with_is_blocked iokrscores].
  destruct (index (iokrscores l_tp1) j); [|reflexivity].
  cbn [mbind result_bind].
  destruct (index cand_data t) as [l_t|]; reflexivity.
Qed.

Lemma skip_blocked_unblocked (t i : nat) (l : layer) :
  cand_data !! t = Some l → i < length (iokrscores l) →
  skip_blocked true prepared t i = Ok false.
Proof.
  intros Ht Hi. unfold skip_blocked. rewrite index_fmap.
  rewrite (proj2 (index_Ok _ _ _) Ht).
  cbn [mbind result_bind unblocked with_is_blocked is_blocked].
  apply index_Ok. by apply lookup_replicate_2.
Qed.

Lemma relax_edge_unblocked t i s_t_i dW_t_i j tb (l_tp1 : layer) :
  cand_data !! (t + 1) = Some l_tp1 → j < length (iokrscores l_tp1) →
  relax_edge prepared (_weight_func_max ln) true kwds_c t i s_t_i dW_t_i j tb
  = relax_edge cand_data (_weight_func_max ln) false kwds_c
      t i s_t_i dW_t_i j tb.
Proof.
  intros Htp1 Hj. unfold relax_edge.
  rewrite (skip_blocked_unblocked (t + 1) j l_tp1 Htp1 Hj).
  by rewrite weight_func_max_unblocked.
Qed.

Lemma relax_from_unblocked t n_cand_tp1 i tb (l_t l_tp1 : layer) :
  cand_data !! t = Some l_t → i < length (iokrscores l_t) →
  cand_data !! (t + 1) = Some l_tp1 → n_cand_tp1 ≤ length (iokrscores l_tp1) →
  relax_from prepared (_weight_func_max ln) true kwds_c t n_cand_tp1 i tb
  = relax_from cand_data (_weight_func_max ln) false kwds_c
      t n_cand_tp1 i tb.
Proof.
  intros Ht Hi Htp1 Hn. unfold relax_from.
  rewrite (skip_blocked_unblocked t i l_t Ht Hi).
  cbn [skip_blocked mbind result_bind].
  repeat bind_both; try reflexivity.
  apply for_each_ext. intros j tb' Hj%elem_of_range.
  apply (relax_edge_unblocked _ _ _ _ _ _ l_tp1); [done|lia].
Qed.

Lemma forward_step_unblocked t tb :
  forward_step prepared (_weight_func_max ln) cut_off_n_cand true kwds_c t tb
  = forward_step cand_data (_weight_func_max ln) cut_off_n_cand false
      kwds_c t tb.
Proof.
  unfold forward_step. rewrite !index_fmap.
  destruct (index cand_data t) as [l_t|] eqn:Ht; [|reflexivity].
  cbn [mbind result_bind].
  destruct (index cand_data (t + 1)) as [l_tp1|] eqn:Htp1; [|reflexivity].
  cbn [mbind result_bind].
  change (n_cand (unblocked l_t) cut_off_n_cand)
    with (n_cand l_t cut_off_n_cand).
  change (n_cand (unblocked l_tp1) cut_off_n_cand)
    with (n_cand l_tp1 cut_off_n_cand).
  apply index_Ok in Ht. apply index_Ok in Htp1.
  apply for_each_ext. intros i tb' Hi%elem_of_range.
  apply (relax_from_unblocked _ _ _ _ l_t l_tp1); try done.
  - pose proof (n_cand_le l_t cut_off_n_cand). lia.
  - apply n_cand_le.
Qed.

Lemma forward_unblocked :
  forward prepared (_weight_func_max ln) cut_off_n_cand true kwds_c
  = forward cand_data (_weight_func_max ln) cut_off_n_cand false kwds_c.
Proof.
  unfold forward. rewrite index_fmap, length_fmap.
  destruct (index cand_data 0) as [l_0|]; [|reflexivity].
  cbn [mbind result_bind].
  change (init_tables (unblocked l_0)) with (init_tables l_0).
  apply for_each_ext. intros t tb _. apply forward_step_unblocked.
Qed.

Lemma check_layer_unblocked t rt :
  check_layer prepared true t rt = check_layer cand_data false t rt.
Proof.
  unfold check_layer. rewrite index_fmap.
  destruct (index cand_data t) as [l|]; [|reflexivity].
  cbn [mbind result_bind unblocked with_is_blocked iokrscores rt_cand_list
       is_blocked has_key].
  rewrite length_replicate, Nat.eqb_refl. reflexivity.
Qed.

Lemma check_cand_data_unblocked check_input :
  check_cand_data prepared check_input true
  = check_cand_data cand_data check_input false.
Proof.
  unfold check_cand_data. destruct check_input; [|reflexivity].
  rewrite length_fmap.
  by rewrite (for_each_ext _ _ _ _ (λ t rt _, check_layer_unblocked t rt)).
Qed.

Lemma solver_unblocked check_input :
  shortest_path_exclude_candidates prepared (_weight_func_max ln)
    cut_off_n_cand check_input true kwds_c
  = shortest_path_exclude_candidates cand_data (_weight_func_max ln)
      cut_off_n_cand check_input false kwds_c.
Proof.
  unfold shortest_path_exclude_candidates.
  by rewrite check_cand_data_unblocked, forward_unblocked, length_fmap.
Qed.
End Unblocked.

(** X15.  As long as no candidate is blocked, excluding blocked
    candidates changes nothing: on layers that carry a blocked vector
    with every flag [False], as the reranking driver prepares them,
    [shortest_path_exclude_candidates] with
    [exclude_blocked_candidates = True] and [_weight_func_max] returns
    what [shortest_path] returns on the layers without the vector (or
    raises the same exception), for every cutoff, validation flag and
    configuration. *)
Theorem nothing_blocked_is_shortest_path (ln : Q → Q)
    (cand_data : list layer) (cut_off_n_cand : cutoff) (check_input : bool)
    (kwds : kwargs) :
  shortest_path_exclude_candidates (unblocked <$> cand_data)
    (_weight_func_max ln) cut_off_n_cand check_input true kwds
  = shortest_path cand_data (_weight_func_max ln) cut_off_n_cand
      check_input kwds.
Proof. by rewrite solver_unblocked, shortest_path_eq. Qed.

(** * A cutoff that cuts nothing *)

Lemma forward_step_cutoff_all (cand_data : list layer)
    (weight_fun : weight_function) (n : nat)
    (exclude_blocked_candidates : bool) (kwds_c : kwargs) (t : nat)
    (tb : tables) :
  Forall (λ l, length (iokrscores l) ≤ n) cand_data →
  forward_step cand_data weight_fun (AtMost n) exclude_blocked_candidates
    kwds_c t tb
  = forward_step cand_data weight_fun Unbounded exclude_blocked_candidates
      kwds_c t tb.
Proof.
  intros Hall. unfold forward_step.
  destruct (index cand_data t) as [l_t|] eqn:Ht; [|reflexivity].
  cbn [mbind result_bind].
  destruct (index cand_data (t + 1)) as [l_tp1|] eqn:Htp1; [|reflexivity].
  cbn [mbind result_bind].
  apply index_Ok in Ht. apply index_Ok in Htp1.
  pose proof (proj1 (Forall_lookup _ _) Hall _ _ Ht) as Hl_t.
  pose proof (proj1 (Forall_lookup _ _) Hall _ _ Htp1) as Hl_tp1.
  unfold n_cand. cbn beta in Hl_t, Hl_tp1.
  by rewrite !Nat.min_l by done.
Qed.

(** X17.  A cutoff that is not smaller than any candidate list has no
    effect: with [cut_off_n_cand = n] and no layer of more than [n]
    candidates, [shortest_path_exclude_candidates] returns what it
    returns with the default [cut_off_n_cand = np.inf], for every weight
    function and every setting of the two flags. *)
Theorem large_cutoff_cuts_nothing (cand_data : list layer)
    (weight_fun : weight_function) (n : nat)
    (check_input exclude_blocked_candidates : bool) (kwds : kwargs) :
  Forall (λ l, length (iokrscores l) ≤ n) cand_data →
  shortest_path_exclude_candidates cand_data weight_fun (AtMost n)
    check_input exclude_blocked_candidates kwds
  = shortest_path_exclude_candidates cand_data weight_fun Unbounded
      check_input exclude_blocked_candidates kwds.
Proof.
  intros Hall. unfold shortest_path_exclude_candidates, forward.
  destruct (check_cand_data _ _ _); [|reflexivity]. cbn [mbind result_bind].
  destruct (index cand_data 0) as [l_0|]; [|reflexivity].
  cbn [mbind result_bind].
  by rewrite (for_each_ext _ _ _ _
                (λ t tb _, forward_step_cutoff_all _ _ _ _ _ t tb Hall)).
Qed.

Lemma large_cutoff_cuts_nothing_witness :
  shortest_path_exclude_candidates scenario (_weight_func_max ln_tangent)
    (AtMost 2) true false scenario_kwargs
  = shortest_path_exclude_candidates scenario (_weight_func_max ln_tangent)
      Unbounded true false scenario_kwargs.
Proof.
  apply large_cutoff_cuts_nothing. repeat constructor.
Defined.

(** * The first round of the reranking *)

(** ** The copy and the blocked vectors *)

(** [copy.deepcopy] leaves the objects of the caller in place, and every
    copy holds what its original holds. *)
Lemma deepcopy_refs_content (refs : list loc) :
  ∀ memo h h' cs,
    (∀ r c, (r, c) ∈ memo → ∃ l, h !! r = Some l ∧ h !! c = Some l) →
    deepcopy_refs memo refs h = (h', Ok cs) →
    h `prefix_of` h'
    ∧ Forall2 (λ r c, ∃ l, h' !! r = Some l ∧ h' !! c = Some l) refs cs.
Proof.
  induction refs as [|r refs IH]; intros memo h h' cs Hmemo Hrun.
  { cbn in Hrun. apply ret_M_inv in Hrun as [-> ->]. by split. }
  cbn [deepcopy_refs] in Hrun.
  destruct (memo_find memo r) as [c|] eqn:Hfind.
  - apply bind_M_inv in Hrun as (cs' & h1 & Hrec & [-> ->]%ret_M_inv).
    destruct (IH _ _ _ _ Hmemo Hrec) as [Hpre Hall]. split; [done|].
    constructor; [|done].
    destruct (Hmemo r c (memo_find_Some _ _ _ Hfind)) as (l & Hr & Hc).
    exists l. split; by eapply prefix_lookup_Some.
  - apply bind_M_inv in Hrun as (obj & h1 & Hobj & Hrun).
    unfold deref in Hobj. injection Hobj as <- Hobj. apply index_Ok in Hobj.
    apply bind_M_inv in Hrun as (c & h2 & Halloc & Hrun).
    unfold alloc in Halloc. injection Halloc as <- <-.
    apply bind_M_inv in Hrun as (cs' & h3 & Hrec & [-> ->]%ret_M_inv).
    assert (h `prefix_of` h ++ [obj]) as Hpre1 by by apply prefix_app_r.
    destruct (IH ((r, length h) :: memo) (h ++ [obj]) h3 cs') as [Hpre Hall].
    { intros r' c' [Heq|Hin]%elem_of_cons.
      - injection Heq as -> ->. exists obj. split.
        + by eapply prefix_lookup_Some.
        + by apply list_lookup_middle.
      - destruct (Hmemo r' c' Hin) as (l & Hr & Hc).
        exists l. split; by eapply prefix_lookup_Some. }
    { exact Hrec. }
    split; [by etrans|]. constructor; [|done].
    exists obj. split; (eapply prefix_lookup_Some; [|exact Hpre]).
    + by eapply prefix_lookup_Some.
    + by apply list_lookup_middle.
Qed.

Lemma for_each_M_seq_inv {St} (I : nat → St → heap → Prop)
    (body : nat → St → M St) (n : nat) :
  ∀ s st h h' st',
    (∀ i st h h' st', s ≤ i < s + n → I i st h →
       body i st h = (h', Ok st') → I (S i) st' h') →
    I s st h → for_each_M (seq s n) body st h = (h', Ok st') →
    I (s + n) st' h'.
Proof.
  induction n as [|n IH]; intros s st h h' st' Hbody HI Hrun.
  { cbn in Hrun. apply ret_M_inv in Hrun as [-> ->]. by rewrite Nat.add_0_r. }
  cbn [seq for_each_M] in Hrun.
  apply bind_M_inv in Hrun as (st1 & h1 & Hstep & Hrun).
  replace (s + S n) with (S s + n) by lia.
  apply (IH (S s) st1 h1); [|by eapply Hbody; [lia|..]|done].
  intros i st2 h2 h2' st2' Hi. apply Hbody. lia.
Qed.

(** After the loop that creates the blocked vectors every copy is the
    layer it was, with no candidate blocked. *)
Lemma init_blocked_loop (cdc : list loc) (h h' : heap) :
  for_each_M (range (length cdc)) (init_blocked cdc) tt h = (h', Ok tt) →
  ∀ r l, r ∈ cdc → h !! r = Some l → h' !! r = Some (unblocked l).
Proof.
  intros Hrun.
  pose (I := λ (k : nat) (_ : unit) (hk : heap),
          ∀ r l, h !! r = Some l →
            hk !! r = Some (if decide (r ∈ take k cdc) then unblocked l
                            else l)).
  assert (I (0 + length cdc) tt h') as Hend.
  { apply (for_each_M_seq_inv I (init_blocked cdc) (length cdc) 0 tt h h' tt);
      [| |exact Hrun].
    - intros k [] hk hk' [] Hk HI Hstep r l Hl.
      unfold init_blocked in Hstep.
      apply bind_M_inv in Hstep as (r0 & h1 & [-> Hr0]%lift_inv & Hstep).
      apply index_Ok in Hr0.
      apply bind_M_inv in Hstep as (l0 & h2 & Hl0 & Hstep).
      unfold deref in Hl0. injection Hl0 as <- Hl0. apply index_Ok in Hl0.
      unfold store in Hstep. case_decide as Hlt; [|done].
      injection Hstep as <-.
      rewrite (take_S_r _ _ _ Hr0).
      specialize (HI r l Hl).
      destruct (decide (r = r0)) as [->|Hne].
      + rewrite list_lookup_insert_eq by done.
        rewrite decide_True by (apply elem_of_app; right; by left).
        rewrite Hl0 in HI. injection HI as ->. by case_decide.
      + rewrite list_lookup_insert_ne by done. rewrite HI.
        destruct (decide (r ∈ take k cdc)) as [Hin|Hout].
        * rewrite decide_True; [done|]. apply elem_of_app. by left.
        * rewrite decide_False; [done|].
          intros [Hin|Hin%list_elem_of_singleton]%elem_of_app; done.
    - intros r l Hl. rewrite take_0. rewrite decide_False; [done|].
      apply not_elem_of_nil. }
  intros r l Hin Hl. specialize (Hend r l Hl). cbn [Nat.add] in Hend.
  rewrite firstn_all in Hend. by rewrite decide_True in Hend.
Qed.

Lemma open_layers_none_exhausted (n s : nat) :
  open_layers s (replicate n false) = seq s n.
Proof.
  revert s. induction n as [|n IH]; intros s; [done|].
  cbn [replicate open_layers seq]. by rewrite IH.
Qed.

(** ** Counting the true candidates on a path *)

(** While no layer is exhausted, the loop over the nodes of a path adds
    to the count of round [k], for every node, whether it is labelled as
    the true identification in its layer. *)
Lemma block_cand_hits (layers : list layer) (cdc : list loc)
    (nc0 : list nat) (path : list pyidx) :
  ∀ s a h h' nc',
    (∀ t r, cdc !! t = Some r →
       ∃ l lt, h !! r = Some l ∧ layers !! t = Some lt
               ∧ is_true_identification l = is_true_identification lt) →
    for_each_M (imap (λ i, pair (s + i)) path)
      (block_cand cdc (replicate (length cdc) false) (length nc0))
      (nc0 ++ [a]) h = (h', Ok nc') →
    nc' = nc0 ++ [a + hits_from s layers path].
Proof.
  induction path as [|cand path IH]; intros s a h h' nc' Hinv Hrun.
  { cbn in Hrun. apply ret_M_inv in Hrun as [_ ->]. cbn [hits_from].
    by rewrite Nat.add_0_r. }
  rewrite imap_cons in Hrun. cbn [for_each_M] in Hrun.
  apply bind_M_inv in Hrun as (nc1 & h1 & Hstep & Hrun).
  rewrite (imap_ext _ (λ i, pair (S s + i))) in Hrun
    by (intros i x _; cbn; f_equal; lia).
  rewrite Nat.add_0_r in Hstep. unfold block_cand in Hstep.
  apply bind_M_inv in Hstep as (tm & g1 & [-> Htm]%lift_inv & Hstep).
  unfold _t_map in Htm. rewrite open_layers_none_exhausted in Htm.
  apply index_Ok, lookup_seq in Htm as [-> Hs]. cbn [Nat.add] in Hstep.
  apply bind_M_inv in Hstep as (r & g2 & [-> Hr]%lift_inv & Hstep).
  apply index_Ok in Hr.
  apply bind_M_inv in Hstep as (l & g3 & Hl & Hstep).
  unfold deref in Hl. injection Hl as <- Hl. apply index_Ok in Hl.
  apply bind_M_inv in Hstep as (truth & g4 & [-> Htruth]%lift_inv & Hstep).
  apply bind_M_inv in Hstep as (n_k & g5 & [-> Hn_k]%lift_inv & Hstep).
  apply index_Ok in Hn_k. rewrite list_lookup_middle in Hn_k by done.
  injection Hn_k as <-.
  apply bind_M_inv in Hstep as (nc2 & g6 & [-> Hnc2]%lift_inv & Hstep).
  unfold assign in Hnc2. case_decide; [|done]. injection Hnc2 as <-.
  rewrite insert_app_r_alt, Nat.sub_diag in Hstep by done.
  cbn [insert list_insert] in Hstep.
  apply bind_M_inv in Hstep as (tm' & g7 & [-> Htm']%lift_inv & Hstep).
  unfold _t_map in Htm'. rewrite open_layers_none_exhausted in Htm'.
  apply index_Ok, lookup_seq in Htm' as [-> _]. cbn [Nat.add] in Hstep.
  apply bind_M_inv in Hstep as (r' & g8 & [-> Hr']%lift_inv & Hstep).
  apply index_Ok in Hr'. assert (r' = r) as -> by congruence.
  apply bind_M_inv in Hstep as (l' & g9 & Hl' & Hstep).
  unfold deref in Hl'. injection Hl' as <- Hl'. apply index_Ok in Hl'.
  assert (l' = l) as -> by congruence.
  apply bind_M_inv in Hstep as (bl & g10 & [-> _]%lift_inv & Hstep).
  apply bind_M_inv in Hstep as (bl' & g11 & [-> _]%lift_inv & Hstep).
  apply bind_M_inv in Hstep as ([] & g12 & Hstore & [-> ->]%ret_M_inv).
  unfold store in Hstore. case_decide; [|done]. injection Hstore as <-.
  destruct (Hinv s r Hr) as (l0 & lt & Hl0 & Hlt & Htrue).
  assert (l0 = l) as -> by congruence.
  assert (∀ t r0, cdc !! t = Some r0 →
            ∃ l0 lt0, <[r := with_is_blocked l bl']> h !! r0 = Some l0
                      ∧ layers !! t = Some lt0
                      ∧ is_true_identification l0
                        = is_true_identification lt0) as Hinv'.
  { intros t r0 Hr0. destruct (Hinv t r0 Hr0) as (l1 & lt1 & Hl1 & Hlt1 & Ht1).
    destruct (decide (r0 = r)) as [->|Hne].
    - rewrite list_lookup_insert_eq by done.
      assert (l1 = l) as -> by congruence.
      by eexists _, lt1.
    - rewrite list_lookup_insert_ne by done. by exists l1, lt1. }
  rewrite (IH (S s) _ _ _ _ Hinv' Hrun).
  cbn [hits_from]. rewrite (proj2 (index_Ok _ _ _) Hlt).
  cbn [mbind result_bind]. rewrite <- Htrue, Htruth.
  rewrite <- Nat.add_assoc. by destruct truth.
Qed.

Lemma block_cand_take (cdc : list loc) (acb : list bool) (k j : nat)
    (tc : nat * pyidx) (nc : list nat) (h h' : heap) (nc' : list nat) :
  j ≤ k → block_cand cdc acb k tc nc h = (h', Ok nc') →
  take j nc' = take j nc.
Proof.
  unfold block_cand. destruct tc as [t cand]. intros Hj H.
  apply bind_M_inv in H as (tm & h1 & _ & H).
  apply bind_M_inv in H as (r & h2 & _ & H).
  apply bind_M_inv in H as (l & h3 & _ & H).
  apply bind_M_inv in H as (truth & h4 & _ & H).
  apply bind_M_inv in H as (n_k & h5 & _ & H).
  apply bind_M_inv in H as (nc1 & h6 & Hassign & H).
  apply bind_M_inv in H as (tm' & h7 & _ & H).
  apply bind_M_inv in H as (r' & h8 & _ & H).
  apply bind_M_inv in H as (l' & h9 & _ & H).
  apply bind_M_inv in H as (bl & h10 & _ & H).
  apply bind_M_inv in H as (bl' & h11 & _ & H).
  apply bind_M_inv in H as (u & h12 & _ & H).
  apply ret_M_inv in H as [_ ->].
  apply lift_inv in Hassign as [_ Hassign]. unfold assign in Hassign.
  case_decide; [|done]. injection Hassign as <-. by apply take_insert_ge.
Qed.

(** A round does not touch the counts of the rounds before it. *)
Lemma rerank_round_keeps_counts (cdc : list loc) (wf : weight_function)
    (c : cutoff) (kw : kwargs) (k j : nat) (st : rerank_state)
    (h h' : heap) (st' : rerank_state) :
  j ≤ k → j ≤ length (num_correct st) →
  rerank_round cdc wf c kw k st h = (h', Ok st') →
  take j (num_correct st') = take j (num_correct st).
Proof.
  unfold rerank_round. intros Hj Hlen H.
  apply bind_M_inv in H as (open & h1 & _ & H).
  apply bind_M_inv in H as ([path len] & h2 & _ & H).
  apply bind_M_inv in H as (u & h3 & _ & H).
  apply bind_M_inv in H as (nc & h4 & Hnc & H).
  apply bind_M_inv in H as (acb & h5 & _ & H).
  apply ret_M_inv in H as [_ ->]. cbn [num_correct].
  apply (for_each_M_inv (λ x, take j x = take j (num_correct st))) in Hnc;
    [done| |].
  - intros x s g g' s' Hs Hx. apply (block_cand_take _ _ _ j) in Hx; [|done].
    congruence.
  - by rewrite take_app_le.
Qed.

Lemma rerank_loop_keeps_counts (cdc : list loc) (wf : weight_function)
    (c : cutoff) (kw : kwargs) (j m : nat) :
  ∀ s st h h' st',
    j ≤ s → j ≤ length (num_correct st) →
    rerank_loop cdc wf c kw (seq s m) st h = (h', Ok st') →
    take j (num_correct st') = take j (num_correct st).
Proof.
  induction m as [|m IH]; intros s st h h' st' Hs Hlen Hrun.
  { apply ret_M_inv in Hrun as [_ ->]. done. }
  cbn [seq rerank_loop] in Hrun.
  destruct (forallb id (all_cand_blocked st)).
  { apply ret_M_inv in Hrun as [_ ->]. done. }
  apply bind_M_inv in Hrun as (st1 & h1 & Hround & Hrun).
  pose proof (rerank_round_keeps_counts _ _ _ _ _ j _ _ _ _ Hs Hlen Hround)
    as Hkeep.
  apply rerank_round_inv in Hround as (_ & _ & _ & _ & Hnc & _).
  rewrite <- Hkeep. apply (IH (S s) st1 h1 h' st'); [lia|lia|done].
Qed.

(** ** The first round *)

(** On copies with no candidate blocked, the first round hands all
    layers to the solver, which returns what [shortest_path] returns on
    the caller's layers. *)
Lemma first_round (ln : Q → Q) (cdc : list loc) (layers : list layer)
    (c : cutoff) (kw : kwargs) (st : rerank_state) (h h' : heap)
    (st' : rerank_state) :
  Forall2 (λ r lt, h !! r = Some (unblocked lt)) cdc layers →
  all_cand_blocked st = replicate (length cdc) false →
  rerank_round cdc (_weight_func_max ln) c kw (length (num_correct st)) st h
  = (h', Ok st') →
  ∃ path cost,
    shortest_path layers (_weight_func_max ln) c true kw = Ok (path, cost)
    ∧ paths st' = paths st ++ [path] ∧ lengths st' = lengths st ++ [cost]
    ∧ num_correct st' = num_correct st ++ [hits layers path].
Proof.
  intros Hheap Hacb H. unfold rerank_round in H. rewrite Hacb in H.
  apply bind_M_inv in H as (open & h1 & Hopen & H).
  apply select_open_spec in Hopen as (-> & new & -> & Hnew);
    [|by rewrite length_replicate].
  rewrite drop_0, open_layers_none_exhausted in Hnew. cbn [app] in H.
  assert (new = unblocked <$> layers) as ->.
  { apply (list_eq_same_length _ _ (length cdc)).
    - rewrite length_fmap. symmetry. by eapply Forall2_length.
    - apply Forall2_length in Hnew. by rewrite length_seq in Hnew.
    - intros i x y Hi Hx Hy.
      destruct (Forall2_lookup_l _ _ _ _ _ Hnew Hx)
        as (tm & Htm & _ & r & Hr & Hl).
      apply lookup_seq in Htm as [-> _]. cbn [Nat.add] in Hr.
      rewrite list_lookup_fmap in Hy.
      destruct (layers !! i) as [lt|] eqn:Hlt; [|done].
      injection Hy as <-.
      pose proof (Forall2_lookup_lr _ _ _ _ _ _ Hheap Hr Hlt). congruence. }
  apply bind_M_inv in H as ([path cost] & h2 & [-> Hsolve]%lift_inv & H).
  rewrite solver_unblocked, <- shortest_path_eq in Hsolve.
  apply bind_M_inv in H as (u & h3 & [-> _]%lift_inv & H).
  apply bind_M_inv in H as (nc & h4 & Hnc & H).
  apply bind_M_inv in H as (acb & h5 & _ & H).
  apply ret_M_inv in H as [_ ->]. cbn [paths lengths num_correct].
  exists path, cost. split_and!; try done.
  apply (block_cand_hits layers cdc (num_correct st) path 0 0) in Hnc;
    [done|].
  intros t r Hr.
  destruct (Forall2_lookup_l _ _ _ _ _ Hheap Hr) as (lt & Hlt & Hl).
  by exists (unblocked lt), lt.
Qed.

Lemma forallb_replicate_false (n : nat) :
  0 < n → forallb id (replicate n false) = false.
Proof. destruct n; [lia|done]. Qed.

(** X16.  The first round of the reranking is the shortest path: when
    called with [_weight_func_max], one layer or more and [topk >= 1],
    [perform_reranking_of_candidates] returns, as its first path and
    cost, what [shortest_path] with the input validation returns on the
    caller's layers; the first accuracy is the percentage of layers in
    which that path goes through the true candidate; and fewer than
    [topk] further paths follow (none for [topk = 1]). *)
Theorem first_reranked_path_is_shortest_path (ln : Q → Q)
    (cand_data : list loc) (layers : list layer) (topk : nat)
    (cut_off_n_cand : cutoff) (kwargs : kwargs) (h h' : heap)
    (topk_accs : list float) (paths : list (list pyidx))
    (lengths : list float) :
  Forall2 (λ r l, h !! r = Some l) cand_data layers →
  0 < length cand_data → 0 < topk →
  perform_reranking_of_candidates cand_data topk cut_off_n_cand
    (Some (_weight_func_max ln)) kwargs h
  = (h', Ok (topk_accs, paths, lengths)) →
  ∃ path cost more_paths more_costs,
    shortest_path layers (_weight_func_max ln) cut_off_n_cand true kwargs
    = Ok (path, cost)
    ∧ paths = path :: more_paths ∧ lengths = cost :: more_costs
    ∧ length more_paths < topk
    ∧ topk_accs !! 0 = Some (accuracy (hits layers path) (length layers)).
Proof.
  intros Hlayers Hpos Htopk Hrun.
  unfold perform_reranking_of_candidates in Hrun.
  apply bind_M_inv in Hrun as (cdc & h1 & Hcopy & Hrun).
  apply bind_M_inv in Hrun as (wf & h2 & [-> [= <-]]%lift_inv & Hrun).
  apply bind_M_inv in Hrun as ([] & h3 & Hinit & Hrun).
  apply bind_M_inv in Hrun as (st & h4 & Hloop & Hrun).
  apply ret_M_inv in Hrun as [_ Hres]. injection Hres as -> -> ->.
  pose proof (deepcopy_refs_length _ _ _ _ _ Hcopy) as Hlen.
  apply deepcopy_refs_content in Hcopy as [Hpre Hcopies];
    [|by intros r c Hin%elem_of_nil].
  pose proof (init_blocked_loop _ _ _ Hinit) as Hblocked.
  assert (Forall2 (λ r lt, h3 !! r = Some (unblocked lt)) cdc layers)
    as Hheap.
  { apply Forall2_same_length_lookup_2.
    - rewrite Hlen. by eapply Forall2_length.
    - intros i c lt Hc Hlt.
      destruct (Forall2_lookup_r _ _ _ _ _ Hcopies Hc)
        as (r & Hr & l & Hlr & Hlc).
      pose proof (Forall2_lookup_lr _ _ _ _ _ _ Hlayers Hr Hlt) as Hrl.
      pose proof (prefix_lookup_Some _ _ _ _ Hrl Hpre) as Hrl1.
      assert (l = lt) as -> by congruence.
      apply Hblocked; [|done]. by eapply list_elem_of_lookup_2. }
  destruct topk as [|m]; [lia|]. unfold range in Hloop.
  cbn [seq rerank_loop all_cand_blocked] in Hloop.
  rewrite forallb_replicate_false in Hloop by lia.
  apply bind_M_inv in Hloop as (st1 & g1 & Hround & Hloop).
  apply (first_round ln cdc layers) in Hround
    as (path & cost & Hsolve & Hp & Hl & Hnc); [|done|done].
  cbn [paths lengths num_correct app] in Hp, Hl, Hnc.
  assert (take 1 (num_correct st) = take 1 (num_correct st1)) as Hkeep.
  { apply (rerank_loop_keeps_counts cdc (_weight_func_max ln) cut_off_n_cand
             kwargs 1 m 1 st1 g1 h4 st); [lia| |done].
    rewrite Hnc. cbn. lia. }
  apply rerank_loop_shape in Hloop
    as (np & nl & Hp' & Hl' & _ & _ & Hks & _).
  rewrite length_seq in Hks.
  exists path, cost, np, nl. rewrite Hp', Hl', Hp, Hl. cbn [app].
  split_and!; try done; [lia|].
  rewrite Hnc in Hkeep. destruct (num_correct st) as [|c0 rest]; [done|].
  cbn [take] in Hkeep. injection Hkeep as ->.
  assert (length cdc = length layers) as ->
    by (rewrite Hlen; by eapply Forall2_length).
  reflexivity.
Qed.

Lemma first_reranked_path_is_shortest_path_witness :
  ∃ path cost more_paths more_costs,
    shortest_path scenario (_weight_func_max ln_tangent) Unbounded true
      scenario_kwargs = Ok (path, cost)
    ∧ [[Idx 1; Idx 0]; [Idx 0; Idx 1]] = path :: more_paths
    ∧ [Fin (-130 # 100); Fin (-400 # 1000)] = cost :: more_costs
    ∧ length more_paths < 5
    ∧ [Fin (100 # 2); Fin (200 # 2)] !! 0
      = Some (accuracy (hits scenario path) (length scenario)).
Proof.
  eapply (first_reranked_path_is_shortest_path ln_tangent [0; 1] scenario 5
            Unbounded scenario_kwargs scenario).
  - by repeat constructor.
  - cbn. lia.
  - lia.
  - vm_compute. reflexivity.
Defined.
